(** * libdivecomputer: Reefnet Sensus Pro and Suunto Vyper2 back ends

    A shallow embedding of [src/reefnet_sensuspro.c], [src/suunto_vyper2.c]
    and of the event-flag layout of [include/libdivecomputer/parser.h],
    with the properties the specification states about them and further
    properties that the code itself shows.  The extraction of records
    that lie anywhere in a buffer comes last: it rests on the lemmas
    on the scan of the part before it.

    Conventions.  An [unsigned int] is a [Z] in [0, 2^32); every C
    operation that can leave that range is followed by [uint].  A buffer
    is a [list byte]; a pointer into a buffer is the buffer and an
    offset.  A read outside the buffer is undefined in C: the model
    returns [None] there, and also when a loop runs out of fuel. *)

From Stdlib Require Import ZArith List Bool Lia.
From Stdlib.Strings Require Import Byte.
Import ListNotations.
Local Open Scope Z_scope.

(** ** Machine integers and bytes *)

Definition uint (z : Z) : Z := z mod 2 ^ 32.

Definition byte_val (b : byte) : Z := Z.of_N (Byte.to_N b).

Fixpoint bytes_eqb (a b : list byte) : bool :=
  match a, b with
  | [], [] => true
  | x :: a', y :: b' => Byte.eqb x y && bytes_eqb a' b'
  | _, _ => false
  end.

(** [load data off n]: the [n] bytes at [data + off], when they all lie
    inside the buffer. *)
Definition load (data : list byte) (off : Z) (n : nat) : option (list byte) :=
  if (0 <=? off) && (off + Z.of_nat n <=? Z.of_nat (length data))
  then Some (firstn n (skipn (Z.to_nat off) data))
  else None.

(** [memcmp_is0 data off pat] is [Some true] when
    [memcmp (data + off, pat, sizeof pat) == 0]. *)
Definition memcmp_is0 (data : list byte) (off : Z) (pat : list byte)
  : option bool :=
  match load data off (length pat) with
  | Some bs => Some (bytes_eqb bs pat)
  | None => None
  end.

(** Modelled from the spec: the codec [read_u32_le(bytes) -> u32] of
    array.h (little-endian integer decode from a byte slice), which is
    not part of the sources at hand. *)
Definition array_uint32_le (data : list byte) (off : Z) : option Z :=
  match load data off 4 with
  | Some [b0; b1; b2; b3] =>
      Some (byte_val b0 + Z.shiftl (byte_val b1) 8
            + Z.shiftl (byte_val b2) 16 + Z.shiftl (byte_val b3) 24)
  | _ => None
  end.

(** Modelled from the spec: [read_u16_be(bytes) -> u16] of array.h. *)
Definition array_uint16_be (data : list byte) (off : Z) : option Z :=
  match load data off 2 with
  | Some [b0; b1] => Some (Z.shiftl (byte_val b0) 8 + byte_val b1)
  | _ => None
  end.

(** Modelled from the spec: [read_u16_le(bytes) -> u16] of array.h. *)
Definition array_uint16_le (data : list byte) (off : Z) : option Z :=
  match load data off 2 with
  | Some [b0; b1] => Some (byte_val b0 + Z.shiftl (byte_val b1) 8)
  | _ => None
  end.

(** ** Status codes *)

(** Modelled from the spec: the error kinds of section 7, the
    [dc_status_t] of common.h. *)
Inductive dc_status_t :=
| DC_STATUS_SUCCESS
| DC_STATUS_UNSUPPORTED
| DC_STATUS_INVALIDARGS
| DC_STATUS_NOMEMORY
| DC_STATUS_IO
| DC_STATUS_TIMEOUT
| DC_STATUS_PROTOCOL
| DC_STATUS_DATAFORMAT
| DC_STATUS_CANCELLED.

(** The macro [EXITCODE] that both back ends define. *)
Definition EXITCODE (rc : Z) : dc_status_t :=
  if rc =? -1 then DC_STATUS_IO else DC_STATUS_TIMEOUT.

(** ** Dive extraction: the scan of [reefnet_sensuspro_extract_dives] *)

Definition header : list byte := [x00; x00; x00; x00].
Definition footer : list byte := [xff; xff].

(** The arguments of one callback invocation: the dive and its
    fingerprint, each a pointer (an offset into the buffer) and a size. *)
Record dive_view := {
  dv_data : Z;
  dv_size : Z;
  dv_fingerprint : Z;
  dv_fsize : Z
}.

(** [dc_dive_callback_t]: the callback sees the buffer through its two
    pointers, updates its [userdata] and returns an [int]. *)
Definition dc_dive_callback_t (U : Type) : Type :=
  list byte -> dive_view -> U -> Z * U.

Record extract_result (U : Type) := {
  res_status : dc_status_t;
  res_calls : list dive_view;
  res_userdata : U
}.
Arguments res_status {U} _.
Arguments res_calls {U} _.
Arguments res_userdata {U} _.

Record scan_state (U : Type) := {
  previous : Z;
  current : Z;
  userdata : U;
  calls : list dive_view
}.
Arguments previous {U} _.
Arguments current {U} _.
Arguments userdata {U} _.
Arguments calls {U} _.

(** The inner [while (offset + 2 <= previous)] loop.  [Some None] is
    [found == 0], [Some (Some offset)] is [found == 1] with the final
    [offset]. *)
Fixpoint find_footer (fuel : nat) (data : list byte) (prev offset : Z)
  : option (option Z) :=
  match fuel with
  | O => None
  | S fuel' =>
      if uint (offset + 2) <=? prev then
        match memcmp_is0 data offset footer with
        | None => None
        | Some true => Some (Some offset)
        | Some false => find_footer fuel' data prev (uint (offset + 1))
        end
      else Some None
  end.

Section Extract.
Context {U : Type}.
Variable data : list byte.
(** [device ? Some device->timestamp : None] *)
Variable cutoff : option Z.
Variable callback : option (dc_dive_callback_t U).

Definition finish (st : dc_status_t) (s : scan_state U) : extract_result U :=
  {| res_status := st; res_calls := calls s; res_userdata := userdata s |}.

(** One test of the outer [while (current > 0)] and, when it holds, one
    run of its body: either the next state of the scan or the value
    the function returns. *)
Definition extract_step (s : scan_state U)
  : option (scan_state U + extract_result U) :=
  if 0 <? current s then
    let cur := current s - 1 in
    match memcmp_is0 data cur header with
    | None => None
    | Some false =>
        Some (inl {| previous := previous s; current := cur;
                     userdata := userdata s; calls := calls s |})
    | Some true =>
        match find_footer (S (Z.to_nat (previous s))) data (previous s)
                          (uint (cur + 10)) with
        | None => None
        | Some None => Some (inr (finish DC_STATUS_DATAFORMAT s))
        | Some (Some offset) =>
            match array_uint32_le data (cur + 6) with
            | None => None
            | Some timestamp =>
                if match cutoff with
                   | Some t => timestamp <=? t
                   | None => false
                   end
                then Some (inr (finish DC_STATUS_SUCCESS s))
                else
                  let next := if 4 <=? cur then cur - 4 else 0 in
                  match callback with
                  | Some cb =>
                      let view :=
                        {| dv_data := cur;
                           dv_size := uint (uint (offset + 2) - cur);
                           dv_fingerprint := cur + 6;
                           dv_fsize := 4 |} in
                      let (rc, u') := cb data view (userdata s) in
                      let s' :=
                        {| previous := cur; current := next;
                           userdata := u'; calls := calls s ++ [view] |} in
                      if rc =? 0
                      then Some (inr (finish DC_STATUS_SUCCESS s'))
                      else Some (inl s')
                  | None =>
                      Some (inl {| previous := cur; current := next;
                                   userdata := userdata s;
                                   calls := calls s |})
                  end
            end
        end
    end
  else Some (inr (finish DC_STATUS_SUCCESS s)).

Fixpoint extract_loop (fuel : nat) (s : scan_state U)
  : option (extract_result U) :=
  match fuel with
  | O => None
  | S fuel' =>
      match extract_step s with
      | None => None
      | Some (inr r) => Some r
      | Some (inl s') => extract_loop fuel' s'
      end
  end.

(** The scan from the two initial cursors: [previous = size],
    [current = (size >= 4 ? size - 4 : 0)]. *)
Definition scan_init (size : Z) (u : U) : scan_state U :=
  {| previous := size; current := if 4 <=? size then size - 4 else 0;
     userdata := u; calls := [] |}.

Definition extract_scan (size : Z) (u : U) : option (extract_result U) :=
  extract_loop (S (Z.to_nat size)) (scan_init size u).
End Extract.

(** ** Well-formed dive records

    A record is the bytes of one dive: the four zero bytes of the [header]
    at its start, two bytes of non-sample data, the little-endian
    timestamp at offset 6, the samples, and the [footer] [FF FF] as its
    last two bytes.  The two markers delimit it: [header] occurs nowhere
    else inside the record and [footer] occurs nowhere from offset 10 on
    but at the end. *)

Definition match_at (r : list byte) (k : nat) (pat : list byte) : bool :=
  bytes_eqb (firstn (length pat) (skipn k r)) pat.

Definition well_formed_record (r : list byte) : bool :=
  (12 <=? length r)%nat
  && match_at r 0 header
  && match_at r (length r - 2) footer
  && forallb (fun k => negb (match_at r k header)) (seq 1 (length r - 1))
  && forallb (fun k => negb (match_at r k footer)) (seq 10 (length r - 12)).

Definition record_timestamp (r : list byte) : Z :=
  match array_uint32_le r 6 with
  | Some t => t
  | None => 0
  end.

(** The records of a buffer, oldest first, laid out from offset [off]:
    what the callback is to be given for each. *)
Fixpoint record_views (off : Z) (rs : list (list byte)) : list dive_view :=
  match rs with
  | [] => []
  | r :: rs' =>
      {| dv_data := off; dv_size := Z.of_nat (length r);
         dv_fingerprint := off + 6; dv_fsize := 4 |}
      :: record_views (off + Z.of_nat (length r)) rs'
  end.

Fixpoint strictly_increasing (ts : list Z) : Prop :=
  match ts with
  | [] => True
  | t :: ts' =>
      match ts' with
      | [] => True
      | t' :: _ => t < t'
      end /\ strictly_increasing ts'
  end.

(** The [userdata] after the callback has run on each view in turn. *)
Definition run_callback {U : Type} (cb : dc_dive_callback_t U)
    (data : list byte) (views : list dive_view) (u : U) : U :=
  fold_left (fun acc v => snd (cb data v acc)) views u.

Definition always_continues {U : Type} (cb : dc_dive_callback_t U) : Prop :=
  forall data v u, fst (cb data v u) <> 0.

(** Buffer sizes an [unsigned int] cursor can scan without wrapping. *)
Definition scannable (data : list byte) : Prop :=
  Z.of_nat (length data) + 8 < 2 ^ 32.

(** ** The scan as a step relation *)

Section ScanRelation.
Context {U : Type}.
Variable data : list byte.
Variable cutoff : option Z.
Variable callback : option (dc_dive_callback_t U).

(** [steps s s']: the scan in state [s] gets to state [s'] after some
    iterations of the outer loop. *)
Inductive steps : scan_state U -> scan_state U -> Prop :=
| steps_refl s : steps s s
| steps_next s s' s'' :
    extract_step data cutoff callback s = Some (inl s') ->
    steps s' s'' -> steps s s''.

(** [returns s r]: from state [s] the function returns [r]. *)
Definition returns (s : scan_state U) (r : extract_result U) : Prop :=
  exists k, extract_loop data cutoff callback k s = Some r.
End ScanRelation.

(** No byte between [current] and [previous], as far as the scan has
    looked at it, starts a header. *)
Definition scanned_clear {U : Type} (data : list byte) (s : scan_state U)
  : Prop :=
  forall q, current s <= q -> q + 5 <= previous s ->
            memcmp_is0 data q header = Some false.

(** The cursors of the scan stay inside a buffer of [size] bytes, with
    room for a header at [current - 1]. *)
Definition cursors_inside {U : Type} (size : Z) (s : scan_state U) : Prop :=
  0 <= current s /\ previous s <= size
  /\ (current s = 0 \/ current s + 4 <= previous s).

(** What the callback is given for the record [r] that follows the
    bytes [pre], and the state in which the scan goes on below [pre]. *)
Definition record_view (pre r : list byte) : dive_view :=
  {| dv_data := Z.of_nat (length pre); dv_size := Z.of_nat (length r);
     dv_fingerprint := Z.of_nat (length pre) + 6; dv_fsize := 4 |}.

Definition below_record {U : Type} (pre : list byte) (u : U)
    (tr : list dive_view) : scan_state U :=
  {| previous := Z.of_nat (length pre);
     current := if 4 <=? Z.of_nat (length pre)
                then Z.of_nat (length pre) - 4 else 0;
     userdata := u; calls := tr |}.

(** The test [device && timestamp <= device->timestamp] on a record. *)
Definition cut_by (cutoff : option Z) (r : list byte) : bool :=
  match cutoff with
  | Some t => record_timestamp r <=? t
  | None => false
  end.

(** ** A state monad with faults, for the code that drives a device *)

Definition M (S A : Type) : Type := S -> option (A * S).

Definition ret {S A : Type} (a : A) : M S A := fun s => Some (a, s).

Definition bind {S A B : Type} (m : M S A) (k : A -> M S B) : M S B :=
  fun s => match m s with
           | Some (a, s') => k a s'
           | None => None
           end.

Definition modify {S : Type} (f : S -> S) : M S unit :=
  fun s => Some (tt, f s).

(** An undefined read: the value of an [option] that has to be there. *)
Definition defined {S A : Type} (o : option A) : M S A :=
  fun s => match o with
           | Some a => Some (a, s)
           | None => None
           end.

Notation "x <- m ;; k" := (bind m (fun x => k))
  (at level 61, m at next level, right associativity).
Notation "m ;;; k" := (bind m (fun _ => k))
  (at level 61, right associativity).

(** ** The collaborators of the back ends *)

(** Modelled from the spec: the transport contract of section 6
    (serial.h), as far as the two back ends use it.  [serial_read]
    gives the bytes it stored in the caller's buffer and its return
    value; [serial_write] is given the buffer and the size. *)
Class Serial (serial_t : Type) := {
  serial_close : serial_t -> Z;
  serial_set_break : serial_t -> Z -> serial_t;
  serial_set_rts : serial_t -> Z -> serial_t;
  serial_sleep : serial_t -> Z -> serial_t;
  serial_read : serial_t -> Z -> serial_t * list byte * Z;
  serial_write : serial_t -> list byte -> Z -> serial_t * Z
}.

(** The caller's buffer after a read of at most [size] bytes at [off]. *)
Definition store (buf : list byte) (off : Z) (size : Z) (rx : list byte)
  : list byte :=
  let bs := firstn (Z.to_nat size) rx in
  firstn (Z.to_nat off) buf ++ bs
  ++ skipn (Z.to_nat off + length bs) buf.

(** Modelled from the spec: [xor8(bytes, seed) -> u8] of checksum.h, the
    8-bit running XOR. *)
Definition checksum_xor_uint8 (data : list byte) (init : Z) : Z :=
  fold_left (fun crc b => Z.lxor crc (byte_val b)) data init.

(** Modelled from the spec: the event sink of section 6. *)
Inductive dc_event :=
| DC_EVENT_CLOCK (systime devtime : Z)
| DC_EVENT_DEVINFO (model firmware serial : Z)
| DC_EVENT_PROGRESS (current maximum : Z).

(** The backend tables: a handle refers to one of them. *)
Inductive backend_ref :=
| reefnet_sensuspro_device_backend
| suunto_vyper2_device_backend
| foreign_device_backend (family : nat).

Definition backend_eqb (a b : backend_ref) : bool :=
  match a, b with
  | reefnet_sensuspro_device_backend, reefnet_sensuspro_device_backend => true
  | suunto_vyper2_device_backend, suunto_vyper2_device_backend => true
  | foreign_device_backend m, foreign_device_backend n => Nat.eqb m n
  | _, _ => false
  end.

(** Modelled from the spec: the base of every handle (device-private.h),
    with its backend table reference, the cooperative cancellation flag
    and the event sink. *)
Record dc_device_t := {
  backend : backend_ref;
  cancel : bool;
  events : list dc_event
}.

Definition device_event_emit (ev : dc_event) (base : dc_device_t)
  : dc_device_t :=
  {| backend := backend base; cancel := cancel base;
     events := events base ++ [ev] |}.

(** Modelled from the spec: growable byte sequences (buffer.h); a
    pointer to a [dc_buffer_t] is [None] when it is [NULL]. *)
Definition dc_buffer_t : Type := list byte.

Definition dc_buffer_clear (buffer : option dc_buffer_t)
  : Z * option dc_buffer_t :=
  match buffer with
  | Some _ => (1, Some [])
  | None => (0, None)
  end.

Definition dc_buffer_append (buffer : option dc_buffer_t) (bs : list byte)
  : option dc_buffer_t :=
  match buffer with
  | Some b => Some (b ++ bs)
  | None => None
  end.

Section Devices.
Context {serial_t : Type} `{Serial serial_t}.

(** Constants of reefnet_sensuspro.h, the 16-bit CRC of checksum.h, the
    clock of the host and its allocator: not part of the sources at
    hand. *)
Variable REEFNET_SENSUSPRO_HANDSHAKE_SIZE : Z.
Variable REEFNET_SENSUSPRO_MEMORY_SIZE : Z.
Variable checksum_crc_ccitt_uint16 : list byte -> Z.
Variable dc_datetime_now : Z.
Variable can_allocate : Z -> bool.

Record reefnet_sensuspro_device_t := {
  rsp_base : dc_device_t;
  rsp_port : serial_t;
  rsp_handshake : list byte;
  rsp_timestamp : Z;
  rsp_devtime : Z;
  rsp_systime : Z
}.

(** The base is that of [suunto_common2_device_t], of which the code at
    hand uses the [dc_device_t] alone. *)
Record suunto_vyper2_device_t := {
  vy2_base : dc_device_t;
  vy2_port : serial_t
}.

(** What a pointer to [dc_device_t] can point to. *)
Inductive device :=
| Reefnet_sensuspro (d : reefnet_sensuspro_device_t)
| Suunto_vyper2 (d : suunto_vyper2_device_t)
| Foreign (base : dc_device_t).

Definition base_of (dev : device) : dc_device_t :=
  match dev with
  | Reefnet_sensuspro d => rsp_base d
  | Suunto_vyper2 d => vy2_base d
  | Foreign b => b
  end.

(** The casts of [abstract] to a pointer to [reefnet_sensuspro_device_t]
    and to [suunto_vyper2_device_t], as far as their result can be used. *)
Definition as_reefnet_sensuspro (abstract : option device)
  : option reefnet_sensuspro_device_t :=
  match abstract with
  | Some (Reefnet_sensuspro d) => Some d
  | _ => None
  end.

Definition as_suunto_vyper2 (abstract : option device)
  : option suunto_vyper2_device_t :=
  match abstract with
  | Some (Suunto_vyper2 d) => Some d
  | _ => None
  end.

Definition device_is_reefnet_sensuspro (abstract : option device) : bool :=
  match abstract with
  | None => false
  | Some dev => backend_eqb (backend (base_of dev))
                            reefnet_sensuspro_device_backend
  end.

Definition device_is_suunto_vyper2 (abstract : option device) : bool :=
  match abstract with
  | None => false
  | Some dev => backend_eqb (backend (base_of dev))
                            suunto_vyper2_device_backend
  end.

(** Modelled from the spec: the poll of the cooperative cancellation
    flag (device.c). *)
Definition device_is_cancelled (abstract : option device) : bool :=
  match abstract with
  | None => false
  | Some dev => cancel (base_of dev)
  end.

(** *** reefnet_sensuspro.c *)

Definition rsp_set_base (d : reefnet_sensuspro_device_t) (b : dc_device_t)
  : reefnet_sensuspro_device_t :=
  {| rsp_base := b; rsp_port := rsp_port d;
     rsp_handshake := rsp_handshake d; rsp_timestamp := rsp_timestamp d;
     rsp_devtime := rsp_devtime d; rsp_systime := rsp_systime d |}.

Definition rsp_set_port (d : reefnet_sensuspro_device_t) (p : serial_t)
  : reefnet_sensuspro_device_t :=
  {| rsp_base := rsp_base d; rsp_port := p;
     rsp_handshake := rsp_handshake d; rsp_timestamp := rsp_timestamp d;
     rsp_devtime := rsp_devtime d; rsp_systime := rsp_systime d |}.

Definition rsp_set_handshake (d : reefnet_sensuspro_device_t)
    (h : list byte) : reefnet_sensuspro_device_t :=
  {| rsp_base := rsp_base d; rsp_port := rsp_port d;
     rsp_handshake := h; rsp_timestamp := rsp_timestamp d;
     rsp_devtime := rsp_devtime d; rsp_systime := rsp_systime d |}.

Definition rsp_set_timestamp (d : reefnet_sensuspro_device_t) (t : Z)
  : reefnet_sensuspro_device_t :=
  {| rsp_base := rsp_base d; rsp_port := rsp_port d;
     rsp_handshake := rsp_handshake d; rsp_timestamp := t;
     rsp_devtime := rsp_devtime d; rsp_systime := rsp_systime d |}.

Definition rsp_set_clock (d : reefnet_sensuspro_device_t)
    (systime devtime : Z) : reefnet_sensuspro_device_t :=
  {| rsp_base := rsp_base d; rsp_port := rsp_port d;
     rsp_handshake := rsp_handshake d; rsp_timestamp := rsp_timestamp d;
     rsp_devtime := devtime; rsp_systime := systime |}.

Definition rsp_line (f : serial_t -> serial_t)
  : M reefnet_sensuspro_device_t unit :=
  modify (fun d => rsp_set_port d (f (rsp_port d))).

Definition rsp_read (size : Z)
  : M reefnet_sensuspro_device_t (list byte * Z) :=
  fun d => let '(p, rx, n) := serial_read (rsp_port d) size in
           Some ((rx, n), rsp_set_port d p).

Definition rsp_write (bs : list byte) (size : Z)
  : M reefnet_sensuspro_device_t Z :=
  fun d => let '(p, n) := serial_write (rsp_port d) bs size in
           Some (n, rsp_set_port d p).

Definition rsp_emit (ev : dc_event) : M reefnet_sensuspro_device_t unit :=
  modify (fun d => rsp_set_base d (device_event_emit ev (rsp_base d))).

Definition byte_at (data : list byte) (off : Z) : option Z :=
  match load data off 1 with
  | Some [b] => Some (byte_val b)
  | _ => None
  end.

Definition reefnet_sensuspro_device_close (abstract : option device)
  : option (dc_status_t * option device) :=
  if negb (device_is_reefnet_sensuspro abstract)
  then Some (DC_STATUS_INVALIDARGS, abstract)
  else
    match as_reefnet_sensuspro abstract with
    | None => None
    | Some device =>
        if serial_close (rsp_port device) =? -1
        then Some (DC_STATUS_IO, None)
        else Some (DC_STATUS_SUCCESS, None)
    end.

Definition reefnet_sensuspro_device_get_handshake (abstract : option device)
    (data : list byte) (size : Z)
  : option (dc_status_t * option device * list byte) :=
  if negb (device_is_reefnet_sensuspro abstract)
  then Some (DC_STATUS_INVALIDARGS, abstract, data)
  else
    match as_reefnet_sensuspro abstract with
    | None => None
    | Some device =>
        if size <? REEFNET_SENSUSPRO_HANDSHAKE_SIZE
        then Some (DC_STATUS_INVALIDARGS, abstract, data)
        else Some (DC_STATUS_SUCCESS, abstract,
                   store data 0 REEFNET_SENSUSPRO_HANDSHAKE_SIZE
                         (rsp_handshake device))
    end.

Definition reefnet_sensuspro_device_set_timestamp (abstract : option device)
    (timestamp : Z) : option (dc_status_t * option device) :=
  if negb (device_is_reefnet_sensuspro abstract)
  then Some (DC_STATUS_INVALIDARGS, abstract)
  else
    match as_reefnet_sensuspro abstract with
    | None => None
    | Some device =>
        Some (DC_STATUS_SUCCESS,
              Some (Reefnet_sensuspro (rsp_set_timestamp device timestamp)))
    end.

Definition reefnet_sensuspro_device_set_fingerprint
    (abstract : option device) (data : list byte) (size : Z)
  : option (dc_status_t * option device) :=
  if negb (device_is_reefnet_sensuspro abstract)
  then Some (DC_STATUS_INVALIDARGS, abstract)
  else
    match as_reefnet_sensuspro abstract with
    | None => None
    | Some device =>
        if negb (size =? 0) && negb (size =? 4)
        then Some (DC_STATUS_INVALIDARGS, abstract)
        else if negb (size =? 0)
        then
          match array_uint32_le data 0 with
          | None => None
          | Some t =>
              Some (DC_STATUS_SUCCESS,
                    Some (Reefnet_sensuspro (rsp_set_timestamp device t)))
          end
        else
          Some (DC_STATUS_SUCCESS,
                Some (Reefnet_sensuspro (rsp_set_timestamp device 0)))
    end.

Definition reefnet_sensuspro_handshake
  : M reefnet_sensuspro_device_t dc_status_t :=
  let hsize := REEFNET_SENSUSPRO_HANDSHAKE_SIZE in
  rsp_line (fun p => serial_set_break p 1) ;;;
  rd <- rsp_read (hsize + 2) ;;
  let handshake :=
    store (repeat x00 (Z.to_nat (hsize + 2))) 0 (hsize + 2) (fst rd) in
  let rc := snd rd in
  if negb (rc =? hsize + 2) then ret (EXITCODE rc)
  else
    rsp_line (fun p => serial_set_break p 0) ;;;
    crc <- defined (array_uint16_le handshake hsize) ;;
    let ccrc :=
      checksum_crc_ccitt_uint16 (firstn (Z.to_nat hsize) handshake)
      mod 2 ^ 16 in
    if negb (crc =? ccrc) then ret DC_STATUS_PROTOCOL
    else
      devtime <- defined (array_uint32_le handshake 6) ;;
      modify (fun d => rsp_set_clock d dc_datetime_now devtime) ;;;
      modify (fun d => rsp_set_handshake d
                         (firstn (Z.to_nat hsize) handshake)) ;;;
      rsp_emit (DC_EVENT_CLOCK dc_datetime_now devtime) ;;;
      model <- defined (byte_at handshake 0) ;;
      firmware <- defined (byte_at handshake 1) ;;
      serial <- defined (array_uint16_le handshake 4) ;;
      rsp_emit (DC_EVENT_DEVINFO model firmware serial) ;;;
      rsp_line (fun p => serial_sleep p 10) ;;;
      ret DC_STATUS_SUCCESS.

Definition status_is_success (st : dc_status_t) : bool :=
  match st with
  | DC_STATUS_SUCCESS => true
  | _ => false
  end.

Definition reefnet_sensuspro_send (command : byte)
  : M reefnet_sensuspro_device_t dc_status_t :=
  rc <- reefnet_sensuspro_handshake ;;
  if negb (status_is_success rc) then ret rc
  else
    n <- rsp_write [command] 1 ;;
    if negb (n =? 1) then ret (EXITCODE n)
    else ret DC_STATUS_SUCCESS.

(** The [while (nbytes < sizeof (answer))] loop of the dump: the status
    of an early [return], or the [answer] read. *)
Fixpoint dump_read (fuel : nat) (answer : list byte) (nbytes cur : Z)
  : M reefnet_sensuspro_device_t (dc_status_t + list byte) :=
  let asize := REEFNET_SENSUSPRO_MEMORY_SIZE + 2 in
  match fuel with
  | O => fun _ => None
  | S fuel' =>
      if nbytes <? asize then
        let len := uint (asize - nbytes) in
        let len := if 256 <? len then 256 else len in
        rd <- rsp_read len ;;
        let answer' := store answer nbytes len (fst rd) in
        let n := snd rd in
        if negb (uint n =? len) then ret (inl (EXITCODE n))
        else
          let cur' := uint (cur + len) in
          rsp_emit (DC_EVENT_PROGRESS cur' asize) ;;;
          dump_read fuel' answer' (uint (nbytes + len)) cur'
      else ret (inr answer)
  end.

Definition dc_buffer_reserve (buffer : option dc_buffer_t) (capacity : Z)
  : Z :=
  match buffer with
  | Some _ => if can_allocate capacity then 1 else 0
  | None => 0
  end.

Definition dc_buffer_new (capacity : Z) : option dc_buffer_t :=
  if can_allocate capacity then Some [] else None.

Definition reefnet_sensuspro_device_dump (abstract : option device)
    (buffer : option dc_buffer_t)
  : option (dc_status_t * option device * option dc_buffer_t) :=
  let msize := REEFNET_SENSUSPRO_MEMORY_SIZE in
  if negb (device_is_reefnet_sensuspro abstract)
  then Some (DC_STATUS_INVALIDARGS, abstract, buffer)
  else
    match as_reefnet_sensuspro abstract with
    | None => None
    | Some device =>
        let (cleared, buffer1) := dc_buffer_clear buffer in
        if (cleared =? 0) || (dc_buffer_reserve buffer1 msize =? 0)
        then Some (DC_STATUS_NOMEMORY, abstract, buffer1)
        else
          let body :=
            rsp_emit (DC_EVENT_PROGRESS 0 (msize + 2)) ;;;
            rc <- reefnet_sensuspro_send xb4 ;;
            if negb (status_is_success rc) then ret (inl rc)
            else
              rd <- dump_read (S (Z.to_nat (msize + 2)))
                              (repeat x00 (Z.to_nat (msize + 2))) 0 0 ;;
              match rd with
              | inl st => ret (inl st)
              | inr answer =>
                  crc <- defined (array_uint16_le answer msize) ;;
                  let ccrc :=
                    checksum_crc_ccitt_uint16
                      (firstn (Z.to_nat msize) answer) mod 2 ^ 16 in
                  if negb (crc =? ccrc) then ret (inl DC_STATUS_PROTOCOL)
                  else ret (inr (firstn (Z.to_nat msize) answer))
              end in
          match body device with
          | None => None
          | Some (inl st, device') =>
              Some (st, Some (Reefnet_sensuspro device'), buffer1)
          | Some (inr memory, device') =>
              Some (DC_STATUS_SUCCESS, Some (Reefnet_sensuspro device'),
                    dc_buffer_append buffer1 memory)
          end
    end.

Definition reefnet_sensuspro_extract_dives {U : Type}
    (abstract : option device) (data : list byte) (size : Z)
    (callback : option (dc_dive_callback_t U)) (userdata : U)
  : option (extract_result U) :=
  match abstract with
  | Some _ =>
      if negb (device_is_reefnet_sensuspro abstract)
      then Some {| res_status := DC_STATUS_INVALIDARGS; res_calls := [];
                   res_userdata := userdata |}
      else
        match as_reefnet_sensuspro abstract with
        | None => None
        | Some device =>
            extract_scan data (Some (rsp_timestamp device)) callback
                         size userdata
        end
  | None => extract_scan data None callback size userdata
  end.

Definition reefnet_sensuspro_device_foreach {U : Type}
    (abstract : option device)
    (callback : option (dc_dive_callback_t U)) (userdata : U)
  : option (dc_status_t * option device * list dive_view * U) :=
  if negb (device_is_reefnet_sensuspro abstract)
  then Some (DC_STATUS_INVALIDARGS, abstract, [], userdata)
  else
    match dc_buffer_new REEFNET_SENSUSPRO_MEMORY_SIZE with
    | None => Some (DC_STATUS_NOMEMORY, abstract, [], userdata)
    | Some buffer =>
        match reefnet_sensuspro_device_dump abstract (Some buffer) with
        | None => None
        | Some (rc, abstract', buffer') =>
            if negb (status_is_success rc)
            then Some (rc, abstract', [], userdata)
            else
              match buffer' with
              | None => None
              | Some bytes =>
                  match reefnet_sensuspro_extract_dives abstract' bytes
                          (uint (Z.of_nat (length bytes)))
                          callback userdata with
                  | None => None
                  | Some r =>
                      Some (res_status r, abstract', res_calls r,
                            res_userdata r)
                  end
              end
        end
    end.

Definition reefnet_sensuspro_device_write_interval
    (abstract : option device) (interval : byte)
  : option (dc_status_t * option device) :=
  if negb (device_is_reefnet_sensuspro abstract)
  then Some (DC_STATUS_INVALIDARGS, abstract)
  else
    match as_reefnet_sensuspro abstract with
    | None => None
    | Some device =>
        if (byte_val interval <? 1) || (127 <? byte_val interval)
        then Some (DC_STATUS_INVALIDARGS, abstract)
        else
          let body :=
            rc <- reefnet_sensuspro_send xb5 ;;
            if negb (status_is_success rc) then ret rc
            else
              rsp_line (fun p => serial_sleep p 10) ;;;
              n <- rsp_write [interval] 1 ;;
              if negb (n =? 1) then ret (EXITCODE n)
              else ret DC_STATUS_SUCCESS in
          match body device with
          | None => None
          | Some (st, device') => Some (st, Some (Reefnet_sensuspro device'))
          end
    end.

(** *** suunto_vyper2.c *)

(** [suunto_common2_device_reset_maxdepth] of suunto_common2.c, not part
    of the sources at hand. *)
Variable suunto_common2_device_reset_maxdepth :
  option device -> option (dc_status_t * option device).

Definition vy2_set_port (d : suunto_vyper2_device_t) (p : serial_t)
  : suunto_vyper2_device_t :=
  {| vy2_base := vy2_base d; vy2_port := p |}.

Definition vy2_line (f : serial_t -> serial_t)
  : M suunto_vyper2_device_t unit :=
  modify (fun d => vy2_set_port d (f (vy2_port d))).

Definition vy2_read (size : Z) : M suunto_vyper2_device_t (list byte * Z) :=
  fun d => let '(p, rx, n) := serial_read (vy2_port d) size in
           Some ((rx, n), vy2_set_port d p).

Definition vy2_write (bs : list byte) (size : Z)
  : M suunto_vyper2_device_t Z :=
  fun d => let '(p, n) := serial_write (vy2_port d) bs size in
           Some (n, vy2_set_port d p).

(** [memcmp (a + offa, b + offb, n) == 0] *)
Definition memcmp2_is0 (a : list byte) (offa : Z) (b : list byte) (offb : Z)
    (n : Z) : option bool :=
  match load a offa (Z.to_nat n), load b offb (Z.to_nat n) with
  | Some x, Some y => Some (bytes_eqb x y)
  | _, _ => None
  end.

Definition suunto_vyper2_device_close (abstract : option device)
  : option (dc_status_t * option device) :=
  if negb (device_is_suunto_vyper2 abstract)
  then Some (DC_STATUS_INVALIDARGS, abstract)
  else
    match as_suunto_vyper2 abstract with
    | None => None
    | Some device =>
        if serial_close (vy2_port device) =? -1
        then Some (DC_STATUS_IO, None)
        else Some (DC_STATUS_SUCCESS, None)
    end.

Definition suunto_vyper2_device_packet (abstract : option device)
    (command : list byte) (csize : Z) (answer : list byte) (asize size : Z)
  : option (dc_status_t * option device * list byte) :=
  if device_is_cancelled abstract
  then Some (DC_STATUS_CANCELLED, abstract, answer)
  else
    match as_suunto_vyper2 abstract with
    | None => None
    | Some device =>
        let body :=
          vy2_line (fun p => serial_sleep p 600) ;;;
          vy2_line (fun p => serial_set_rts p 1) ;;;
          n <- vy2_write command csize ;;
          if negb (uint n =? csize) then ret (EXITCODE n, answer)
          else
            vy2_line (fun p => serial_set_rts p 0) ;;;
            rd <- vy2_read asize ;;
            let answer' := store answer 0 asize (fst rd) in
            let n := snd rd in
            if negb (uint n =? asize) then ret (EXITCODE n, answer')
            else
              a0 <- defined (byte_at answer' 0) ;;
              c0 <- defined (byte_at command 0) ;;
              if negb (a0 =? c0) then ret (DC_STATUS_PROTOCOL, answer')
              else
                len <- defined (array_uint16_be answer' 1) ;;
                if negb (uint (len + 4) =? asize)
                then ret (DC_STATUS_PROTOCOL, answer')
                else
                  same <- defined (memcmp2_is0 command 3 answer' 3
                                     (uint (uint (asize - size) - 4))) ;;
                  if negb same then ret (DC_STATUS_PROTOCOL, answer')
                  else
                    crc <- defined (byte_at answer' (uint (asize - 1))) ;;
                    sum <- defined (load answer' 0
                                      (Z.to_nat (uint (asize - 1)))) ;;
                    let ccrc := checksum_xor_uint8 sum 0 mod 2 ^ 8 in
                    if negb (crc =? ccrc)
                    then ret (DC_STATUS_PROTOCOL, answer')
                    else ret (DC_STATUS_SUCCESS, answer') in
        match body device with
        | None => None
        | Some ((st, answer'), device') =>
            Some (st, Some (Suunto_vyper2 device'), answer')
        end
    end.

Definition suunto_vyper2_device_reset_maxdepth (abstract : option device)
  : option (dc_status_t * option device) :=
  if negb (device_is_suunto_vyper2 abstract)
  then Some (DC_STATUS_INVALIDARGS, abstract)
  else suunto_common2_device_reset_maxdepth abstract.

End Devices.

(** ** Event flags (parser.h) *)

Definition SAMPLE_FLAGS_NONE : Z := 0.
Definition SAMPLE_FLAGS_BEGIN : Z := Z.shiftl 1 0.
Definition SAMPLE_FLAGS_END : Z := Z.shiftl 1 1.
Definition SAMPLE_FLAGS_SEVERITY_MASK : Z := Z.shiftl 7 2.

Definition SAMPLE_FLAGS_SEVERITY_SHIFT : Z := 2.

Definition SAMPLE_FLAGS_SEVERITY_MISSING : Z :=
  Z.shiftl 0 SAMPLE_FLAGS_SEVERITY_SHIFT.
Definition SAMPLE_FLAGS_SEVERITY_STATE : Z :=
  Z.shiftl 1 SAMPLE_FLAGS_SEVERITY_SHIFT.
Definition SAMPLE_FLAGS_SEVERITY_INFO : Z :=
  Z.shiftl 2 SAMPLE_FLAGS_SEVERITY_SHIFT.
Definition SAMPLE_FLAGS_SEVERITY_WARN : Z :=
  Z.shiftl 3 SAMPLE_FLAGS_SEVERITY_SHIFT.
Definition SAMPLE_FLAGS_SEVERITY_ALARM : Z :=
  Z.shiftl 4 SAMPLE_FLAGS_SEVERITY_SHIFT.

Definition SAMPLE_FLAGS_TYPE_SHIFT : Z := 5.
Definition SAMPLE_FLAGS_TYPE_MASK : Z := Z.shiftl 7 SAMPLE_FLAGS_TYPE_SHIFT.
Definition SAMPLE_FLAGS_TYPE_NONE : Z := Z.shiftl 0 SAMPLE_FLAGS_TYPE_SHIFT.
Definition SAMPLE_FLAGS_TYPE_INTEREST : Z :=
  Z.shiftl 1 SAMPLE_FLAGS_TYPE_SHIFT.
Definition SAMPLE_FLAGS_TYPE_NAVPOINT : Z :=
  Z.shiftl 2 SAMPLE_FLAGS_TYPE_SHIFT.
Definition SAMPLE_FLAGS_TYPE_DANGER : Z := Z.shiftl 3 SAMPLE_FLAGS_TYPE_SHIFT.
Definition SAMPLE_FLAGS_TYPE_ANIMAL : Z := Z.shiftl 4 SAMPLE_FLAGS_TYPE_SHIFT.
Definition SAMPLE_FLAGS_TYPE_ISSUE : Z := Z.shiftl 5 SAMPLE_FLAGS_TYPE_SHIFT.
Definition SAMPLE_FLAGS_TYPE_INJURY : Z := Z.shiftl 6 SAMPLE_FLAGS_TYPE_SHIFT.

Inductive severity_t := Missing | State | Info | Warn | Alarm.

Inductive annotation_t :=
| NoAnnotation | Interest | Navpoint | Danger | Animal | Issue | Injury.

Record event_flags := {
  ef_begin : bool;
  ef_end : bool;
  ef_severity : severity_t;
  ef_type : annotation_t
}.

Definition severity_bits (s : severity_t) : Z :=
  match s with
  | Missing => SAMPLE_FLAGS_SEVERITY_MISSING
  | State => SAMPLE_FLAGS_SEVERITY_STATE
  | Info => SAMPLE_FLAGS_SEVERITY_INFO
  | Warn => SAMPLE_FLAGS_SEVERITY_WARN
  | Alarm => SAMPLE_FLAGS_SEVERITY_ALARM
  end.

Definition annotation_bits (t : annotation_t) : Z :=
  match t with
  | NoAnnotation => SAMPLE_FLAGS_TYPE_NONE
  | Interest => SAMPLE_FLAGS_TYPE_INTEREST
  | Navpoint => SAMPLE_FLAGS_TYPE_NAVPOINT
  | Danger => SAMPLE_FLAGS_TYPE_DANGER
  | Animal => SAMPLE_FLAGS_TYPE_ANIMAL
  | Issue => SAMPLE_FLAGS_TYPE_ISSUE
  | Injury => SAMPLE_FLAGS_TYPE_INJURY
  end.

Definition severity_of_code (c : Z) : option severity_t :=
  if c =? 0 then Some Missing
  else if c =? 1 then Some State
  else if c =? 2 then Some Info
  else if c =? 3 then Some Warn
  else if c =? 4 then Some Alarm
  else None.

Definition annotation_of_code (c : Z) : option annotation_t :=
  if c =? 0 then Some NoAnnotation
  else if c =? 1 then Some Interest
  else if c =? 2 then Some Navpoint
  else if c =? 3 then Some Danger
  else if c =? 4 then Some Animal
  else if c =? 5 then Some Issue
  else if c =? 6 then Some Injury
  else None.

(** Modelled from the spec: the packing of the event flags into one
    word, which the header leaves to the parsers that fill
    [event.flags]; written with the masks and shifts of the header. *)
Definition pack_flags (f : event_flags) : Z :=
  Z.lor (Z.lor (Z.lor (if ef_begin f then SAMPLE_FLAGS_BEGIN
                       else SAMPLE_FLAGS_NONE)
                      (if ef_end f then SAMPLE_FLAGS_END
                       else SAMPLE_FLAGS_NONE))
               (severity_bits (ef_severity f)))
        (annotation_bits (ef_type f)).

(** Modelled from the spec: the unpacking of the word, which the header
    leaves to the consumers of samples. *)
Definition unpack_flags (w : Z) : option event_flags :=
  match severity_of_code
          (Z.shiftr (Z.land w SAMPLE_FLAGS_SEVERITY_MASK)
                    SAMPLE_FLAGS_SEVERITY_SHIFT),
        annotation_of_code
          (Z.shiftr (Z.land w SAMPLE_FLAGS_TYPE_MASK)
                    SAMPLE_FLAGS_TYPE_SHIFT) with
  | Some s, Some t =>
      Some {| ef_begin := negb (Z.land w SAMPLE_FLAGS_BEGIN =? 0);
              ef_end := negb (Z.land w SAMPLE_FLAGS_END =? 0);
              ef_severity := s; ef_type := t |}
  | _, _ => None
  end.

(** ** Notions the properties are stated with *)

(** The view of a record of [size] bytes at offset [off]. *)
Definition view_at (off size : Z) : dive_view :=
  {| dv_data := off; dv_size := size;
     dv_fingerprint := off + 6; dv_fsize := 4 |}.

(** The view [v] is the record [r] of the buffer: its byte range holds
    the bytes of [r], from the first byte of the header to the last of
    the footer, and its fingerprint range the four bytes of the
    timestamp. *)
Definition views_record (data : list byte) (r : list byte) (v : dive_view)
  : Prop :=
  load data (dv_data v) (length r) = Some r
  /\ dv_size v = Z.of_nat (length r)
  /\ array_uint32_le data (dv_fingerprint v) = Some (record_timestamp r)
  /\ dv_fsize v = 4.

(** What the extraction returns when it delivers every record of the
    buffer [concat rs], newest first. *)
Definition all_delivered {U : Type} (cb : dc_dive_callback_t U)
    (rs : list (list byte)) (u : U) : extract_result U :=
  {| res_status := DC_STATUS_SUCCESS;
     res_calls := rev (record_views 0 rs);
     res_userdata := run_callback cb (concat rs) (rev (record_views 0 rs)) u |}.

(** No fingerprint cutoff is in effect: the extraction is given no
    handle, or a handle of the family whose cutoff is the zero it has
    after [open] or after [set_fingerprint] with no fingerprint. *)
Definition no_cutoff {serial_t : Type} (abstract : option (@device serial_t))
  : Prop :=
  abstract = None
  \/ exists d, abstract = Some (Reefnet_sensuspro d)
               /\ backend (rsp_base d) = reefnet_sensuspro_device_backend
               /\ rsp_timestamp d = 0.

(** The handles the extraction accepts, and the cutoff each brings. *)
Definition family_handle {serial_t : Type}
    (abstract : option (@device serial_t)) : Prop :=
  abstract = None
  \/ exists d, abstract = Some (Reefnet_sensuspro d)
               /\ backend (rsp_base d) = reefnet_sensuspro_device_backend.

Definition cutoff_of {serial_t : Type} (abstract : option (@device serial_t))
  : option Z :=
  match as_reefnet_sensuspro abstract with
  | Some d => Some (rsp_timestamp d)
  | None => None
  end.

(** The state of the scan after [n] iterations that go on. *)
Fixpoint scan_after {U : Type} (data : list byte) (cutoff : option Z)
    (callback : option (dc_dive_callback_t U)) (n : nat) (s : scan_state U)
  : option (scan_state U) :=
  match n with
  | O => Some s
  | S n' =>
      match extract_step data cutoff callback s with
      | Some (inl s') => scan_after data cutoff callback n' s'
      | _ => None
      end
  end.

(** A handle is foreign to a backend table when it is [NULL] or refers
    to another table. *)
Definition foreign_to {serial_t : Type} (table : backend_ref)
    (abstract : option (@device serial_t)) : Prop :=
  abstract = None
  \/ exists dev, abstract = Some dev /\ backend (base_of dev) <> table.

(** The status of an exchange on a Vyper2 handle. *)
Definition exchange_status {serial_t : Type} `{Serial serial_t}
    (dev : suunto_vyper2_device_t)
    (command : list byte) (csize : Z) (answer : list byte) (asize size : Z)
  : option dc_status_t :=
  match suunto_vyper2_device_packet (Some (Suunto_vyper2 dev))
          command csize answer asize size with
  | Some (st, _, _) => Some st
  | None => None
  end.

(** ** A scripted port

    It logs what is asked of it.  A write returns [wire_write], or the
    size it is given when that is [None]; a read delivers [wire_reply]
    and returns [wire_read]. *)

Inductive port_call :=
| Call_set_break (level : Z)
| Call_set_rts (level : Z)
| Call_sleep (ms : Z)
| Call_read (size : Z)
| Call_write (bs : list byte) (size : Z).

Record wire := {
  wire_log : list port_call;
  wire_write : option Z;
  wire_read : Z;
  wire_reply : list byte
}.

Definition wire_note (w : wire) (c : port_call) : wire :=
  {| wire_log := wire_log w ++ [c]; wire_write := wire_write w;
     wire_read := wire_read w; wire_reply := wire_reply w |}.

#[export] Instance wire_serial : Serial wire := {|
  serial_close := fun _ => 0;
  serial_set_break := fun w level => wire_note w (Call_set_break level);
  serial_set_rts := fun w level => wire_note w (Call_set_rts level);
  serial_sleep := fun w ms => wire_note w (Call_sleep ms);
  serial_read := fun w size =>
    (wire_note w (Call_read size), wire_reply w, wire_read w);
  serial_write := fun w bs size =>
    (wire_note w (Call_write bs size),
     match wire_write w with
     | Some rc => rc
     | None => size
     end)
|}.

Definition quiet_wire (write : option Z) (read : Z) (reply : list byte)
  : wire :=
  {| wire_log := []; wire_write := write; wire_read := read;
     wire_reply := reply |}.

(** ** Sample dives, handles and packets *)

(** Two dives: timestamp 50 at offset 0 (14 bytes), timestamp 100 at
    offset 14 (13 bytes). *)
Definition dive_50 : list byte :=
  [x00; x00; x00; x00; x01; x02; x32; x00; x00; x00; x10; x11; xff; xff].

Definition dive_100 : list byte :=
  [x00; x00; x00; x00; x01; x02; x64; x00; x00; x00; x20; xff; xff].

(** A dive with no footer. *)
Definition torn_dive : list byte :=
  [x00; x00; x00; x00; x01; x02; x32; x00; x00; x00; x10; x11; x12].

(** The records of the example scenario: the header, six bytes, the
    timestamp, some padding and the footer. *)
Definition example_record (six stamp pad : list byte) : list byte :=
  header ++ six ++ stamp ++ pad ++ footer.

Definition stamp_100 : list byte := [x64; x00; x00; x00].
Definition stamp_50 : list byte := [x32; x00; x00; x00].

Definition example_six : list byte := [x01; x02; x03; x04; x05; x06].
Definition example_pad : list byte := [x07].

Definition example_buffer : list byte :=
  example_record example_six stamp_100 example_pad
  ++ example_record example_six stamp_50 example_pad.

(** A callback that records what it is given and goes on. *)
Definition recorder : dc_dive_callback_t (list dive_view) :=
  fun _ view log => (1, log ++ [view]).

Definition idle_base (b : backend_ref) : dc_device_t :=
  {| backend := b; cancel := false; events := [] |}.

Definition sample_reefnet : @reefnet_sensuspro_device_t unit :=
  {| rsp_base := idle_base reefnet_sensuspro_device_backend; rsp_port := tt;
     rsp_handshake := []; rsp_timestamp := 7; rsp_devtime := 0;
     rsp_systime := -1 |}.

Definition vyper2_on (w : wire) (cancelled : bool)
  : @suunto_vyper2_device_t wire :=
  {| vy2_base := {| backend := suunto_vyper2_device_backend;
                    cancel := cancelled; events := [] |};
     vy2_port := w |}.

(** A command of the shape the common layer sends and a reply that
    passes every check: [05 00 03 | 01 02 | 10 | crc]. *)
Definition sample_command : list byte := [x05; x00; x03; x01; x02; x10; x15].
Definition sample_reply : list byte := [x05; x00; x03; x01; x02; x10; x15].

(** A cancelled Reefnet handle and an idle Vyper2 handle, on scripted
    ports. *)
Definition cancelled_reefnet : @device wire :=
  Reefnet_sensuspro
    {| rsp_base := {| backend := reefnet_sensuspro_device_backend;
                      cancel := true; events := [] |};
       rsp_port := quiet_wire None 7 sample_reply;
       rsp_handshake := []; rsp_timestamp := 0; rsp_devtime := 0;
       rsp_systime := -1 |}.

Definition idle_vyper2 : @device wire :=
  Suunto_vyper2 (vyper2_on (quiet_wire None 7 sample_reply) false).

(** ** Notions for the further properties of the extraction *)

(** No four zero bytes in a row. *)
Definition header_free (bs : list byte) : bool :=
  forallb (fun k => negb (match_at bs k header)) (seq 0 (length bs)).

(** What holds of a dive when the scan hands it to the callback: it lies
    below [bound], begins with the header, ends with the first footer
    found from its offset 10 on, its fingerprint is the four bytes at
    its offset 6, and their value is above the cutoff, if there is one. *)
Definition marked_dive (data : list byte) (cutoff : option Z) (bound : Z)
    (v : dive_view) : Prop :=
  0 <= dv_data v /\ 12 <= dv_size v /\ dv_data v + dv_size v <= bound
  /\ memcmp_is0 data (dv_data v) header = Some true
  /\ memcmp_is0 data (dv_data v + dv_size v - 2) footer = Some true
  /\ (forall q, dv_data v + 10 <= q -> q + 2 < dv_data v + dv_size v ->
                memcmp_is0 data q footer = Some false)
  /\ dv_fingerprint v = dv_data v + 6 /\ dv_fsize v = 4
  /\ exists ts, array_uint32_le data (dv_fingerprint v) = Some ts
                /\ forall t, cutoff = Some t -> t < ts.

(** Marked dives in the order of the calls: each lies below the one
    before it, the first below [bound]. *)
Fixpoint descending (data : list byte) (cutoff : option Z) (bound : Z)
    (views : list dive_view) : Prop :=
  match views with
  | [] => True
  | v :: rest =>
      marked_dive data cutoff bound v
      /\ descending data cutoff (dv_data v) rest
  end.

(** The offset of the last of the views, [bound] when there is none. *)
Fixpoint low_end (bound : Z) (views : list dive_view) : Z :=
  match views with
  | [] => bound
  | v :: rest => low_end (dv_data v) rest
  end.

(** A callback that records what it is given and stops at the dive at
    offset [off]. *)
Definition stop_at (off : Z) : dc_dive_callback_t (list dive_view) :=
  fun _ view log => (if dv_data view =? off then 0 else 1, log ++ [view]).

(** ** A port that keeps the calls made on it

    [traced T] wraps a port of any transport [T]: every call goes to the
    port it wraps and is added to [trace]. *)

Record traced (T : Type) := {
  traced_port : T;
  trace : list port_call
}.
Arguments traced_port {T} _.
Arguments trace {T} _.

Definition traced_call {T : Type} (p : traced T) (q : T) (c : port_call)
  : traced T :=
  {| traced_port := q; trace := trace p ++ [c] |}.

#[export] Instance traced_serial {T : Type} `{Serial T} : Serial (traced T) := {|
  serial_close := fun p => serial_close (traced_port p);
  serial_set_break := fun p level =>
    traced_call p (serial_set_break (traced_port p) level)
                (Call_set_break level);
  serial_set_rts := fun p level =>
    traced_call p (serial_set_rts (traced_port p) level) (Call_set_rts level);
  serial_sleep := fun p ms =>
    traced_call p (serial_sleep (traced_port p) ms) (Call_sleep ms);
  serial_read := fun p size =>
    let '(q, rx, n) := serial_read (traced_port p) size in
    (traced_call p q (Call_read size), rx, n);
  serial_write := fun p bs size =>
    let '(q, n) := serial_write (traced_port p) bs size in
    (traced_call p q (Call_write bs size), n)
|}.

Definition untraced {T : Type} (q : T) : traced T :=
  {| traced_port := q; trace := [] |}.

(** ** Notions for the properties of the Sensus Pro link *)

(** The handshake buffer, zeroed, after the read of the frame. *)
Definition handshake_frame (hsize : Z) (rx : list byte) : list byte :=
  store (repeat x00 (Z.to_nat (hsize + 2))) 0 (hsize + 2) rx.

(** The handle after a handshake that went through: the payload and
    the clock are stored, the two events emitted. *)
Definition rsp_woken {serial_t : Type}
    (d : @reefnet_sensuspro_device_t serial_t) (p : serial_t)
    (payload : list byte) (systime devtime model firmware serial : Z)
  : @reefnet_sensuspro_device_t serial_t :=
  {| rsp_base :=
       device_event_emit (DC_EVENT_DEVINFO model firmware serial)
         (device_event_emit (DC_EVENT_CLOCK systime devtime) (rsp_base d));
     rsp_port := p; rsp_handshake := payload;
     rsp_timestamp := rsp_timestamp d;
     rsp_devtime := devtime; rsp_systime := systime |}.

(** What every operation on the link leaves of a handle: its backend
    table, its cancellation flag and its fingerprint cutoff; events are
    added to the sink, none is taken away. *)
Definition rsp_kept {serial_t : Type}
    (d d' : @reefnet_sensuspro_device_t serial_t) : Prop :=
  backend (rsp_base d') = backend (rsp_base d)
  /\ cancel (rsp_base d') = cancel (rsp_base d)
  /\ rsp_timestamp d' = rsp_timestamp d
  /\ exists evs, events (rsp_base d') = events (rsp_base d) ++ evs.

(** The progress the dump reports while it reads [total] bytes, 256 at a
    time. *)
Definition dump_progress (from total : Z) : list dc_event :=
  map (fun k => DC_EVENT_PROGRESS
                  (Z.min (from + 256 * Z.of_nat k) total) total)
      (seq 1 (Z.to_nat ((total - from + 255) / 256))).

(** The calls of a handshake and of a command on the port. *)
Definition handshake_calls (hsize : Z) : list port_call :=
  [Call_set_break 1; Call_read (hsize + 2); Call_set_break 0; Call_sleep 10].

Definition write_interval_calls (hsize : Z) (interval : byte)
  : list port_call :=
  handshake_calls hsize
  ++ [Call_write [xb5] 1; Call_sleep 10; Call_write [interval] 1].

(** ** A port that plays a tape

    Each read delivers the next reply of the tape with its return
    value, and -1 when the tape is at its end; a write returns the size
    it is given. *)

Record tape := { tape_replies : list (list byte * Z) }.

#[export] Instance tape_serial : Serial tape := {|
  serial_close := fun _ => 0;
  serial_set_break := fun t _ => t;
  serial_set_rts := fun t _ => t;
  serial_sleep := fun t _ => t;
  serial_read := fun t _ =>
    match tape_replies t with
    | (rx, n) :: rest => ({| tape_replies := rest |}, rx, n)
    | [] => (t, [], -1)
    end;
  serial_write := fun t _ size => (t, size)
|}.

(** A handshake frame of 10 bytes and its CRC, a memory of 300 bytes
    that holds two dives and its CRC, for a toy CRC: the number of
    bytes. *)
Definition toy_crc (bs : list byte) : Z := Z.of_nat (length bs).

Definition sample_handshake : list byte :=
  [x02; x01; x00; x00; x39; x30; x10; x00; x00; x00; x0a; x00].

Definition sample_memory : list byte :=
  dive_50 ++ dive_100 ++ repeat xff 273 ++ [x2c; x01].

Definition sample_tape : tape :=
  {| tape_replies := [(sample_handshake, 12);
                      (firstn 256 sample_memory, 256);
                      (skipn 256 sample_memory, 46)] |}.

Definition reefnet_on {serial_t : Type} (p : serial_t) (cutoff : Z)
  : @reefnet_sensuspro_device_t serial_t :=
  {| rsp_base := idle_base reefnet_sensuspro_device_backend; rsp_port := p;
     rsp_handshake := repeat x00 10; rsp_timestamp := cutoff;
     rsp_devtime := 0; rsp_systime := -1 |}.

(** The handle [reefnet_on t 7] after a command that went through on
    the tape [[(sample_handshake, 12)]]. *)
Definition sample_woken : @reefnet_sensuspro_device_t tape :=
  {| rsp_base := {| backend := reefnet_sensuspro_device_backend;
                    cancel := false;
                    events := [DC_EVENT_CLOCK 1000 16;
                               DC_EVENT_DEVINFO 2 1 12345] |};
     rsp_port := {| tape_replies := [] |};
     rsp_handshake := firstn 10 sample_handshake;
     rsp_timestamp := 7; rsp_devtime := 16; rsp_systime := 1000 |}.

(** ** Opening a Sensus Pro (reefnet_sensuspro.c)

    Modelled from the spec: the part of the transport contract of
    section 6 (serial.h) that [open] uses.  [serial_open] gives the
    port, or nothing when it returns -1; [serial_configure] and
    [serial_set_timeout] give the port after the call and their return
    value; [serial_flush] gives the port after the call. *)
Class SerialSetup (serial_t : Type) := {
  serial_open : list byte -> option serial_t;
  serial_configure : serial_t -> Z -> Z -> Z -> Z -> Z -> serial_t * Z;
  serial_set_timeout : serial_t -> Z -> serial_t * Z;
  serial_flush : serial_t -> Z -> serial_t
}.

(** Modelled from the spec: [device_init] of device.c, which is not
    part of the sources at hand, gives the base its backend table, with
    the cancellation flag clear and nothing in the event sink. *)
Definition device_init (b : backend_ref) : dc_device_t :=
  {| backend := b; cancel := false; events := [] |}.

Section Opening.
Context {serial_t : Type} `{Serial serial_t} `{SerialSetup serial_t}.

(** Constants of reefnet_sensuspro.h and of serial.h, and whether
    [malloc] gives the memory of a handle: not part of the sources at
    hand. *)
Variable REEFNET_SENSUSPRO_HANDSHAKE_SIZE : Z.
Variable SERIAL_PARITY_NONE : Z.
Variable SERIAL_FLOWCONTROL_NONE : Z.
Variable SERIAL_QUEUE_BOTH : Z.
Variable malloc_device : bool.

(** [out] is [None] when the pointer is [NULL], and what it points to
    otherwise; the result holds what it points to after the call.  On
    the paths that fail after [serial_open], the port is given to
    [serial_close], whose result is not looked at, and the handle is
    freed. *)
Definition reefnet_sensuspro_device_open
    (out : option (option (@device serial_t))) (name : list byte)
  : dc_status_t * option (option (@device serial_t)) :=
  match out with
  | None => (DC_STATUS_INVALIDARGS, out)
  | Some _ =>
      if negb malloc_device then (DC_STATUS_NOMEMORY, out)
      else
        match serial_open name with
        | None => (DC_STATUS_IO, out)
        | Some port =>
            let (port1, rc) :=
              serial_configure port 19200 8 SERIAL_PARITY_NONE 1
                               SERIAL_FLOWCONTROL_NONE in
            if rc =? -1 then (DC_STATUS_IO, out)
            else
              let (port2, rc2) := serial_set_timeout port1 3000 in
              if rc2 =? -1 then (DC_STATUS_IO, out)
              else
                let port3 := serial_flush port2 SERIAL_QUEUE_BOTH in
                (DC_STATUS_SUCCESS,
                 Some (Some (Reefnet_sensuspro
                   {| rsp_base :=
                        device_init reefnet_sensuspro_device_backend;
                      rsp_port := port3;
                      rsp_handshake :=
                        repeat x00
                          (Z.to_nat REEFNET_SENSUSPRO_HANDSHAKE_SIZE);
                      rsp_timestamp := 0;
                      rsp_devtime := 0;
                      rsp_systime := -1 |})))
        end
  end.
End Opening.

(** A host on which a tape can be opened under every name but the
    empty one. *)
#[export] Instance tape_setup : SerialSetup tape := {|
  serial_open := fun name =>
    match name with
    | [] => None
    | _ => Some sample_tape
    end;
  serial_configure := fun t _ _ _ _ _ => (t, 0);
  serial_set_timeout := fun t _ => (t, 0);
  serial_flush := fun t _ => t
|}.

(** ** Records with filler between them

    A buffer that contains dive records: some bytes before the first
    record and, after each record, the bytes up to the next record or
    to the end of the buffer.  An item is a record with the filler that
    follows it; the filler holds no header. *)
Definition spaced (items : list (list byte * list byte)) : list byte :=
  concat (map (fun rg => fst rg ++ snd rg) items).

Definition filled_record (rg : list byte * list byte) : Prop :=
  well_formed_record (fst rg) = true /\ header_free (snd rg) = true.

(** What the callback is to be given for the record of each item, the
    first item at offset [off]. *)
Fixpoint spaced_views (off : Z) (items : list (list byte * list byte))
  : list dive_view :=
  match items with
  | [] => []
  | rg :: rest =>
      view_at off (Z.of_nat (length (fst rg)))
      :: spaced_views (off + Z.of_nat (length (fst rg))
                       + Z.of_nat (length (snd rg))) rest
  end.

(** The two dives with a zero byte between them, some bytes before and
    erased memory after. *)
Definition sample_items : list (list byte * list byte) :=
  [(dive_50, [x00]); (dive_100, repeat xff 9)].

Definition sample_lead : list byte := [x12; x00; x00; x00; x34].

(** A call on the port that stays inside the buffers of a packet
    exchange: a write takes its bytes from the command, and no more of
    them than the command has; a read asks for no more bytes than the
    answer has room for. *)
Definition call_inside (command answer : list byte) (c : port_call) : Prop :=
  match c with
  | Call_write bs n => bs = command /\ 0 <= n <= Z.of_nat (length command)
  | Call_read n => 0 <= n <= Z.of_nat (length answer)
  | _ => True
  end.

(** What the port delivers to the read loop of a dump, from offset
    [nbytes] of the answer on: reads of 256 bytes, the last one of
    what is left up to [total], each stored after those before it;
    nothing when a read does not return the size asked for. *)
Fixpoint dump_received {serial_t : Type} `{Serial serial_t} (total : Z)
    (fuel : nat) (p : serial_t) (answer : list byte) (nbytes : Z)
  : option (list byte) :=
  match fuel with
  | O => None
  | S fuel' =>
      if nbytes <? total then
        let len := if 256 <? total - nbytes then 256 else total - nbytes in
        let '(p', rx, n) := serial_read p len in
        if uint n =? len
        then dump_received total fuel' p' (store answer nbytes len rx)
                           (nbytes + len)
        else None
      else Some answer
  end.

(** * Properties *)

(** ** Reads inside a buffer *)

Lemma uint_small (z : Z) : 0 <= z < 2 ^ 32 -> uint z = z.
Proof. intros H. unfold uint. apply Z.mod_small. exact H. Qed.

Lemma bytes_eqb_eq (a b : list byte) : bytes_eqb a b = true <-> a = b.
Proof.
  revert b. induction a as [|x a IH]; intros [|y b]; simpl;
    try (split; [discriminate | discriminate]); try tauto.
  rewrite andb_true_iff, IH. split.
  - intros [Hxy ->]. apply Byte.byte_dec_bl in Hxy. now subst.
  - intros Heq. injection Heq as -> ->. split; [|reflexivity].
    now apply Byte.byte_dec_lb.
Qed.

Lemma load_inside (pre r post : list byte) (k n : nat) :
  (k + n <= length r)%nat ->
  load (pre ++ r ++ post) (Z.of_nat (length pre) + Z.of_nat k) n
  = Some (firstn n (skipn k r)).
Proof.
  intros Hk. unfold load.
  rewrite !length_app.
  replace ((0 <=? Z.of_nat (length pre) + Z.of_nat k)
           && (Z.of_nat (length pre) + Z.of_nat k + Z.of_nat n
               <=? Z.of_nat (length pre + (length r + length post))))
    with true
    by (symmetry; apply andb_true_iff; split; apply Z.leb_le; lia).
  f_equal.
  replace (Z.to_nat (Z.of_nat (length pre) + Z.of_nat k))
    with (length pre + k)%nat by lia.
  rewrite skipn_app, skipn_all2 by lia. simpl.
  replace (length pre + k - length pre)%nat with k by lia.
  rewrite skipn_app, firstn_app.
  rewrite length_skipn.
  replace (n - (length r - k))%nat with 0%nat by lia.
  simpl. now rewrite app_nil_r.
Qed.

Lemma memcmp_inside (pre r post pat : list byte) (k : nat) :
  (k + length pat <= length r)%nat ->
  memcmp_is0 (pre ++ r ++ post) (Z.of_nat (length pre) + Z.of_nat k) pat
  = Some (match_at r k pat).
Proof.
  intros Hk. unfold memcmp_is0. now rewrite load_inside.
Qed.

Lemma load_first (r post : list byte) (k n : nat) :
  (k + n <= length r)%nat ->
  load (r ++ post) (Z.of_nat k) n = Some (firstn n (skipn k r)).
Proof.
  intros Hk. pose proof (load_inside [] r post k n Hk) as H.
  simpl in H. exact H.
Qed.

Lemma load_whole (r : list byte) (k n : nat) :
  (k + n <= length r)%nat ->
  load r (Z.of_nat k) n = Some (firstn n (skipn k r)).
Proof.
  intros Hk. pose proof (load_inside [] r [] k n Hk) as H.
  simpl in H. now rewrite app_nil_r in H.
Qed.

Lemma timestamp_inside (pre r post : list byte) :
  (10 <= length r)%nat ->
  array_uint32_le (pre ++ r ++ post) (Z.of_nat (length pre) + 6)
  = Some (record_timestamp r).
Proof.
  intros Hr. unfold record_timestamp, array_uint32_le.
  change 6 with (Z.of_nat 6).
  rewrite load_inside by lia.
  rewrite load_whole by lia.
  assert (Hlen : length (firstn 4 (skipn 6 r)) = 4%nat)
    by (rewrite length_firstn, length_skipn; lia).
  destruct (firstn 4 (skipn 6 r)) as [|b0 [|b1 [|b2 [|b3 [|b4 l]]]]];
    simpl in Hlen; try discriminate. reflexivity.
Qed.

(** ** The scan as a step relation *)

Section ScanSteps.
Context {U : Type}.
Variable data : list byte.
Variable cutoff : option Z.
Variable callback : option (dc_dive_callback_t U).

Local Abbreviation step := (extract_step data cutoff callback).
Local Abbreviation loop := (extract_loop data cutoff callback).

(** An iteration that goes on has met no header and moved [current]
    down by one, or has delivered a dive and moved both cursors below
    it. *)
Lemma extract_step_continues (s s' : scan_state U) :
  step s = Some (inl s') ->
  0 < current s
  /\ ((memcmp_is0 data (current s - 1) header = Some false
       /\ previous s' = previous s /\ current s' = current s - 1)
      \/ (memcmp_is0 data (current s - 1) header = Some true
          /\ previous s' = current s - 1
          /\ current s' = if 4 <=? current s - 1
                          then current s - 1 - 4 else 0)).
Proof.
  unfold extract_step.
  destruct (0 <? current s) eqn:Hpos; [|discriminate].
  apply Z.ltb_lt in Hpos. intros Hstep. split; [exact Hpos|]. revert Hstep.
  destruct (memcmp_is0 data (current s - 1) header) as [[|]|];
    [|intros Heq; left; injection Heq as <-; auto|discriminate].
  intros Hstep. right. split; [reflexivity|]. revert Hstep.
  destruct (find_footer _ _ _ _) as [[offset|]|]; try discriminate.
  destruct (array_uint32_le _ _) as [timestamp|]; [|discriminate].
  destruct (match cutoff with Some t => timestamp <=? t | None => false end);
    [discriminate|].
  destruct callback as [cb|].
  - destruct (cb _ _ _) as [rc u']. destruct (rc =? 0); [discriminate|].
    intros Heq. injection Heq as <-. auto.
  - intros Heq. injection Heq as <-. auto.
Qed.

(** Every iteration that goes on moves [current] down and keeps it
    non-negative: the scan terminates. *)
Lemma extract_step_decreases (s s' : scan_state U) :
  step s = Some (inl s') -> 0 <= current s' < current s.
Proof.
  intros Hstep.
  destruct (extract_step_continues s s' Hstep)
    as (Hpos & [(_ & _ & ->)|(_ & _ & ->)]); [lia|].
  destruct (4 <=? current s - 1) eqn:H4; [apply Z.leb_le in H4|]; lia.
Qed.

(** The cursors stay in order and [previous] never goes up. *)
Lemma extract_step_bounds (s s' : scan_state U) :
  step s = Some (inl s') ->
  0 <= current s <= previous s ->
  0 <= current s' <= previous s' /\ previous s' <= previous s.
Proof.
  intros Hstep Hb.
  destruct (extract_step_continues s s' Hstep)
    as (Hpos & [(_ & -> & ->)|(_ & -> & ->)]); [lia|].
  destruct (4 <=? current s - 1) eqn:H4; [apply Z.leb_le in H4|]; lia.
Qed.

(** The cursors stay inside the buffer. *)
Lemma cursors_inside_step (size : Z) (s s' : scan_state U) :
  cursors_inside size s ->
  step s = Some (inl s') ->
  cursors_inside size s'.
Proof.
  intros (H0 & Hp & Hroom) Hstep. unfold cursors_inside.
  destruct (extract_step_continues s s' Hstep)
    as (Hpos & [(_ & -> & ->)|(_ & -> & ->)]); [lia|].
  destruct (4 <=? current s - 1) eqn:H4; [apply Z.leb_le in H4|]; lia.
Qed.

(** What the scan has passed without a match stays free of headers. *)
Lemma scanned_clear_step (s s' : scan_state U) :
  0 <= current s <= previous s ->
  scanned_clear data s ->
  step s = Some (inl s') ->
  scanned_clear data s'.
Proof.
  intros Hb Hclear Hstep q.
  destruct (extract_step_continues s s' Hstep)
    as (Hpos & [(Hhead & -> & ->)|(_ & -> & ->)]).
  - intros Hq Hq'.
    destruct (Z.eq_dec q (current s - 1)) as [->|Hne]; [exact Hhead|].
    apply Hclear; lia.
  - destruct (4 <=? current s - 1) eqn:H4;
      [apply Z.leb_le in H4|apply Z.leb_gt in H4]; lia.
Qed.

(** A result does not depend on the fuel, once there is more of it
    than [current]. *)
Lemma extract_loop_fuel (f : nat) :
  forall (k : nat) (s : scan_state U) (r : extract_result U),
    loop k s = Some r -> 0 <= current s < Z.of_nat f -> loop f s = Some r.
Proof.
  induction f as [|f IH]; intros k s r Hk Hcur; [lia|].
  destruct k as [|k]; [discriminate|].
  simpl in Hk |- *.
  destruct (step s) as [[s'|r']|] eqn:Hstep; try discriminate.
  - apply extract_step_decreases in Hstep.
    apply (IH k); [exact Hk|lia].
  - exact Hk.
Qed.

Lemma steps_trans (a b c : scan_state U) :
  steps data cutoff callback a b -> steps data cutoff callback b c ->
  steps data cutoff callback a c.
Proof.
  induction 1 as [|s s' s'' Hs _ IH]; [auto|].
  intros Hc. eapply steps_next; eauto.
Qed.

Lemma returns_now (s : scan_state U) (r : extract_result U) :
  step s = Some (inr r) -> returns data cutoff callback s r.
Proof. intros H. exists 1%nat. simpl. now rewrite H. Qed.

Lemma steps_returns (s s' : scan_state U) (r : extract_result U) :
  steps data cutoff callback s s' -> returns data cutoff callback s' r ->
  returns data cutoff callback s r.
Proof.
  induction 1 as [|s s' s'' Hs _ IH]; [auto|].
  intros Hr. destruct (IH Hr) as [k Hk].
  exists (S k). simpl. rewrite Hs. exact Hk.
Qed.

Lemma returns_scan (size : Z) (u : U) (r : extract_result U) :
  0 <= size ->
  returns data cutoff callback (scan_init size u) r ->
  extract_scan data cutoff callback size u = Some r.
Proof.
  intros Hsize [k Hk]. unfold extract_scan.
  apply (extract_loop_fuel _ k); [exact Hk|].
  simpl. destruct (4 <=? size) eqn:H4; [apply Z.leb_le in H4|]; lia.
Qed.
End ScanSteps.

Lemma steps_bounds {U : Type} (data : list byte) (cutoff : option Z)
    (callback : option (dc_dive_callback_t U)) (s s' : scan_state U) :
  steps data cutoff callback s s' ->
  0 <= current s <= previous s ->
  0 <= current s' <= previous s' /\ previous s' <= previous s.
Proof.
  induction 1 as [s|s s1 s2 Hstep _ IH]; intros Hb; [lia|].
  apply extract_step_bounds in Hstep; [|exact Hb].
  destruct Hstep as [Hb1 Hp1]. specialize (IH Hb1). lia.
Qed.

Lemma scan_after_steps {U : Type} (data : list byte) (cutoff : option Z)
    (callback : option (dc_dive_callback_t U)) (n : nat) :
  forall (s s' : scan_state U),
    scan_after data cutoff callback n s = Some s' ->
    steps data cutoff callback s s'.
Proof.
  induction n as [|n IH]; intros s s'; simpl.
  - intros [= <-]. apply steps_refl.
  - destruct (extract_step data cutoff callback s) as [[s1|r]|] eqn:Hstep;
      try discriminate.
    intros Hn. eapply steps_next; eauto.
Qed.

(** The scan itself returns success or a data-format error, nothing
    else. *)
Lemma extract_step_status {U : Type} (data : list byte) (cutoff : option Z)
    (callback : option (dc_dive_callback_t U))
    (s : scan_state U) (r : extract_result U) :
  extract_step data cutoff callback s = Some (inr r) ->
  res_status r = DC_STATUS_SUCCESS \/ res_status r = DC_STATUS_DATAFORMAT.
Proof.
  unfold extract_step.
  destruct (0 <? current s); [|intros [= <-]; now left].
  destruct (memcmp_is0 data (current s - 1) header) as [[|]|];
    try discriminate.
  destruct (find_footer _ _ _ _) as [[offset|]|];
    [|intros [= <-]; now right|discriminate].
  destruct (array_uint32_le _ _) as [timestamp|]; [|discriminate].
  destruct (match cutoff with Some t => timestamp <=? t | None => false end);
    [intros [= <-]; now left|].
  destruct callback as [cb|]; [|discriminate].
  destruct (cb _ _ _) as [rc u']. destruct (rc =? 0); [|discriminate].
  intros [= <-]. now left.
Qed.

Lemma extract_loop_status {U : Type} (data : list byte) (cutoff : option Z)
    (callback : option (dc_dive_callback_t U)) (fuel : nat) :
  forall (s : scan_state U) (r : extract_result U),
    extract_loop data cutoff callback fuel s = Some r ->
    res_status r = DC_STATUS_SUCCESS \/ res_status r = DC_STATUS_DATAFORMAT.
Proof.
  induction fuel as [|fuel IH]; intros s r; simpl; [discriminate|].
  destruct (extract_step data cutoff callback s) as [[s'|r']|] eqn:Hstep;
    [apply IH| |discriminate].
  intros [= <-]. eapply extract_step_status; eauto.
Qed.

(** ** The search for the footer *)

Lemma find_footer_found (data : list byte) (prev : Z) (fuel : nat) :
  forall (offset o : Z),
    0 <= offset -> offset + 2 < 2 ^ 32 -> prev + 2 < 2 ^ 32 ->
    find_footer fuel data prev offset = Some (Some o) ->
    offset <= o /\ o + 2 <= prev.
Proof.
  induction fuel as [|fuel IH]; intros offset o H0 Hoff Hprev; simpl;
    [discriminate|].
  rewrite uint_small by lia.
  destruct (offset + 2 <=? prev) eqn:Hle; [|discriminate].
  apply Z.leb_le in Hle.
  destruct (memcmp_is0 data offset footer) as [[|]|]; [| |discriminate].
  - intros [= <-]. lia.
  - rewrite uint_small by lia. intros Hf.
    apply IH in Hf; lia.
Qed.

Lemma find_footer_none (data : list byte) (prev : Z) (n : nat) :
  forall (offset : Z) (fuel : nat),
    0 <= offset -> offset + 2 < 2 ^ 32 -> prev + 2 < 2 ^ 32 ->
    prev - 1 - offset <= Z.of_nat n ->
    (n < fuel)%nat ->
    (forall o, offset <= o -> o + 2 <= prev ->
               memcmp_is0 data o footer = Some false) ->
    find_footer fuel data prev offset = Some None.
Proof.
  induction n as [|n IH]; intros offset fuel H0 Hoff Hprev Hn Hfuel Hnone;
    (destruct fuel as [|fuel]; [lia|]); simpl;
    rewrite uint_small by lia;
    destruct (offset + 2 <=? prev) eqn:Hle; try reflexivity;
    apply Z.leb_le in Hle; [lia|].
  rewrite Hnone by lia. rewrite uint_small by lia.
  apply IH; try lia.
  intros o Ho Ho'. apply Hnone; lia.
Qed.

(** ** The scan stays inside the buffer and returns *)

Lemma load_defined (data : list byte) (off : Z) (n : nat) :
  0 <= off -> off + Z.of_nat n <= Z.of_nat (length data) ->
  load data off n = Some (firstn n (skipn (Z.to_nat off) data))
  /\ length (firstn n (skipn (Z.to_nat off) data)) = n.
Proof.
  intros H0 Hn. unfold load.
  replace ((0 <=? off) && (off + Z.of_nat n <=? Z.of_nat (length data)))
    with true by (symmetry; apply andb_true_iff; split; apply Z.leb_le; lia).
  split; [reflexivity|]. rewrite length_firstn, length_skipn. lia.
Qed.

Lemma memcmp_defined (data : list byte) (off : Z) (pat : list byte) :
  0 <= off -> off + Z.of_nat (length pat) <= Z.of_nat (length data) ->
  exists b, memcmp_is0 data off pat = Some b.
Proof.
  intros H0 Hn. unfold memcmp_is0.
  destruct (load_defined data off (length pat) H0 Hn) as [-> _]. eauto.
Qed.

Lemma array_uint32_le_defined (data : list byte) (off : Z) :
  0 <= off -> off + 4 <= Z.of_nat (length data) ->
  exists t, array_uint32_le data off = Some t.
Proof.
  intros H0 Hn. unfold array_uint32_le.
  destruct (load_defined data off 4 H0 ltac:(lia)) as [-> Hlen].
  destruct (firstn 4 (skipn (Z.to_nat off) data))
    as [|b0 [|b1 [|b2 [|b3 [|b4 l]]]]]; simpl in Hlen; try discriminate.
  eauto.
Qed.

Lemma find_footer_defined (data : list byte) (prev : Z) (n : nat) :
  forall (offset : Z) (fuel : nat),
    0 <= offset -> offset + 2 < 2 ^ 32 -> prev + 2 < 2 ^ 32 ->
    prev <= Z.of_nat (length data) ->
    prev - 1 - offset <= Z.of_nat n ->
    (n < fuel)%nat ->
    exists found, find_footer fuel data prev offset = Some found.
Proof.
  induction n as [|n IH]; intros offset fuel H0 Hoff Hprev Hlen Hn Hfuel;
    (destruct fuel as [|fuel]; [lia|]); simpl;
    rewrite uint_small by lia;
    destruct (offset + 2 <=? prev) eqn:Hle; eauto;
    apply Z.leb_le in Hle; [lia|].
  destruct (memcmp_defined data offset footer H0) as [[|] ->];
    [simpl; lia|eauto|].
  rewrite uint_small by lia. apply IH; lia.
Qed.

Section Total.
Context {U : Type}.
Variable data : list byte.
Variable cutoff : option Z.
Variable callback : option (dc_dive_callback_t U).
Hypothesis Hdata : Z.of_nat (length data) + 12 < 2 ^ 32.

Local Abbreviation size := (Z.of_nat (length data)).

Lemma extract_step_defined (s : scan_state U) :
  cursors_inside size s ->
  exists next, extract_step data cutoff callback s = Some next.
Proof.
  intros (H0 & Hp & Hroom). unfold extract_step.
  destruct (0 <? current s) eqn:Hpos; [|eauto].
  apply Z.ltb_lt in Hpos.
  destruct (memcmp_defined data (current s - 1) header) as [[|] ->];
    [lia|simpl; lia| |eauto].
  rewrite uint_small by lia.
  destruct (find_footer_defined data (previous s) (Z.to_nat (previous s))
              (current s - 1 + 10) (S (Z.to_nat (previous s))))
    as [[offset|] Hfind]; try lia; rewrite Hfind; [|eauto].
  apply find_footer_found in Hfind; try lia.
  destruct (array_uint32_le_defined data (current s - 1 + 6)) as [ts ->];
    try lia.
  destruct (match cutoff with Some t => ts <=? t | None => false end);
    [eauto|].
  destruct callback as [cb|]; [|eauto].
  destruct (cb _ _ _) as [rc u']. destruct (rc =? 0); eauto.
Qed.

Lemma extract_loop_defined (fuel : nat) :
  forall (s : scan_state U),
    cursors_inside size s -> current s < Z.of_nat fuel ->
    exists r, extract_loop data cutoff callback fuel s = Some r.
Proof.
  induction fuel as [|fuel IH]; intros s Hin Hfuel.
  - destruct Hin as (H0 & _). lia.
  - simpl. destruct (extract_step_defined s Hin) as [[s'|r] Hstep];
      rewrite Hstep; [|eauto].
    apply IH; [eapply cursors_inside_step; eauto|].
    apply extract_step_decreases in Hstep. lia.
Qed.

(** Given a buffer and its size, the scan reads nothing outside the
    buffer and returns: success or a data-format error. *)
Lemma extract_scan_returns (u : U) :
  exists r, extract_scan data cutoff callback size u = Some r
            /\ (res_status r = DC_STATUS_SUCCESS
                \/ res_status r = DC_STATUS_DATAFORMAT).
Proof.
  destruct (extract_loop_defined (S (Z.to_nat size)) (scan_init size u))
    as [r Hr].
  - unfold cursors_inside. simpl.
    destruct (4 <=? size) eqn:H4; [apply Z.leb_le in H4|]; lia.
  - simpl current. destruct (4 <=? size) eqn:H4; [apply Z.leb_le in H4|]; lia.
  - exists r. split; [exact Hr|].
    eapply extract_loop_status; exact Hr.
Qed.
End Total.

(** ** Bytes and timestamps *)

Lemma byte_val_range (b : byte) : 0 <= byte_val b < 256.
Proof.
  unfold byte_val. pose proof (Byte.to_N_bounded b). lia.
Qed.

Lemma byte_val_zero (b : byte) : byte_val b = 0 -> b = x00.
Proof.
  unfold byte_val. intros Hb.
  assert (Hn : Byte.to_N b = 0%N) by lia.
  pose proof (Byte.of_to_N b) as Hof. rewrite Hn in Hof.
  simpl in Hof. congruence.
Qed.

Lemma timestamp_after_header (data : list byte) (off ts : Z) :
  memcmp_is0 data off header = Some false ->
  array_uint32_le data off = Some ts ->
  0 < ts.
Proof.
  unfold memcmp_is0, array_uint32_le, header. simpl length.
  destruct (load data off 4) as [[|b0 [|b1 [|b2 [|b3 [|b4 l]]]]]|];
    try discriminate.
  intros Hne Hts.
  assert (Hsum : ts = byte_val b0 + Z.shiftl (byte_val b1) 8
                      + Z.shiftl (byte_val b2) 16 + Z.shiftl (byte_val b3) 24)
    by congruence.
  rewrite !Z.shiftl_mul_pow2 in Hsum by lia.
  pose proof (byte_val_range b0). pose proof (byte_val_range b1).
  pose proof (byte_val_range b2). pose proof (byte_val_range b3).
  destruct (Z.eq_dec ts 0) as [Hz|Hz]; [|lia].
  assert (byte_val b0 = 0 /\ byte_val b1 = 0
          /\ byte_val b2 = 0 /\ byte_val b3 = 0) as (E0 & E1 & E2 & E3) by lia.
  apply byte_val_zero in E0, E1, E2, E3. subst b0 b1 b2 b3.
  simpl in Hne. discriminate.
Qed.

(** ** A cutoff of zero never stops the scan *)

Section ZeroCutoff.
Context {U : Type}.
Variable data : list byte.
Variable callback : option (dc_dive_callback_t U).
Variable bound : Z.
Hypothesis Hbound : bound + 12 < 2 ^ 32.

(** A step with the cutoff 0 is the step with no cutoff. *)
Lemma zero_cutoff_step (s : scan_state U) :
  0 <= current s <= previous s -> previous s <= bound ->
  scanned_clear data s ->
  extract_step data (Some 0) callback s = extract_step data None callback s.
Proof.
  intros Hb Hp Hclear. unfold extract_step.
  destruct (0 <? current s) eqn:Hpos; [|reflexivity].
  apply Z.ltb_lt in Hpos.
  destruct (memcmp_is0 data (current s - 1) header) as [[|]|]; try reflexivity.
  destruct (find_footer _ _ _ _) as [[offset|]|] eqn:Hfind; try reflexivity.
  destruct (array_uint32_le data (current s - 1 + 6)) as [ts|] eqn:Hts;
    [|reflexivity].
  rewrite uint_small in Hfind by lia.
  apply find_footer_found in Hfind; try lia.
  assert (Hpos_ts : 0 < ts).
  { apply (timestamp_after_header data (current s - 1 + 6)); [|exact Hts].
    apply Hclear; lia. }
  replace (ts <=? 0) with false by (symmetry; apply Z.leb_gt; exact Hpos_ts).
  reflexivity.
Qed.

Lemma zero_cutoff_loop (fuel : nat) :
  forall (s : scan_state U),
    0 <= current s <= previous s -> previous s <= bound ->
    scanned_clear data s ->
    extract_loop data (Some 0) callback fuel s
    = extract_loop data None callback fuel s.
Proof.
  induction fuel as [|fuel IH]; intros s Hb Hp Hclear; [reflexivity|].
  simpl. rewrite zero_cutoff_step by assumption.
  destruct (extract_step data None callback s) as [[s'|r]|] eqn:Hstep;
    try reflexivity.
  pose proof (extract_step_bounds _ _ _ _ _ Hstep Hb) as [Hb' Hp'].
  apply IH; [exact Hb'|lia|].
  exact (scanned_clear_step data None callback s s' Hb Hclear Hstep).
Qed.

Lemma zero_cutoff_scan (size : Z) (u : U) :
  0 <= size <= bound ->
  extract_scan data (Some 0) callback size u
  = extract_scan data None callback size u.
Proof.
  intros Hsize. unfold extract_scan. apply zero_cutoff_loop.
  - simpl. destruct (4 <=? size) eqn:H4; [apply Z.leb_le in H4|]; lia.
  - simpl. lia.
  - intros q. simpl. destruct (4 <=? size) eqn:H4;
      [apply Z.leb_le in H4|apply Z.leb_gt in H4]; lia.
Qed.
End ZeroCutoff.

(** ** One well-formed record under the scan *)

Lemma well_formed_record_inv (r : list byte) :
  well_formed_record r = true ->
  (12 <= length r)%nat
  /\ match_at r 0 header = true
  /\ match_at r (length r - 2) footer = true
  /\ (forall k, (1 <= k < length r)%nat -> match_at r k header = false)
  /\ (forall k, (10 <= k < length r - 2)%nat -> match_at r k footer = false).
Proof.
  unfold well_formed_record. rewrite !andb_true_iff.
  intros [[[[Hlen Hh] Hf] Hnh] Hnf].
  apply Nat.leb_le in Hlen.
  rewrite forallb_forall in Hnh, Hnf.
  repeat split; auto.
  - intros k Hk. apply negb_true_iff, Hnh, in_seq. lia.
  - intros k Hk. apply negb_true_iff, Hnf, in_seq. lia.
Qed.

Section RecordScan.
Context {U : Type}.
Variables pre r post : list byte.
Variable cutoff : option Z.
Variable callback : option (dc_dive_callback_t U).
Hypothesis Hwf : well_formed_record r = true.
Hypothesis Hsize : Z.of_nat (length pre) + Z.of_nat (length r) + 8 < 2 ^ 32.

Local Abbreviation data := (pre ++ r ++ post).
Local Abbreviation c := (Z.of_nat (length pre)).
Local Abbreviation L := (Z.of_nat (length r)).

Lemma find_footer_record (n : nat) :
  forall (j fuel : nat),
    (10 <= j)%nat -> (j + n = length r - 2)%nat -> (n < fuel)%nat ->
    find_footer fuel data (c + L) (c + Z.of_nat j) = Some (Some (c + L - 2)).
Proof.
  destruct (well_formed_record_inv r Hwf) as (Hlen & _ & Hf & _ & Hnf).
  induction n as [|n IH]; intros j fuel Hj Hn Hfuel;
    (destruct fuel as [|fuel]; [lia|]); simpl.
  - rewrite uint_small by lia.
    replace (c + Z.of_nat j + 2 <=? c + L) with true
      by (symmetry; apply Z.leb_le; lia).
    rewrite (memcmp_inside pre r post footer j) by (simpl; lia).
    replace j with (length r - 2)%nat by lia. rewrite Hf.
    do 2 f_equal. lia.
  - rewrite uint_small by lia.
    replace (c + Z.of_nat j + 2 <=? c + L) with true
      by (symmetry; apply Z.leb_le; lia).
    rewrite (memcmp_inside pre r post footer j) by (simpl; lia).
    rewrite Hnf by lia.
    rewrite uint_small by lia.
    replace (c + Z.of_nat j + 1) with (c + Z.of_nat (S j)) by lia.
    apply IH; lia.
Qed.

(** From the cursor the scan holds when it gets to the record (its end
    as [previous]), no byte above the first looks like a header. *)
Lemma skip_record_body (u : U) (tr : list dive_view) (n : nat) :
  (n + 5 <= length r)%nat ->
  steps data cutoff callback
    {| previous := c + L; current := c + 1 + Z.of_nat n;
       userdata := u; calls := tr |}
    {| previous := c + L; current := c + 1;
       userdata := u; calls := tr |}.
Proof.
  destruct (well_formed_record_inv r Hwf) as (Hlen & _ & _ & Hnh & _).
  induction n as [|n IH]; intros Hn.
  - replace (c + 1 + Z.of_nat 0) with (c + 1) by lia. apply steps_refl.
  - eapply steps_next; [|apply IH; lia].
    unfold extract_step. cbn [current previous userdata calls].
    replace (0 <? c + 1 + Z.of_nat (S n)) with true
      by (symmetry; apply Z.ltb_lt; lia).
    replace (c + 1 + Z.of_nat (S n) - 1) with (c + Z.of_nat (S n)) by lia.
    rewrite (memcmp_inside pre r post header (S n)) by (simpl; lia).
    rewrite Hnh by lia. simpl. do 3 f_equal. lia.
Qed.

(** The iteration that meets the header of the record. *)
Lemma record_step (u : U) (tr : list dive_view) :
  let s := {| previous := c + L; current := c + 1;
              userdata := u; calls := tr |} in
  extract_step data cutoff callback s =
  if match cutoff with
     | Some t => record_timestamp r <=? t
     | None => false
     end
  then Some (inr (finish DC_STATUS_SUCCESS s))
  else
    match callback with
    | Some cb =>
        if fst (cb data (record_view pre r) u) =? 0
        then Some (inr {| res_status := DC_STATUS_SUCCESS;
                          res_calls := tr ++ [record_view pre r];
                          res_userdata := snd (cb data (record_view pre r) u) |})
        else Some (inl (below_record pre (snd (cb data (record_view pre r) u))
                                     (tr ++ [record_view pre r])))
    | None => Some (inl (below_record pre u tr))
    end.
Proof.
  destruct (well_formed_record_inv r Hwf) as (Hlen & Hh & _ & _ & _).
  intros s. unfold s, extract_step. cbn [current previous userdata calls].
  replace (0 <? c + 1) with true by (symmetry; apply Z.ltb_lt; lia).
  replace (c + 1 - 1) with c by lia.
  generalize (memcmp_inside pre r post header 0).
  replace (c + Z.of_nat 0) with c by lia.
  intros ->; [|simpl; lia]. rewrite Hh.
  rewrite uint_small by lia.
  change 10 with (Z.of_nat 10).
  rewrite (find_footer_record (length r - 12)) by lia.
  change (Z.of_nat 10) with 10.
  rewrite timestamp_inside by lia.
  destruct (match cutoff with
            | Some t => record_timestamp r <=? t
            | None => false
            end); [reflexivity|].
  replace (c + L - 2 + 2) with (c + L) by lia.
  rewrite (uint_small (c + L)) by lia.
  replace (c + L - c) with L by lia.
  rewrite (uint_small L) by lia.
  change {| dv_data := c; dv_size := L; dv_fingerprint := c + 6; dv_fsize := 4 |}
    with (record_view pre r).
  destruct callback as [cb|]; [|reflexivity].
  destruct (cb data (record_view pre r) u) as [rc u']. simpl.
  destruct (rc =? 0); reflexivity.
Qed.

(** From the state in which the scan reaches the record to the
    iteration that meets its header. *)
Lemma reach_record_header (u : U) (tr : list dive_view) :
  steps data cutoff callback
    {| previous := c + L; current := c + L - 4;
       userdata := u; calls := tr |}
    {| previous := c + L; current := c + 1;
       userdata := u; calls := tr |}.
Proof.
  destruct (well_formed_record_inv r Hwf) as (Hlen & _).
  replace (c + L - 4) with (c + 1 + Z.of_nat (length r - 5)) by lia.
  apply skip_record_body. lia.
Qed.
End RecordScan.

(** ** A run of well-formed records under the scan *)

Lemma record_views_app (off : Z) (rs : list (list byte)) (r : list byte) :
  record_views off (rs ++ [r])
  = record_views off rs
    ++ [{| dv_data := off + Z.of_nat (length (concat rs));
           dv_size := Z.of_nat (length r);
           dv_fingerprint := off + Z.of_nat (length (concat rs)) + 6;
           dv_fsize := 4 |}].
Proof.
  revert off. induction rs as [|r0 rs IH]; intros off; simpl.
  - now replace (off + 0) with off by lia.
  - rewrite IH, length_app. do 3 f_equal.
    f_equal; lia.
Qed.


Section RecordsScan.
Context {U : Type}.
Variable cutoff : option Z.
Variable cb : dc_dive_callback_t U.
Hypothesis Hcont : always_continues cb.

(** The scan delivers a run of records that the cutoff spares, newest
    first, and goes on below them. *)
Lemma scan_records (rs : list (list byte)) :
  forall (pre post : list byte) (u : U) (tr : list dive_view),
    Forall (fun r => well_formed_record r = true) rs ->
    Forall (fun r => cut_by cutoff r = false) rs ->
    Z.of_nat (length (pre ++ concat rs)) + 8 < 2 ^ 32 ->
    let data := pre ++ concat rs ++ post in
    let views := rev (record_views (Z.of_nat (length pre)) rs) in
    steps data cutoff (Some cb)
      (below_record (pre ++ concat rs) u tr)
      (below_record pre (run_callback cb data views u) (tr ++ views)).
Proof.
  induction rs as [|r rs IH] using rev_ind;
    intros pre post u tr Hwf Hcut Hsize data views.
  - subst views. simpl. rewrite !app_nil_r. apply steps_refl.
  - apply Forall_app in Hwf as [Hwf Hr]. apply Forall_app in Hcut as [Hcut Hc].
    inversion Hr as [|? ? Hr' _]; subst. inversion Hc as [|? ? Hc' _]; subst.
    destruct (well_formed_record_inv r Hr') as (Hlen & _).
    assert (Hdata : data = (pre ++ concat rs) ++ r ++ post).
    { subst data. rewrite concat_app. simpl. now rewrite app_nil_r, <- !app_assoc. }
    assert (Hsz : Z.of_nat (length (pre ++ concat rs)) + Z.of_nat (length r) + 8
                  < 2 ^ 32).
    { revert Hsize. rewrite concat_app. simpl. rewrite !length_app. simpl. lia. }
    set (view := record_view (pre ++ concat rs) r).
    assert (Hviews : views = view :: rev (record_views (Z.of_nat (length pre)) rs)).
    { subst views. rewrite record_views_app, rev_app_distr. simpl.
      unfold view, record_view. rewrite !length_app. do 2 f_equal; lia. }
    assert (Htop : below_record (pre ++ concat (rs ++ [r])) u tr
                   = {| previous := Z.of_nat (length (pre ++ concat rs))
                                    + Z.of_nat (length r);
                        current := Z.of_nat (length (pre ++ concat rs))
                                   + Z.of_nat (length r) - 4;
                        userdata := u; calls := tr |}).
    { unfold below_record. rewrite concat_app. simpl.
      rewrite app_nil_r, app_assoc, (length_app (pre ++ concat rs)).
      rewrite Nat2Z.inj_add.
      replace (4 <=? Z.of_nat (length (pre ++ concat rs)) + Z.of_nat (length r))
        with true by (symmetry; apply Z.leb_le; lia).
      reflexivity. }
    rewrite Htop, Hdata.
    eapply steps_trans; [apply reach_record_header; assumption|].
    eapply steps_next.
    + rewrite (record_step _ _ _ cutoff (Some cb) Hr' Hsz u tr).
      fold (cut_by cutoff r). rewrite Hc'. fold view.
      pose proof (Hcont ((pre ++ concat rs) ++ r ++ post) view u) as Hne.
      apply Z.eqb_neq in Hne. rewrite Hne. reflexivity.
    + rewrite <- Hdata.
      specialize (IH pre (r ++ post)
                     (snd (cb data view u)) (tr ++ [view]) Hwf Hcut).
      replace (pre ++ concat rs ++ r ++ post) with data in IH
        by (rewrite Hdata; now rewrite <- app_assoc).
      rewrite Hviews. simpl run_callback.
      replace (tr ++ view :: rev (record_views (Z.of_nat (length pre)) rs))
        with ((tr ++ [view]) ++ rev (record_views (Z.of_nat (length pre)) rs))
        by (now rewrite <- app_assoc).
      apply IH. revert Hsz. rewrite !length_app. lia.
Qed.
End RecordsScan.

(** ** Timestamps of well-formed records *)

Lemma record_timestamp_bytes (r : list byte) :
  (10 <= length r)%nat ->
  exists b0 b1 b2 b3,
    firstn 4 (skipn 6 r) = [b0; b1; b2; b3]
    /\ record_timestamp r
       = byte_val b0 + byte_val b1 * 2 ^ 8
         + byte_val b2 * 2 ^ 16 + byte_val b3 * 2 ^ 24.
Proof.
  intros Hlen. unfold record_timestamp, array_uint32_le.
  change 6 with (Z.of_nat 6). rewrite load_whole by lia.
  assert (Hl : length (firstn 4 (skipn 6 r)) = 4%nat)
    by (rewrite length_firstn, length_skipn; lia).
  destruct (firstn 4 (skipn 6 r)) as [|b0 [|b1 [|b2 [|b3 [|b4 l]]]]];
    simpl in Hl; try discriminate.
  exists b0, b1, b2, b3. split; [reflexivity|].
  now rewrite !Z.shiftl_mul_pow2 by lia.
Qed.

(** The timestamp of a well-formed record is not zero: its four bytes
    would be a second header. *)
Lemma well_formed_timestamp_pos (r : list byte) :
  well_formed_record r = true -> 0 < record_timestamp r.
Proof.
  intros Hwf.
  destruct (well_formed_record_inv r Hwf) as (Hlen & _ & _ & Hnh & _).
  specialize (Hnh 6%nat ltac:(lia)).
  destruct (record_timestamp_bytes r ltac:(lia))
    as (b0 & b1 & b2 & b3 & Hbytes & ->).
  unfold match_at, header in Hnh. simpl length in Hnh.
  rewrite Hbytes in Hnh.
  pose proof (byte_val_range b0). pose proof (byte_val_range b1).
  pose proof (byte_val_range b2). pose proof (byte_val_range b3).
  destruct (Z.eq_dec (byte_val b0 + byte_val b1 * 2 ^ 8
                      + byte_val b2 * 2 ^ 16 + byte_val b3 * 2 ^ 24) 0)
    as [Hz|Hz]; [|lia].
  assert (byte_val b0 = 0 /\ byte_val b1 = 0
          /\ byte_val b2 = 0 /\ byte_val b3 = 0) as (E0 & E1 & E2 & E3) by lia.
  apply byte_val_zero in E0, E1, E2, E3. subst.
  simpl in Hnh. discriminate.
Qed.

Lemma record_timestamp_range (r : list byte) :
  0 <= record_timestamp r < 2 ^ 32.
Proof.
  unfold record_timestamp, array_uint32_le.
  destruct (load r 6 4) as [[|b0 [|b1 [|b2 [|b3 [|b4 l]]]]]|]; try lia.
  rewrite !Z.shiftl_mul_pow2 by lia.
  pose proof (byte_val_range b0). pose proof (byte_val_range b1).
  pose proof (byte_val_range b2). pose proof (byte_val_range b3). lia.
Qed.

(** ** Extraction of a buffer of well-formed records *)

Section ExtractAll.
Context {U : Type}.
Variable cutoff : option Z.
Variable cb : dc_dive_callback_t U.
Hypothesis Hcont : always_continues cb.

Lemma extract_scan_all (rs : list (list byte)) (u : U) :
  Forall (fun r => well_formed_record r = true) rs ->
  Forall (fun r => cut_by cutoff r = false) rs ->
  scannable (concat rs) ->
  let views := rev (record_views 0 rs) in
  extract_scan (concat rs) cutoff (Some cb)
               (Z.of_nat (length (concat rs))) u
  = Some {| res_status := DC_STATUS_SUCCESS; res_calls := views;
            res_userdata := run_callback cb (concat rs) views u |}.
Proof.
  intros Hwf Hcut Hsize views.
  apply returns_scan; [lia|].
  pose proof (scan_records cutoff cb Hcont rs [] [] u [] Hwf Hcut) as Hsteps.
  simpl in Hsteps. rewrite app_nil_r in Hsteps.
  specialize (Hsteps Hsize).
  eapply steps_returns; [exact Hsteps|].
  apply returns_now. reflexivity.
Qed.

(** With a cutoff at the timestamp of a record, the scan delivers the
    records above it and stops there. *)
Lemma extract_scan_cut (older newer : list (list byte)) (ri : list byte)
    (t : Z) (u : U) :
  cutoff = Some t ->
  record_timestamp ri <= t ->
  well_formed_record ri = true ->
  Forall (fun r => well_formed_record r = true) newer ->
  Forall (fun r => cut_by cutoff r = false) newer ->
  let data := concat (older ++ ri :: newer) in
  scannable data ->
  let views :=
    rev (record_views (Z.of_nat (length (concat older ++ ri))) newer) in
  extract_scan data cutoff (Some cb) (Z.of_nat (length data)) u
  = Some {| res_status := DC_STATUS_SUCCESS; res_calls := views;
            res_userdata := run_callback cb data views u |}.
Proof.
  intros Hc Hle Hri Hwf Hcut data Hsize views.
  assert (Hdata : data = (concat older ++ ri) ++ concat newer ++ []).
  { unfold data. rewrite concat_app. simpl. now rewrite app_nil_r, app_assoc. }
  assert (Hdata' : data = concat older ++ ri ++ concat newer).
  { rewrite Hdata. now rewrite app_nil_r, <- app_assoc. }
  clearbody data.
  unfold scannable in Hsize.
  apply returns_scan; [lia|].
  assert (Hinit : scan_init (Z.of_nat (length data)) u
                  = below_record ((concat older ++ ri) ++ concat newer) u []).
  { unfold scan_init, below_record.
    replace ((concat older ++ ri) ++ concat newer) with data
      by (rewrite Hdata; now rewrite app_nil_r).
    reflexivity. }
  rewrite Hinit.
  eapply steps_returns.
  { rewrite Hdata.
    apply (scan_records cutoff cb Hcont newer (concat older ++ ri) [] u []
                        Hwf Hcut).
    rewrite Hdata in Hsize. rewrite app_nil_r in Hsize. exact Hsize. }
  rewrite <- Hdata. simpl app. fold views.
  destruct (well_formed_record_inv ri Hri) as (Hlen & _).
  assert (Hsz : Z.of_nat (length (concat older)) + Z.of_nat (length ri) + 8
                < 2 ^ 32).
  { rewrite Hdata' in Hsize. rewrite !length_app in Hsize. lia. }
  assert (Htop : below_record (concat older ++ ri)
                   (run_callback cb data views u) views
                 = {| previous := Z.of_nat (length (concat older))
                                  + Z.of_nat (length ri);
                      current := Z.of_nat (length (concat older))
                                 + Z.of_nat (length ri) - 4;
                      userdata := run_callback cb data views u;
                      calls := views |}).
  { unfold below_record. rewrite length_app, Nat2Z.inj_add.
    replace (4 <=? Z.of_nat (length (concat older)) + Z.of_nat (length ri))
      with true by (symmetry; apply Z.leb_le; lia).
    reflexivity. }
  rewrite Htop, Hdata'.
  eapply steps_returns; [apply reach_record_header; assumption|].
  apply returns_now.
  rewrite (record_step _ _ _ cutoff (Some cb) Hri Hsz).
  rewrite Hc. replace (record_timestamp ri <=? t) with true
    by (symmetry; apply Z.leb_le; exact Hle).
  reflexivity.
Qed.
End ExtractAll.

(** ** Layout and order of the records *)






Lemma zero_cutoff_spares (rs : list (list byte)) :
  Forall (fun r => well_formed_record r = true) rs ->
  Forall (fun r => cut_by (Some 0) r = false) rs.
Proof.
  intros Hwf. eapply Forall_impl; [|exact Hwf].
  intros r Hr. simpl. apply Z.leb_gt. now apply well_formed_timestamp_pos.
Qed.

Lemma no_cutoff_spares (rs : list (list byte)) :
  Forall (fun r => cut_by None r = false) rs.
Proof. apply Forall_forall. reflexivity. Qed.

Lemma record_views_sound (rs : list (list byte)) :
  forall (pre post : list byte),
    Forall (fun r => well_formed_record r = true) rs ->
    Forall2 (views_record (pre ++ concat rs ++ post)) rs
            (record_views (Z.of_nat (length pre)) rs).
Proof.
  induction rs as [|r rs IH]; intros pre post Hwf; [constructor|].
  inversion Hwf as [|? ? Hr Hrs]; subst.
  destruct (well_formed_record_inv r Hr) as (Hlen & _).
  simpl concat. simpl record_views. constructor.
  - unfold views_record. simpl. rewrite <- app_assoc.
    repeat split.
    + pose proof (load_inside pre r (concat rs ++ post) 0 (length r)) as Hl.
      rewrite Z.add_0_r in Hl. rewrite Hl by lia.
      simpl. now rewrite firstn_all.
    + apply timestamp_inside. lia.
  - specialize (IH (pre ++ r) post Hrs).
    rewrite length_app, Nat2Z.inj_add in IH.
    rewrite <- !app_assoc in IH |- *. exact IH.
Qed.

(** ** The extraction of a buffer of dives *)

Lemma extract_dives_reefnet {serial_t U : Type}
    (d : @reefnet_sensuspro_device_t serial_t)
    (data : list byte) (size : Z)
    (callback : option (dc_dive_callback_t U)) (u : U) :
  backend (rsp_base d) = reefnet_sensuspro_device_backend ->
  reefnet_sensuspro_extract_dives (Some (Reefnet_sensuspro d)) data size
                                  callback u
  = extract_scan data (Some (rsp_timestamp d)) callback size u.
Proof.
  intros Hb. unfold reefnet_sensuspro_extract_dives, device_is_reefnet_sensuspro.
  simpl. now rewrite Hb.
Qed.

Lemma extract_dives_without_cutoff {serial_t U : Type}
    (abstract : option (@device serial_t))
    (rs : list (list byte)) (cb : dc_dive_callback_t U) (u : U) :
  no_cutoff abstract ->
  Forall (fun r => well_formed_record r = true) rs ->
  always_continues cb ->
  scannable (concat rs) ->
  reefnet_sensuspro_extract_dives abstract (concat rs)
    (Z.of_nat (length (concat rs))) (Some cb) u
  = Some (all_delivered cb rs u).
Proof.
  intros [->|(d & -> & Hb & Ht)] Hwf Hcont Hsize.
  - simpl. apply extract_scan_all; auto using no_cutoff_spares.
  - rewrite extract_dives_reefnet by exact Hb. rewrite Ht.
    apply extract_scan_all; auto using zero_cutoff_spares.
Qed.

(** C10.  [reefnet_sensuspro_extract_dives] accepts a NULL handle: the
    family guard does not reject it (the result is never an
    invalid-argument error), no cutoff applies, and on a buffer of
    well-formed records every record is delivered to the callback,
    whatever its timestamp, and the function returns success. *)
Theorem extract_dives_null_handle {serial_t U : Type} :
  (forall (data : list byte) (size : Z)
          (callback : option (dc_dive_callback_t U)) (u : U)
          (r : extract_result U),
      reefnet_sensuspro_extract_dives (serial_t := serial_t) None data size
                                      callback u = Some r ->
      res_status r <> DC_STATUS_INVALIDARGS)
  /\ (forall (rs : list (list byte)) (cb : dc_dive_callback_t U) (u : U),
         Forall (fun r => well_formed_record r = true) rs ->
         always_continues cb ->
         scannable (concat rs) ->
         reefnet_sensuspro_extract_dives (serial_t := serial_t) None
           (concat rs) (Z.of_nat (length (concat rs))) (Some cb) u
         = Some {| res_status := DC_STATUS_SUCCESS;
                   res_calls := rev (record_views 0 rs);
                   res_userdata :=
                     run_callback cb (concat rs)
                                  (rev (record_views 0 rs)) u |}).
Proof.
  split.
  - intros data size callback u r Hr. simpl in Hr.
    apply extract_loop_status in Hr. destruct Hr as [-> | ->]; discriminate.
  - intros rs cb u Hwf Hcont Hsize.
    apply extract_dives_without_cutoff; auto. now left.
Qed.

Lemma extract_dives_null_handle_witness :
  res_status
    {| res_status := DC_STATUS_SUCCESS;
       res_calls := rev (record_views 0 [dive_100; dive_50]);
       res_userdata :=
         run_callback recorder (concat [dive_100; dive_50])
                      (rev (record_views 0 [dive_100; dive_50])) [] |}
  <> DC_STATUS_INVALIDARGS
  /\ reefnet_sensuspro_extract_dives (serial_t := unit) None
       (concat [dive_100; dive_50]) 27 (Some recorder) []
     = Some {| res_status := DC_STATUS_SUCCESS;
               res_calls :=
                 [ {| dv_data := 13; dv_size := 14;
                      dv_fingerprint := 19; dv_fsize := 4 |};
                   {| dv_data := 0; dv_size := 13;
                      dv_fingerprint := 6; dv_fsize := 4 |} ];
               res_userdata :=
                 [ {| dv_data := 13; dv_size := 14;
                      dv_fingerprint := 19; dv_fsize := 4 |};
                   {| dv_data := 0; dv_size := 13;
                      dv_fingerprint := 6; dv_fsize := 4 |} ] |}.
Proof.
  pose proof (@extract_dives_null_handle unit (list dive_view)) as [Hguard Hall].
  assert (Hrun : reefnet_sensuspro_extract_dives (serial_t := unit) None
                   (concat [dive_100; dive_50]) 27 (Some recorder) []
                 = Some {| res_status := DC_STATUS_SUCCESS;
                           res_calls := rev (record_views 0 [dive_100; dive_50]);
                           res_userdata :=
                             run_callback recorder (concat [dive_100; dive_50])
                               (rev (record_views 0 [dive_100; dive_50])) [] |}).
  { apply (Hall [dive_100; dive_50] recorder []).
    - repeat constructor.
    - intros data v u. simpl. discriminate.
    - unfold scannable. simpl. lia. }
  split.
  - exact (Hguard _ _ _ _ _ Hrun).
  - exact Hrun.
Defined.



(** ** A start marker without its footer *)

Lemma extract_dives_family {serial_t U : Type}
    (abstract : option (@device serial_t)) (data : list byte) (size : Z)
    (callback : option (dc_dive_callback_t U)) (u : U) :
  family_handle abstract ->
  reefnet_sensuspro_extract_dives abstract data size callback u
  = extract_scan data (cutoff_of abstract) callback size u.
Proof.
  intros [->|(d & -> & Hb)]; [reflexivity|].
  now apply extract_dives_reefnet.
Qed.

(** Given a buffer and its size, the extraction returns, with success
    or a data-format error, for every handle it accepts, every callback
    and every content of the buffer. *)
Lemma extract_dives_returns {serial_t U : Type}
    (abstract : option (@device serial_t)) (data : list byte)
    (callback : option (dc_dive_callback_t U)) (u : U) :
  family_handle abstract ->
  Z.of_nat (length data) + 12 < 2 ^ 32 ->
  exists r,
    reefnet_sensuspro_extract_dives abstract data (Z.of_nat (length data))
                                    callback u = Some r
    /\ (res_status r = DC_STATUS_SUCCESS
        \/ res_status r = DC_STATUS_DATAFORMAT).
Proof.
  intros Hfam Hsize. rewrite extract_dives_family by exact Hfam.
  now apply extract_scan_returns.
Qed.

(** C6.  When the scan is about to find a start marker (the header at
    [current - 1]) and no footer lies between that start plus 10 and the
    previous boundary (the end of the buffer for the first marker
    found), the extraction returns a data-format error; the callback
    has been invoked for the dives found before and is not invoked for
    the malformed one. *)
Theorem missing_footer_is_data_format_error {serial_t U : Type}
    (abstract : option (@device serial_t)) (data : list byte) (size : Z)
    (callback : option (dc_dive_callback_t U)) (u : U) (s : scan_state U) :
  family_handle abstract ->
  0 <= size -> size + 12 < 2 ^ 32 ->
  steps data (cutoff_of abstract) callback (scan_init size u) s ->
  0 < current s ->
  memcmp_is0 data (current s - 1) header = Some true ->
  (forall o, current s - 1 + 10 <= o -> o + 2 <= previous s ->
             memcmp_is0 data o footer = Some false) ->
  reefnet_sensuspro_extract_dives abstract data size callback u
  = Some {| res_status := DC_STATUS_DATAFORMAT;
            res_calls := calls s;
            res_userdata := userdata s |}.
Proof.
  intros Hfam Hsize Hmax Hsteps Hcur Hhead Hnone.
  rewrite extract_dives_family by exact Hfam.
  apply returns_scan; [exact Hsize|].
  eapply steps_returns; [exact Hsteps|].
  apply returns_now.
  apply steps_bounds in Hsteps;
    [|simpl; destruct (4 <=? size) eqn:H4; [apply Z.leb_le in H4|]; lia].
  simpl previous in Hsteps.
  unfold extract_step.
  replace (0 <? current s) with true by (symmetry; now apply Z.ltb_lt).
  rewrite Hhead.
  rewrite uint_small by lia.
  rewrite (find_footer_none data (previous s) (Z.to_nat (previous s)));
    try lia; [reflexivity|].
  intros o Ho Ho'. apply Hnone; lia.
Qed.

Lemma missing_footer_is_data_format_error_witness :
  reefnet_sensuspro_extract_dives (serial_t := unit) None
    (torn_dive ++ dive_100) 26 (Some recorder) []
  = Some {| res_status := DC_STATUS_DATAFORMAT;
            res_calls :=
              [ {| dv_data := 13; dv_size := 13;
                   dv_fingerprint := 19; dv_fsize := 4 |} ];
            res_userdata :=
              [ {| dv_data := 13; dv_size := 13;
                   dv_fingerprint := 19; dv_fsize := 4 |} ] |}.
Proof.
  apply (missing_footer_is_data_format_error (serial_t := unit) None
           (torn_dive ++ dive_100) 26 (Some recorder) []
           {| previous := 13; current := 1;
              userdata := [ {| dv_data := 13; dv_size := 13;
                               dv_fingerprint := 19; dv_fsize := 4 |} ];
              calls := [ {| dv_data := 13; dv_size := 13;
                            dv_fingerprint := 19; dv_fsize := 4 |} ] |}).
  - left. reflexivity.
  - lia.
  - lia.
  - apply (scan_after_steps _ _ _ 17). vm_compute. reflexivity.
  - simpl. lia.
  - reflexivity.
  - simpl. intros o Ho Ho'.
    assert (Ho2 : o = 10 \/ o = 11) by lia.
    destruct Ho2 as [-> | ->]; reflexivity.
Defined.

(** ** The empty fingerprint *)

(** C5.  After [set_fingerprint] with an empty fingerprint (size 0) the
    extraction extracts everything.  The cutoff it leaves, zero, never
    stops the scan: on every buffer the extraction does what it does
    with no cutoff at all; and on a buffer of well-formed records the
    callback is invoked for every record, none is held back by the
    cutoff test. *)
Theorem empty_fingerprint_extracts_everything {serial_t U : Type}
    (d : @reefnet_sensuspro_device_t serial_t) (fingerprint : list byte) :
  backend (rsp_base d) = reefnet_sensuspro_device_backend ->
  exists d',
    reefnet_sensuspro_device_set_fingerprint (Some (Reefnet_sensuspro d))
                                             fingerprint 0
    = Some (DC_STATUS_SUCCESS, Some (Reefnet_sensuspro d'))
    /\ (forall (data : list byte) (size : Z)
               (callback : option (dc_dive_callback_t U)) (u : U),
           0 <= size -> size + 12 < 2 ^ 32 ->
           reefnet_sensuspro_extract_dives (Some (Reefnet_sensuspro d'))
             data size callback u
           = reefnet_sensuspro_extract_dives (serial_t := serial_t) None
               data size callback u)
    /\ (forall (rs : list (list byte)) (cb : dc_dive_callback_t U) (u : U),
           Forall (fun r => well_formed_record r = true) rs ->
           always_continues cb ->
           scannable (concat rs) ->
           reefnet_sensuspro_extract_dives (Some (Reefnet_sensuspro d'))
             (concat rs) (Z.of_nat (length (concat rs))) (Some cb) u
           = Some {| res_status := DC_STATUS_SUCCESS;
                     res_calls := rev (record_views 0 rs);
                     res_userdata :=
                       run_callback cb (concat rs)
                                    (rev (record_views 0 rs)) u |}).
Proof.
  intros Hb. exists (rsp_set_timestamp d 0). split; [|split].
  - unfold reefnet_sensuspro_device_set_fingerprint,
      device_is_reefnet_sensuspro. simpl. now rewrite Hb.
  - intros data size callback u Hsize Hmax.
    rewrite extract_dives_reefnet by exact Hb. simpl rsp_timestamp.
    apply (zero_cutoff_scan data callback size); lia.
  - intros rs cb u Hwf Hcont Hsize.
    apply extract_dives_without_cutoff; auto.
    right. exists (rsp_set_timestamp d 0). repeat split. exact Hb.
Qed.

Lemma empty_fingerprint_extracts_everything_witness :
  exists d',
    reefnet_sensuspro_device_set_fingerprint
      (Some (Reefnet_sensuspro sample_reefnet)) [] 0
    = Some (DC_STATUS_SUCCESS, Some (Reefnet_sensuspro d'))
    /\ reefnet_sensuspro_extract_dives (Some (Reefnet_sensuspro d'))
         (concat [dive_50; dive_100]) 27 (Some recorder) []
       = Some (all_delivered recorder [dive_50; dive_100] []).
Proof.
  destruct (@empty_fingerprint_extracts_everything unit (list dive_view)
              sample_reefnet [] eq_refl) as (d' & Hset & _ & Hall).
  exists d'. split; [exact Hset|].
  apply (Hall [dive_50; dive_100] recorder []).
  - repeat constructor.
  - intros data v u. simpl. discriminate.
  - unfold scannable. simpl. lia.
Defined.

(** ** The example scenario *)

(** C4, as stated, fails: on the example buffer (the timestamp-100
    record at offset 0, the timestamp-50 record after it at offset 17)
    the callback is given the record at offset 17 first, not the
    timestamp-100 record. *)
Lemma example_order_counterexample :
  reefnet_sensuspro_extract_dives (serial_t := unit) None example_buffer 34
    (Some recorder) []
  = Some {| res_status := DC_STATUS_SUCCESS;
            res_calls := [view_at 17 17; view_at 0 17];
            res_userdata := [view_at 17 17; view_at 0 17] |}
  /\ load example_buffer 10 4 = Some stamp_100
  /\ load example_buffer 27 4 = Some stamp_50
  /\ ~ (exists r,
          reefnet_sensuspro_extract_dives (serial_t := unit) None
            example_buffer 34 (Some recorder) [] = Some r
          /\ res_calls r = [view_at 0 17; view_at 17 17]).
Proof.
  assert (Hrun : reefnet_sensuspro_extract_dives (serial_t := unit) None
                   example_buffer 34 (Some recorder) []
                 = Some {| res_status := DC_STATUS_SUCCESS;
                           res_calls := [view_at 17 17; view_at 0 17];
                           res_userdata := [view_at 17 17; view_at 0 17] |})
    by (vm_compute; reflexivity).
  repeat split; try exact Hrun; try reflexivity.
  intros (r & Hr & Hcalls). rewrite Hrun in Hr.
  injection Hr as <-. simpl in Hcalls. discriminate.
Qed.

(** Two records, one after the other. *)
Lemma extract_two_records {serial_t U : Type}
    (abstract : option (@device serial_t)) (first second : list byte)
    (cb : dc_dive_callback_t U) (u : U) :
  well_formed_record first = true ->
  well_formed_record second = true ->
  no_cutoff abstract ->
  always_continues cb ->
  scannable (first ++ second) ->
  reefnet_sensuspro_extract_dives abstract (first ++ second)
    (Z.of_nat (length (first ++ second))) (Some cb) u
  = Some {| res_status := DC_STATUS_SUCCESS;
            res_calls :=
              [ view_at (Z.of_nat (length first)) (Z.of_nat (length second));
                view_at 0 (Z.of_nat (length first)) ];
            res_userdata :=
              run_callback cb (first ++ second)
                [ view_at (Z.of_nat (length first))
                          (Z.of_nat (length second));
                  view_at 0 (Z.of_nat (length first)) ] u |}.
Proof.
  intros Hwf1 Hwf2 Hno Hcont Hsize.
  pose proof (extract_dives_without_cutoff abstract [first; second] cb u
                Hno) as Hall.
  unfold all_delivered in Hall. simpl in Hall. rewrite app_nil_r in Hall.
  apply Hall; auto.
Qed.

(** C4, amended.  For the buffer made of the timestamp-100 record
    directly followed by the timestamp-50 record, the extraction with no
    cutoff reports the record at the higher offset first, the
    timestamp-50 record, and then the timestamp-100 record. *)
Theorem example_reports_higher_offset_first {serial_t U : Type}
    (abstract : option (@device serial_t))
    (six1 pad1 six2 pad2 : list byte) (cb : dc_dive_callback_t U) (u : U) :
  let first := example_record six1 stamp_100 pad1 in
  let second := example_record six2 stamp_50 pad2 in
  length six1 = 6%nat -> length six2 = 6%nat ->
  well_formed_record first = true ->
  well_formed_record second = true ->
  no_cutoff abstract ->
  always_continues cb ->
  scannable (first ++ second) ->
  reefnet_sensuspro_extract_dives abstract (first ++ second)
    (Z.of_nat (length (first ++ second))) (Some cb) u
  = Some {| res_status := DC_STATUS_SUCCESS;
            res_calls :=
              [ view_at (Z.of_nat (length first)) (Z.of_nat (length second));
                view_at 0 (Z.of_nat (length first)) ];
            res_userdata :=
              run_callback cb (first ++ second)
                [ view_at (Z.of_nat (length first))
                          (Z.of_nat (length second));
                  view_at 0 (Z.of_nat (length first)) ] u |}
  /\ load (first ++ second) 10 4 = Some stamp_100
  /\ load (first ++ second) (Z.of_nat (length first) + 10) 4 = Some stamp_50.
Proof.
  intros first second Hsix1 Hsix2 Hwf1 Hwf2 Hno Hcont Hsize.
  split; [|split].
  - now apply extract_two_records.
  - change 10 with (Z.of_nat 10). rewrite load_first.
    + unfold first, example_record.
      destruct six1 as [|a1 [|a2 [|a3 [|a4 [|a5 [|a6 [|a7 l]]]]]]];
        try discriminate.
      reflexivity.
    + unfold first, example_record. rewrite !length_app. simpl. lia.
  - change 10 with (Z.of_nat 10).
    pose proof (load_inside first second [] 10 4) as Hload.
    rewrite app_nil_r in Hload. rewrite Hload.
    + unfold second, example_record.
      destruct six2 as [|a1 [|a2 [|a3 [|a4 [|a5 [|a6 [|a7 l]]]]]]];
        try discriminate.
      reflexivity.
    + unfold second, example_record. rewrite !length_app. simpl. lia.
Qed.

Lemma example_reports_higher_offset_first_witness :
  reefnet_sensuspro_extract_dives (serial_t := unit) None example_buffer 34
    (Some recorder) []
  = Some {| res_status := DC_STATUS_SUCCESS;
            res_calls := [view_at 17 17; view_at 0 17];
            res_userdata := [view_at 17 17; view_at 0 17] |}
  /\ load example_buffer 10 4 = Some stamp_100
  /\ load example_buffer 27 4 = Some stamp_50.
Proof.
  apply (example_reports_higher_offset_first (serial_t := unit) None
           example_six example_pad example_six example_pad recorder []).
  - reflexivity.
  - reflexivity.
  - reflexivity.
  - reflexivity.
  - left. reflexivity.
  - intros data v u. simpl. discriminate.
  - unfold scannable. simpl. lia.
Defined.

(** ** Event flags *)

(** C9.  Packing the event flags (begin in bit 0, end in bit 1, the
    severity in bits 2 to 4, the annotation type in bits 5 to 7) into
    one word and unpacking the word gives back every component, for
    every combination of the two booleans, the five severities and the
    seven annotation types. *)
Theorem event_flags_round_trip (f : event_flags) :
  unpack_flags (pack_flags f) = Some f
  /\ 0 <= pack_flags f < 2 ^ 8
  /\ Z.testbit (pack_flags f) 0 = ef_begin f
  /\ Z.testbit (pack_flags f) 1 = ef_end f.
Proof.
  destruct f as [[|] [|] [| | | |] [| | | | | |]];
    vm_compute; repeat split; intros; discriminate.
Qed.

(** ** The packet exchange of the Vyper2 *)

Lemma lxor_byte (a b : Z) :
  0 <= a < 2 ^ 8 -> 0 <= b < 2 ^ 8 -> 0 <= Z.lxor a b < 2 ^ 8.
Proof.
  intros Ha Hb. split; [apply Z.lxor_nonneg; lia|].
  destruct (Z.eq_dec (Z.lxor a b) 0) as [->|Hne]; [lia|].
  apply Z.log2_lt_pow2; [pose proof (Z.lxor_nonneg a b); lia|].
  pose proof (Z.log2_lxor a b ltac:(lia) ltac:(lia)) as Hlog.
  assert (Hla : Z.log2 a < 8).
  { destruct (Z.eq_dec a 0) as [->|Ha0]; [simpl; lia|].
    apply Z.log2_lt_pow2; lia. }
  assert (Hlb : Z.log2 b < 8).
  { destruct (Z.eq_dec b 0) as [->|Hb0]; [simpl; lia|].
    apply Z.log2_lt_pow2; lia. }
  lia.
Qed.

Lemma checksum_xor_uint8_byte (data : list byte) :
  forall init, 0 <= init < 2 ^ 8 ->
               0 <= checksum_xor_uint8 data init < 2 ^ 8.
Proof.
  unfold checksum_xor_uint8.
  induction data as [|b data IH]; intros init Hinit; simpl; [exact Hinit|].
  apply IH. apply lxor_byte; [exact Hinit|].
  pose proof (byte_val_range b). lia.
Qed.

Lemma array_uint16_be_range (data : list byte) (off len : Z) :
  array_uint16_be data off = Some len -> 0 <= len < 2 ^ 16.
Proof.
  unfold array_uint16_be.
  destruct (load data off 2) as [[|b0 [|b1 [|b2 l]]]|]; try discriminate.
  intros Heq.
  assert (Hlen : len = Z.shiftl (byte_val b0) 8 + byte_val b1) by congruence.
  rewrite Hlen, Z.shiftl_mul_pow2 by lia.
  pose proof (byte_val_range b0). pose proof (byte_val_range b1). lia.
Qed.

Section Packet.
Context {serial_t : Type} `{Serial serial_t}.

(** C7.  If the cancellation flag of the handle is set when the
    exchange begins, the packet function returns the cancelled status
    at once: the handle, with the port it owns, and the answer buffer
    are returned as they were, so no byte of the command has been
    written and no line of the transport has been toggled. *)
Theorem packet_cancelled_before_sending (dev : device)
    (command : list byte) (csize : Z) (answer : list byte) (asize size : Z) :
  cancel (base_of dev) = true ->
  suunto_vyper2_device_packet (Some dev) command csize answer asize size
  = Some (DC_STATUS_CANCELLED, Some dev, answer).
Proof.
  intros Hc. unfold suunto_vyper2_device_packet, device_is_cancelled.
  now rewrite Hc.
Qed.

(** C3.  In one packet exchange, with sizes below [UINT_MAX]: a write
    or a read that returns -1 gives an I/O error and one that returns
    another count than the one required gives a timeout; once both have
    transferred the counts required, a first byte of the answer that
    differs from the first byte of the command, a big-endian length at
    offset 1 that is not the size of the answer less 4, and a last byte
    that is not the XOR of the bytes before it each give a protocol
    error, never an I/O error or a timeout. *)
Theorem packet_failure_classes (dev : suunto_vyper2_device_t)
    (command : list byte) (csize : Z) (answer : list byte) (asize size : Z) :
  cancel (vy2_base dev) = false ->
  0 <= csize < 2 ^ 32 - 1 ->
  0 <= asize < 2 ^ 32 - 1 ->
  let sent :=
    serial_write (serial_set_rts (serial_sleep (vy2_port dev) 600) 1)
                 command csize in
  let received := serial_read (serial_set_rts (fst sent) 0) asize in
  let n := snd sent in
  let m := snd received in
  let answer' := store answer 0 asize (snd (fst received)) in
  let status := exchange_status dev command csize answer asize size in
  (n = -1 -> status = Some DC_STATUS_IO)
  /\ (n <> -1 -> uint n <> csize -> status = Some DC_STATUS_TIMEOUT)
  /\ (uint n = csize -> m = -1 -> status = Some DC_STATUS_IO)
  /\ (uint n = csize -> m <> -1 -> uint m <> asize ->
      status = Some DC_STATUS_TIMEOUT)
  /\ (uint n = csize -> uint m = asize ->
      forall a0 c0,
        byte_at answer' 0 = Some a0 -> byte_at command 0 = Some c0 ->
        (a0 <> c0 -> status = Some DC_STATUS_PROTOCOL)
        /\ (a0 = c0 ->
            forall len,
              array_uint16_be answer' 1 = Some len ->
              (len + 4 <> asize -> status = Some DC_STATUS_PROTOCOL)
              /\ (len + 4 = asize ->
                  forall same crc sum,
                    memcmp2_is0 command 3 answer' 3
                                (uint (uint (asize - size) - 4)) = Some same ->
                    byte_at answer' (asize - 1) = Some crc ->
                    load answer' 0 (Z.to_nat (asize - 1)) = Some sum ->
                    crc <> checksum_xor_uint8 sum 0 ->
                    status = Some DC_STATUS_PROTOCOL))).
Proof.
  intros Hc Hcsize Hasize sent received n m answer' status.
  assert (Hminus : uint (-1) = 2 ^ 32 - 1) by reflexivity.
  assert (Hstatus :
    status =
    if negb (uint n =? csize) then Some (EXITCODE n)
    else if negb (uint m =? asize) then Some (EXITCODE m)
    else
      match byte_at answer' 0, byte_at command 0 with
      | Some a0, Some c0 =>
          if negb (a0 =? c0) then Some DC_STATUS_PROTOCOL
          else
            match array_uint16_be answer' 1 with
            | Some len =>
                if negb (uint (len + 4) =? asize)
                then Some DC_STATUS_PROTOCOL
                else
                  match memcmp2_is0 command 3 answer' 3
                                    (uint (uint (asize - size) - 4)) with
                  | Some same =>
                      if negb same then Some DC_STATUS_PROTOCOL
                      else
                        match byte_at answer' (uint (asize - 1)),
                              load answer' 0 (Z.to_nat (uint (asize - 1))) with
                        | Some crc, Some sum =>
                            if negb (crc =? checksum_xor_uint8 sum 0 mod 2 ^ 8)
                            then Some DC_STATUS_PROTOCOL
                            else Some DC_STATUS_SUCCESS
                        | _, _ => None
                        end
                  | None => None
                  end
            | None => None
            end
      | _, _ => None
      end).
  { unfold status, exchange_status, suunto_vyper2_device_packet,
      device_is_cancelled. simpl base_of. rewrite Hc. simpl as_suunto_vyper2.
    unfold bind, vy2_line, vy2_write, vy2_read, modify, ret, defined.
    cbn [vy2_port vy2_set_port].
    subst n m answer'. fold sent.
    destruct sent as [p2 n'] eqn:Hsent. cbn [fst snd] in *.
    destruct (negb (uint n' =? csize)); [reflexivity|].
    cbn [vy2_port vy2_set_port].
    fold received. destruct received as [[p4 rx] m'] eqn:Hrecv.
    cbn [fst snd].
    destruct (negb (uint m' =? asize)); [reflexivity|].
    destruct (byte_at (store answer 0 asize rx) 0) as [a0|]; [|reflexivity].
    destruct (byte_at command 0) as [c0|]; [|reflexivity].
    destruct (negb (a0 =? c0)); [reflexivity|].
    destruct (array_uint16_be (store answer 0 asize rx) 1) as [len|];
      [|reflexivity].
    destruct (negb (uint (len + 4) =? asize)); [reflexivity|].
    destruct (memcmp2_is0 _ _ _ _ _) as [same|]; [|reflexivity].
    destruct (negb same); [reflexivity|].
    destruct (byte_at _ (uint (asize - 1))) as [crc|]; [|reflexivity].
    destruct (load _ 0 _) as [sum|]; [|reflexivity].
    destruct (negb (crc =? _)); reflexivity. }
  clearbody status n m answer'. subst status.
  split; [|split; [|split; [|split]]].
  - intros ->. rewrite Hminus.
    replace (2 ^ 32 - 1 =? csize) with false by (symmetry; apply Z.eqb_neq; lia).
    reflexivity.
  - intros Hn1 Hn. apply Z.eqb_neq in Hn. rewrite Hn. cbn [negb].
    unfold EXITCODE. apply Z.eqb_neq in Hn1. now rewrite Hn1.
  - intros Hn ->. apply Z.eqb_eq in Hn. rewrite Hn. cbn [negb]. rewrite Hminus.
    replace (2 ^ 32 - 1 =? asize) with false by (symmetry; apply Z.eqb_neq; lia).
    reflexivity.
  - intros Hn Hm1 Hm. apply Z.eqb_eq in Hn. rewrite Hn. cbn [negb].
    apply Z.eqb_neq in Hm. rewrite Hm. cbn [negb].
    unfold EXITCODE. apply Z.eqb_neq in Hm1. now rewrite Hm1.
  - intros Hn Hm a0 c0 Ha0 Hc0.
    apply Z.eqb_eq in Hn, Hm. rewrite Hn, Hm. cbn [negb]. rewrite Ha0, Hc0.
    split.
    + intros Hne. apply Z.eqb_neq in Hne. now rewrite Hne.
    + intros Heq len Hlen. apply Z.eqb_eq in Heq. rewrite Heq. cbn [negb].
      rewrite Hlen.
      pose proof (array_uint16_be_range _ _ _ Hlen) as Hrange.
      rewrite (uint_small (len + 4)) by lia.
      split.
      * intros Hne. apply Z.eqb_neq in Hne. now rewrite Hne.
      * intros Hsz same crc sum Hsame Hcrc Hsum Hne.
        pose proof Hsz as Hsz'. apply Z.eqb_eq in Hsz'. rewrite Hsz'.
        cbn [negb]. rewrite Hsame.
        destruct same; [|reflexivity]. cbn [negb].
        rewrite (uint_small (asize - 1)) by lia.
        rewrite Hcrc, Hsum.
        pose proof (checksum_xor_uint8_byte sum 0 ltac:(lia)).
        rewrite Z.mod_small by lia.
        apply Z.eqb_neq in Hne. now rewrite Hne.
Qed.
End Packet.

Lemma packet_cancelled_before_sending_witness :
  exists d,
    suunto_vyper2_device_packet
      (Some (Suunto_vyper2 (vyper2_on (quiet_wire None 7 sample_reply) true)))
      sample_command 7 (repeat x00 7) 7 0
    = Some (DC_STATUS_CANCELLED, Some (Suunto_vyper2 d), repeat x00 7)
    /\ wire_log (vy2_port d) = [].
Proof.
  exists (vyper2_on (quiet_wire None 7 sample_reply) true).
  split; [|reflexivity].
  apply (packet_cancelled_before_sending
           (Suunto_vyper2 (vyper2_on (quiet_wire None 7 sample_reply) true))).
  reflexivity.
Defined.

(** The same exchange on a handle that is not cancelled goes through
    the transport. *)
Example packet_exchange_goes_through :
  suunto_vyper2_device_packet
    (Some (Suunto_vyper2 (vyper2_on (quiet_wire None 7 sample_reply) false)))
    sample_command 7 (repeat x00 7) 7 0
  = Some (DC_STATUS_SUCCESS,
          Some (Suunto_vyper2
                  (vyper2_on
                     {| wire_log := [Call_sleep 600; Call_set_rts 1;
                                     Call_write sample_command 7;
                                     Call_set_rts 0; Call_read 7];
                        wire_write := None; wire_read := 7;
                        wire_reply := sample_reply |} false)),
          sample_reply).
Proof. reflexivity. Qed.

Lemma packet_failure_classes_witness :
  let run := fun w =>
    exchange_status (vyper2_on w false) sample_command 7 (repeat x00 7) 7 0 in
  run (quiet_wire (Some (-1)) 7 sample_reply) = Some DC_STATUS_IO
  /\ run (quiet_wire (Some 3) 7 sample_reply) = Some DC_STATUS_TIMEOUT
  /\ run (quiet_wire None (-1) sample_reply) = Some DC_STATUS_IO
  /\ run (quiet_wire None 5 sample_reply) = Some DC_STATUS_TIMEOUT
  /\ run (quiet_wire None 7 [x06; x00; x03; x01; x02; x10; x16])
     = Some DC_STATUS_PROTOCOL
  /\ run (quiet_wire None 7 [x05; x00; x04; x01; x02; x10; x12])
     = Some DC_STATUS_PROTOCOL
  /\ run (quiet_wire None 7 [x05; x00; x03; x01; x02; x10; xff])
     = Some DC_STATUS_PROTOCOL.
Proof.
  intros run.
  assert (Hc : forall w, cancel (vy2_base (vyper2_on w false)) = false)
    by reflexivity.
  assert (H7 : 0 <= 7 < 2 ^ 32 - 1) by lia.
  split; [|split; [|split; [|split; [|split; [|split]]]]].
  - destruct (packet_failure_classes
                (vyper2_on (quiet_wire (Some (-1)) 7 sample_reply) false)
                sample_command 7 (repeat x00 7) 7 0 (Hc _) H7 H7)
      as (Hio & _).
    apply Hio. reflexivity.
  - destruct (packet_failure_classes
                (vyper2_on (quiet_wire (Some 3) 7 sample_reply) false)
                sample_command 7 (repeat x00 7) 7 0 (Hc _) H7 H7)
      as (_ & Hto & _).
    apply Hto; vm_compute; discriminate.
  - destruct (packet_failure_classes
                (vyper2_on (quiet_wire None (-1) sample_reply) false)
                sample_command 7 (repeat x00 7) 7 0 (Hc _) H7 H7)
      as (_ & _ & Hio & _).
    apply Hio; reflexivity.
  - destruct (packet_failure_classes
                (vyper2_on (quiet_wire None 5 sample_reply) false)
                sample_command 7 (repeat x00 7) 7 0 (Hc _) H7 H7)
      as (_ & _ & _ & Hto & _).
    apply Hto; [reflexivity|vm_compute; discriminate..].
  - destruct (packet_failure_classes
                (vyper2_on (quiet_wire None 7
                              [x06; x00; x03; x01; x02; x10; x16]) false)
                sample_command 7 (repeat x00 7) 7 0 (Hc _) H7 H7)
      as (_ & _ & _ & _ & Hv).
    destruct (Hv eq_refl eq_refl 6 5 eq_refl eq_refl) as (Hhead & _).
    apply Hhead. discriminate.
  - destruct (packet_failure_classes
                (vyper2_on (quiet_wire None 7
                              [x05; x00; x04; x01; x02; x10; x12]) false)
                sample_command 7 (repeat x00 7) 7 0 (Hc _) H7 H7)
      as (_ & _ & _ & _ & Hv).
    destruct (Hv eq_refl eq_refl 5 5 eq_refl eq_refl) as (_ & Hlen).
    destruct (Hlen eq_refl 4 eq_refl) as (Hbad & _).
    apply Hbad. discriminate.
  - destruct (packet_failure_classes
                (vyper2_on (quiet_wire None 7
                              [x05; x00; x03; x01; x02; x10; xff]) false)
                sample_command 7 (repeat x00 7) 7 0 (Hc _) H7 H7)
      as (_ & _ & _ & _ & Hv).
    destruct (Hv eq_refl eq_refl 5 5 eq_refl eq_refl) as (_ & Hlen).
    destruct (Hlen eq_refl 3 eq_refl) as (_ & Hsum).
    apply (Hsum eq_refl true 255 [x05; x00; x03; x01; x02; x10]);
      try reflexivity.
    vm_compute. discriminate.
Defined.

(** ** The family guard of the device operations *)

Lemma foreign_not_reefnet_sensuspro {serial_t : Type}
    (abstract : option (@device serial_t)) :
  foreign_to reefnet_sensuspro_device_backend abstract ->
  device_is_reefnet_sensuspro abstract = false.
Proof.
  intros [->|(dev & -> & Hb)]; [reflexivity|]. simpl.
  destruct (backend (base_of dev)); try reflexivity. now elim Hb.
Qed.

Lemma foreign_not_suunto_vyper2 {serial_t : Type}
    (abstract : option (@device serial_t)) :
  foreign_to suunto_vyper2_device_backend abstract ->
  device_is_suunto_vyper2 abstract = false.
Proof.
  intros [->|(dev & -> & Hb)]; [reflexivity|]. simpl.
  destruct (backend (base_of dev)); try reflexivity. now elim Hb.
Qed.

(** C8, as stated, fails for the packet operation: given a handle of
    another family whose cancellation flag is set, it returns the
    cancelled status, not an invalid-argument error. *)
Lemma packet_guard_counterexample :
  foreign_to suunto_vyper2_device_backend (Some cancelled_reefnet)
  /\ suunto_vyper2_device_packet (Some cancelled_reefnet) sample_command 7
       (repeat x00 7) 7 0
     = Some (DC_STATUS_CANCELLED, Some cancelled_reefnet, repeat x00 7)
  /\ ~ (exists handle answer,
          suunto_vyper2_device_packet (Some cancelled_reefnet)
            sample_command 7 (repeat x00 7) 7 0
          = Some (DC_STATUS_INVALIDARGS, handle, answer)).
Proof.
  split; [|split].
  - right. exists cancelled_reefnet. split; [reflexivity|discriminate].
  - reflexivity.
  - intros (handle & answer & Hr). vm_compute in Hr. discriminate.
Qed.

Section Guards.
Context {serial_t : Type} `{Serial serial_t}.
Variable REEFNET_SENSUSPRO_HANDSHAKE_SIZE : Z.
Variable REEFNET_SENSUSPRO_MEMORY_SIZE : Z.
Variable checksum_crc_ccitt_uint16 : list byte -> Z.
Variable dc_datetime_now : Z.
Variable can_allocate : Z -> bool.
Variable suunto_common2_device_reset_maxdepth :
  option (@device serial_t) -> option (dc_status_t * option (@device serial_t)).

(** C8, amended.  Each device operation that checks the family of its
    handle (set_fingerprint, set_timestamp, get_handshake, dump,
    foreach, close and write_interval of the Sensus Pro; close and
    reset_maxdepth of the Vyper2), invoked on a handle that is NULL or
    that refers to another backend table than its own, returns an
    invalid-argument error and leaves the handle and the caller's
    buffers as they were.  The packet operation makes no such check: on
    a cancelled handle of any family it returns the cancelled status. *)
Theorem foreign_handle_is_invalid_argument
    (abstract : option (@device serial_t)) :
  (foreign_to reefnet_sensuspro_device_backend abstract ->
   (forall data size,
       reefnet_sensuspro_device_set_fingerprint abstract data size
       = Some (DC_STATUS_INVALIDARGS, abstract))
   /\ (forall timestamp,
          reefnet_sensuspro_device_set_timestamp abstract timestamp
          = Some (DC_STATUS_INVALIDARGS, abstract))
   /\ (forall data size,
          reefnet_sensuspro_device_get_handshake
            REEFNET_SENSUSPRO_HANDSHAKE_SIZE abstract data size
          = Some (DC_STATUS_INVALIDARGS, abstract, data))
   /\ (forall buffer,
          reefnet_sensuspro_device_dump
            REEFNET_SENSUSPRO_HANDSHAKE_SIZE REEFNET_SENSUSPRO_MEMORY_SIZE
            checksum_crc_ccitt_uint16 dc_datetime_now can_allocate
            abstract buffer
          = Some (DC_STATUS_INVALIDARGS, abstract, buffer))
   /\ (forall (U : Type) (callback : option (dc_dive_callback_t U)) (u : U),
          reefnet_sensuspro_device_foreach
            REEFNET_SENSUSPRO_HANDSHAKE_SIZE REEFNET_SENSUSPRO_MEMORY_SIZE
            checksum_crc_ccitt_uint16 dc_datetime_now can_allocate
            abstract callback u
          = Some (DC_STATUS_INVALIDARGS, abstract, [], u))
   /\ reefnet_sensuspro_device_close abstract
      = Some (DC_STATUS_INVALIDARGS, abstract)
   /\ (forall interval,
          reefnet_sensuspro_device_write_interval
            REEFNET_SENSUSPRO_HANDSHAKE_SIZE checksum_crc_ccitt_uint16
            dc_datetime_now abstract interval
          = Some (DC_STATUS_INVALIDARGS, abstract)))
  /\ (foreign_to suunto_vyper2_device_backend abstract ->
      suunto_vyper2_device_close abstract
      = Some (DC_STATUS_INVALIDARGS, abstract)
      /\ suunto_vyper2_device_reset_maxdepth
           suunto_common2_device_reset_maxdepth abstract
         = Some (DC_STATUS_INVALIDARGS, abstract))
  /\ (forall dev command csize answer asize size,
         abstract = Some dev -> cancel (base_of dev) = true ->
         suunto_vyper2_device_packet abstract command csize answer asize size
         = Some (DC_STATUS_CANCELLED, abstract, answer)).
Proof.
  split; [|split].
  - intros Hf. apply foreign_not_reefnet_sensuspro in Hf.
    unfold reefnet_sensuspro_device_set_fingerprint,
      reefnet_sensuspro_device_set_timestamp,
      reefnet_sensuspro_device_get_handshake,
      reefnet_sensuspro_device_dump,
      reefnet_sensuspro_device_foreach,
      reefnet_sensuspro_device_close,
      reefnet_sensuspro_device_write_interval.
    rewrite Hf. cbn [negb]. repeat split.
  - intros Hf. apply foreign_not_suunto_vyper2 in Hf.
    unfold suunto_vyper2_device_close, suunto_vyper2_device_reset_maxdepth.
    rewrite Hf. cbn [negb]. split; reflexivity.
  - intros dev command csize answer asize size -> Hc.
    unfold suunto_vyper2_device_packet, device_is_cancelled. now rewrite Hc.
Qed.
End Guards.

Lemma foreign_handle_is_invalid_argument_witness :
  (reefnet_sensuspro_device_set_timestamp (Some idle_vyper2) 5
   = Some (DC_STATUS_INVALIDARGS, Some idle_vyper2)
   /\ reefnet_sensuspro_device_close (Some idle_vyper2)
      = Some (DC_STATUS_INVALIDARGS, Some idle_vyper2))
  /\ (suunto_vyper2_device_close (Some cancelled_reefnet)
      = Some (DC_STATUS_INVALIDARGS, Some cancelled_reefnet)
      /\ suunto_vyper2_device_close (serial_t := wire) None
         = Some (DC_STATUS_INVALIDARGS, None)).
Proof.
  assert (Hv : foreign_to reefnet_sensuspro_device_backend (Some idle_vyper2)).
  { right. exists idle_vyper2. split; [reflexivity|discriminate]. }
  assert (Hr : foreign_to suunto_vyper2_device_backend (Some cancelled_reefnet)).
  { right. exists cancelled_reefnet. split; [reflexivity|discriminate]. }
  assert (Hn : foreign_to (serial_t := wire) suunto_vyper2_device_backend None).
  { left. reflexivity. }
  split; [split|split].
  - destruct (foreign_handle_is_invalid_argument 10 56320 (fun _ => 0) 0
                (fun _ => true) (fun _ => None) (Some idle_vyper2))
      as (Hreef & _).
    destruct (Hreef Hv) as (_ & Hts & _). apply Hts.
  - destruct (foreign_handle_is_invalid_argument 10 56320 (fun _ => 0) 0
                (fun _ => true) (fun _ => None) (Some idle_vyper2))
      as (Hreef & _).
    destruct (Hreef Hv) as (_ & _ & _ & _ & _ & Hclose & _). apply Hclose.
  - destruct (foreign_handle_is_invalid_argument 10 56320 (fun _ => 0) 0
                (fun _ => true) (fun _ => None) (Some cancelled_reefnet))
      as (_ & Hvy & _).
    destruct (Hvy Hr) as (Hclose & _). apply Hclose.
  - destruct (foreign_handle_is_invalid_argument (serial_t := wire)
                10 56320 (fun _ => 0) 0
                (fun _ => true) (fun _ => None) None)
      as (_ & Hvy & _).
    destruct (Hvy Hn) as (Hclose & _). apply Hclose.
Defined.

(** * Further properties

    What the code shows beyond the statements of the specification: the
    extraction on buffers that are not a run of well-formed records,
    the link to the Sensus Pro (handshake, commands, dump, [foreach],
    [open] and [close]) and the packet exchange of the Vyper2, each for
    every transport. *)

(** ** The dives the scan delivers, whatever the buffer holds *)

Lemma find_footer_first (data : list byte) (prev : Z) (fuel : nat) :
  forall (offset o : Z),
    0 <= offset -> offset + 2 < 2 ^ 32 -> prev + 2 < 2 ^ 32 ->
    find_footer fuel data prev offset = Some (Some o) ->
    memcmp_is0 data o footer = Some true
    /\ forall q, offset <= q -> q < o -> memcmp_is0 data q footer = Some false.
Proof.
  induction fuel as [|fuel IH]; intros offset o H0 Hoff Hprev; simpl;
    [discriminate|].
  rewrite uint_small by lia.
  destruct (offset + 2 <=? prev) eqn:Hle; [|discriminate].
  apply Z.leb_le in Hle.
  destruct (memcmp_is0 data offset footer) as [[|]|] eqn:Hcmp;
    [| |discriminate].
  - intros Heq. assert (o = offset) by congruence. subst o.
    split; [exact Hcmp|]. intros q Hq Hq'. lia.
  - rewrite uint_small by lia. intros Hf.
    destruct (IH (offset + 1) o ltac:(lia) ltac:(lia) Hprev Hf)
      as [Hfound Hnone].
    split; [exact Hfound|].
    intros q Hq Hq'. destruct (Z.eq_dec q offset) as [->|Hne]; [exact Hcmp|].
    apply Hnone; lia.
Qed.

Lemma marked_dive_bound (data : list byte) (cutoff : option Z)
    (b b' : Z) (v : dive_view) :
  marked_dive data cutoff b v -> b <= b' -> marked_dive data cutoff b' v.
Proof.
  unfold marked_dive. intros (H0 & H12 & Hb & Hrest) Hle.
  repeat split; try tauto; lia.
Qed.

Lemma descending_snoc (data : list byte) (cutoff : option Z)
    (views : list dive_view) (v : dive_view) :
  forall bound,
    descending data cutoff bound views ->
    marked_dive data cutoff (low_end bound views) v ->
    descending data cutoff bound (views ++ [v])
    /\ low_end bound (views ++ [v]) = dv_data v.
Proof.
  induction views as [|w views IH]; intros bound Hd Hv; simpl in *.
  - split; [split; [exact Hv|exact I]|reflexivity].
  - destruct Hd as [Hw Hd]. destruct (IH _ Hd Hv) as [Hd' Hl].
    split; [split; assumption|exact Hl].
Qed.

Section DeliveredDives.
Context {U : Type}.
Variable data : list byte.
Variable cutoff : option Z.
Variable callback : option (dc_dive_callback_t U).

(** What one iteration adds to the calls. *)
Lemma extract_step_call (s : scan_state U)
    (out : scan_state U + extract_result U) :
  extract_step data cutoff callback s = Some out ->
  0 <= current s <= previous s -> previous s + 12 < 2 ^ 32 ->
  match out with
  | inl s' =>
      (calls s' = calls s /\ previous s' <= previous s)
      \/ exists v, calls s' = calls s ++ [v]
                   /\ marked_dive data cutoff (previous s) v
                   /\ previous s' = dv_data v
  | inr r =>
      res_calls r = calls s
      \/ exists v, res_calls r = calls s ++ [v]
                   /\ marked_dive data cutoff (previous s) v
  end.
Proof.
  intros Hstep Hb Hmax. revert Hstep. unfold extract_step.
  destruct (0 <? current s) eqn:Hpos;
    [|intros Heq; injection Heq as <-; now left].
  apply Z.ltb_lt in Hpos.
  destruct (memcmp_is0 data (current s - 1) header) as [[|]|] eqn:Hhead;
    [|intros Heq; injection Heq as <-; left; simpl; split; [reflexivity|lia]
     |discriminate].
  rewrite uint_small by lia.
  destruct (find_footer _ _ _ _) as [[offset|]|] eqn:Hfind;
    [|intros Heq; injection Heq as <-; now left|discriminate].
  destruct (array_uint32_le data (current s - 1 + 6)) as [ts|] eqn:Hts;
    [|discriminate].
  destruct (match cutoff with Some t => ts <=? t | None => false end) eqn:Hcut;
    [intros Heq; injection Heq as <-; now left|].
  assert (Hc10 : 0 <= current s - 1 + 10) by lia.
  assert (Hc12 : current s - 1 + 10 + 2 < 2 ^ 32) by lia.
  assert (Hp2 : previous s + 2 < 2 ^ 32) by lia.
  pose proof (find_footer_found _ _ _ _ _ Hc10 Hc12 Hp2 Hfind) as [Hlo Hhi].
  pose proof (find_footer_first _ _ _ _ _ Hc10 Hc12 Hp2 Hfind)
    as [Hfoot Hfirst].
  assert (Hmark : marked_dive data cutoff (previous s)
                    {| dv_data := current s - 1;
                       dv_size := uint (uint (offset + 2) - (current s - 1));
                       dv_fingerprint := current s - 1 + 6;
                       dv_fsize := 4 |}).
  { rewrite (uint_small (offset + 2)) by lia.
    rewrite uint_small by lia.
    unfold marked_dive. simpl.
    replace (current s - 1 + (offset + 2 - (current s - 1)) - 2)
      with offset by lia.
    repeat split; try lia; try assumption.
    - intros q Hq Hq'. apply Hfirst; lia.
    - exists ts. split; [exact Hts|].
      intros t ->. apply Z.leb_gt in Hcut. exact Hcut. }
  destruct callback as [cb|].
  - destruct (cb _ _ _) as [rc u']. destruct (rc =? 0);
      intros Heq; injection Heq as <-; right; eexists; simpl; eauto.
  - intros Heq. injection Heq as <-. left. simpl. split; [reflexivity|lia].
Qed.

Lemma extract_loop_descending (size : Z) (fuel : nat) :
  forall (s : scan_state U) (r : extract_result U),
    size + 12 < 2 ^ 32 ->
    0 <= current s <= previous s ->
    previous s <= low_end size (calls s) -> low_end size (calls s) <= size ->
    descending data cutoff size (calls s) ->
    extract_loop data cutoff callback fuel s = Some r ->
    descending data cutoff size (res_calls r).
Proof.
  induction fuel as [|fuel IH]; intros s r Hmax Hb Hlow Hsize Hd; simpl;
    [discriminate|].
  destruct (extract_step data cutoff callback s) as [[s'|r']|] eqn:Hstep;
    [| |discriminate].
  - pose proof (extract_step_call s _ Hstep Hb ltac:(lia)) as Hcall.
    pose proof (extract_step_bounds _ _ _ _ _ Hstep Hb) as [Hb' Hp'].
    simpl in Hcall. destruct Hcall as [[Hc Hp]|(v & Hc & Hv & Hp)].
    + apply IH; try rewrite Hc; auto; lia.
    + assert (Hv' : marked_dive data cutoff (low_end size (calls s)) v)
        by (eapply marked_dive_bound; eauto).
      destruct (descending_snoc _ _ _ _ _ Hd Hv') as [Hd' Hl].
      destruct Hv as (H0 & H12 & Hbd & _).
      apply IH; try rewrite Hc; try rewrite Hl; auto; lia.
  - intros Heq. injection Heq as <-.
    pose proof (extract_step_call s _ Hstep Hb ltac:(lia)) as Hcall.
    simpl in Hcall. destruct Hcall as [->|(v & -> & Hv)]; [exact Hd|].
    assert (Hv' : marked_dive data cutoff (low_end size (calls s)) v)
      by (eapply marked_dive_bound; eauto).
    now destruct (descending_snoc _ _ _ _ _ Hd Hv').
Qed.
End DeliveredDives.

(** X1.  Whatever the buffer holds, the dives the extraction has given
    to the callback lie inside the [size] bytes, each below the one
    delivered before it and none overlapping another; each begins with
    the header, ends with the first footer from its offset 10 on, is at
    least 12 bytes long, comes with the four bytes at its offset 6 as
    fingerprint, and has a timestamp above the cutoff of the handle. *)
Theorem delivered_dives_descend {serial_t U : Type}
    (abstract : option (@device serial_t)) (data : list byte) (size : Z)
    (callback : option (dc_dive_callback_t U)) (u : U)
    (r : extract_result U) :
  family_handle abstract ->
  0 <= size -> size + 12 < 2 ^ 32 ->
  reefnet_sensuspro_extract_dives abstract data size callback u = Some r ->
  descending data (cutoff_of abstract) size (res_calls r).
Proof.
  intros Hfam Hsize Hmax. rewrite extract_dives_family by exact Hfam.
  unfold extract_scan. intros Hr.
  eapply extract_loop_descending; try exact Hr; simpl; try lia; auto.
  destruct (4 <=? size) eqn:H4; [apply Z.leb_le in H4|]; lia.
Qed.

Lemma delivered_dives_descend_witness :
  descending (torn_dive ++ dive_50 ++ dive_100) (Some 40) 40
    [view_at 27 13; view_at 13 14].
Proof.
  apply (delivered_dives_descend (serial_t := unit)
           (Some (Reefnet_sensuspro
                    {| rsp_base := idle_base reefnet_sensuspro_device_backend;
                       rsp_port := tt; rsp_handshake := [];
                       rsp_timestamp := 40; rsp_devtime := 0;
                       rsp_systime := -1 |}))
           (torn_dive ++ dive_50 ++ dive_100) 40 (Some recorder) []
           {| res_status := DC_STATUS_DATAFORMAT;
              res_calls := [view_at 27 13; view_at 13 14];
              res_userdata := [view_at 27 13; view_at 13 14] |}).
  - right. eexists. split; reflexivity.
  - lia.
  - lia.
  - vm_compute. reflexivity.
Defined.

(** ** Bytes that start no header *)

Lemma header_free_inv (bs : list byte) (k : nat) :
  header_free bs = true -> match_at bs k header = false.
Proof.
  unfold header_free. rewrite forallb_forall. intros Hfree.
  destruct (Nat.lt_ge_cases k (length bs)) as [Hk|Hk].
  - apply negb_true_iff, Hfree, in_seq. lia.
  - unfold match_at. rewrite skipn_all2 by lia. reflexivity.
Qed.

Lemma header_free_memcmp (bs post : list byte) (q : Z) :
  header_free bs = true ->
  0 <= q -> q + 4 <= Z.of_nat (length bs) ->
  memcmp_is0 (bs ++ post) q header = Some false.
Proof.
  intros Hfree H0 Hq. unfold memcmp_is0.
  replace q with (Z.of_nat (Z.to_nat q)) by lia.
  rewrite load_first by (simpl; lia).
  f_equal. exact (header_free_inv bs (Z.to_nat q) Hfree).
Qed.

Section SkipClear.
Context {U : Type}.
Variable data : list byte.
Variable cutoff : option Z.
Variable callback : option (dc_dive_callback_t U).

(** The scan goes down over bytes that start no header without a call. *)
Lemma skip_to (prev lo : Z) (u : U) (tr : list dive_view) (n : nat) :
  0 <= lo ->
  (forall q, lo <= q -> q < lo + Z.of_nat n ->
             memcmp_is0 data q header = Some false) ->
  steps data cutoff callback
    {| previous := prev; current := lo + Z.of_nat n;
       userdata := u; calls := tr |}
    {| previous := prev; current := lo; userdata := u; calls := tr |}.
Proof.
  intros Hlo. induction n as [|n IH]; intros Hclear.
  - replace (lo + Z.of_nat 0) with lo by lia. apply steps_refl.
  - eapply steps_next; [|apply IH; intros q Hq Hq'; apply Hclear; lia].
    unfold extract_step. cbn [current previous userdata calls].
    replace (0 <? lo + Z.of_nat (S n)) with true
      by (symmetry; apply Z.ltb_lt; lia).
    replace (lo + Z.of_nat (S n) - 1) with (lo + Z.of_nat n) by lia.
    rewrite Hclear by lia. reflexivity.
Qed.
End SkipClear.

(** X2.  A buffer with no four zero bytes in a row, erased memory for
    one, holds no dive: the extraction returns success and never invokes
    the callback. *)
Theorem buffer_without_header_holds_no_dive {serial_t U : Type}
    (abstract : option (@device serial_t)) (data : list byte)
    (callback : option (dc_dive_callback_t U)) (u : U) :
  family_handle abstract ->
  header_free data = true ->
  reefnet_sensuspro_extract_dives abstract data (Z.of_nat (length data))
                                  callback u
  = Some {| res_status := DC_STATUS_SUCCESS; res_calls := [];
            res_userdata := u |}.
Proof.
  intros Hfam Hfree. rewrite extract_dives_family by exact Hfam.
  apply returns_scan; [lia|].
  apply (steps_returns _ _ _ _
           {| previous := Z.of_nat (length data); current := 0;
              userdata := u; calls := [] |});
    [|apply returns_now; reflexivity].
  unfold scan_init.
  set (cur := if 4 <=? Z.of_nat (length data)
              then Z.of_nat (length data) - 4 else 0).
  assert (Hcur : 0 <= cur /\ (cur = 0 \/ cur + 4 = Z.of_nat (length data))).
  { unfold cur. destruct (4 <=? Z.of_nat (length data)) eqn:H4;
      [apply Z.leb_le in H4|]; lia. }
  replace cur with (0 + Z.of_nat (Z.to_nat cur)) by lia.
  apply skip_to; [lia|].
  intros q Hq Hq'.
  pose proof (header_free_memcmp data [] q Hfree) as Hm.
  rewrite app_nil_r in Hm. apply Hm; lia.
Qed.

Lemma buffer_without_header_holds_no_dive_witness :
  reefnet_sensuspro_extract_dives (serial_t := unit) None
    (repeat xff 20 ++ [x00; x00; x00; xff]) 24 (Some recorder) []
  = Some {| res_status := DC_STATUS_SUCCESS; res_calls := [];
            res_userdata := [] |}.
Proof.
  apply (buffer_without_header_holds_no_dive (serial_t := unit) None
           (repeat xff 20 ++ [x00; x00; x00; xff]) (Some recorder) []).
  - left. reflexivity.
  - reflexivity.
Defined.

(** ** The number of calls *)

Lemma descending_count (data : list byte) (cutoff : option Z)
    (views : list dive_view) :
  forall bound,
    descending data cutoff bound views -> 0 <= bound ->
    12 * Z.of_nat (length views) <= bound.
Proof.
  induction views as [|v views IH]; intros bound Hd Hb.
  - simpl. lia.
  - cbn [descending] in Hd. destruct Hd as [(H0 & H12 & Hle & _) Hd].
    specialize (IH _ Hd H0). cbn [length]. lia.
Qed.

(** X3.  Given a buffer and its size, the extraction returns for every
    handle it accepts, every callback and every content of the buffer,
    with success or a data-format error, after at most one call for
    every 12 bytes of the buffer. *)
Theorem extraction_returns_after_few_calls {serial_t U : Type}
    (abstract : option (@device serial_t)) (data : list byte)
    (callback : option (dc_dive_callback_t U)) (u : U) :
  family_handle abstract ->
  Z.of_nat (length data) + 12 < 2 ^ 32 ->
  exists r,
    reefnet_sensuspro_extract_dives abstract data (Z.of_nat (length data))
                                    callback u = Some r
    /\ (res_status r = DC_STATUS_SUCCESS
        \/ res_status r = DC_STATUS_DATAFORMAT)
    /\ 12 * Z.of_nat (length (res_calls r)) <= Z.of_nat (length data).
Proof.
  intros Hfam Hsize. rewrite extract_dives_family by exact Hfam.
  destruct (extract_scan_returns data (cutoff_of abstract) callback Hsize u)
    as (r & Hr & Hst).
  exists r. split; [exact Hr|]. split; [exact Hst|].
  apply (descending_count data (cutoff_of abstract)); [|lia].
  unfold extract_scan in Hr.
  eapply extract_loop_descending; try exact Hr; simpl; try lia; auto.
  destruct (4 <=? Z.of_nat (length data)) eqn:H4;
    [apply Z.leb_le in H4|]; lia.
Qed.

Lemma extraction_returns_after_few_calls_witness :
  exists r,
    reefnet_sensuspro_extract_dives (serial_t := unit) None
      (torn_dive ++ dive_50 ++ dive_100) 40 (Some recorder) [] = Some r
    /\ (res_status r = DC_STATUS_SUCCESS
        \/ res_status r = DC_STATUS_DATAFORMAT)
    /\ 12 * Z.of_nat (length (res_calls r)) <= 40.
Proof.
  apply (extraction_returns_after_few_calls (serial_t := unit) None
           (torn_dive ++ dive_50 ++ dive_100) (Some recorder) []).
  - left. reflexivity.
  - simpl. lia.
Defined.

(** ** A record below bytes that start no header *)

Lemma match_at_app_inside (a b pat : list byte) (k : nat) :
  (k + length pat <= length a)%nat ->
  match_at (a ++ b) k pat = match_at a k pat.
Proof.
  intros Hk. unfold match_at. rewrite skipn_app.
  replace (k - length a)%nat with 0%nat by lia. rewrite skipn_O.
  rewrite firstn_app.
  replace (length pat - length (skipn k a))%nat with 0%nat
    by (rewrite length_skipn; lia).
  rewrite firstn_O. now rewrite app_nil_r.
Qed.

Lemma match_at_app_after (a b pat : list byte) (k : nat) :
  (length a <= k)%nat ->
  match_at (a ++ b) k pat = match_at b (k - length a) pat.
Proof.
  intros Hk. unfold match_at. rewrite skipn_app.
  now rewrite (skipn_all2 a) by lia.
Qed.

Lemma footer_tail (r : list byte) :
  well_formed_record r = true -> skipn (length r - 2) r = footer.
Proof.
  intros Hwf.
  destruct (well_formed_record_inv r Hwf) as (Hlen & _ & Hf & _).
  unfold match_at in Hf. apply bytes_eqb_eq in Hf.
  rewrite firstn_all2 in Hf; [exact Hf|].
  rewrite length_skipn. simpl. lia.
Qed.

(** The footer keeps a header from starting in the last three bytes of
    a record. *)
Lemma header_straddle (r tail : list byte) (k : nat) :
  well_formed_record r = true ->
  (length r - 4 < k < length r)%nat ->
  match_at (r ++ tail) k header = false.
Proof.
  intros Hwf Hk.
  destruct (well_formed_record_inv r Hwf) as (Hlen & _).
  pose proof (footer_tail r Hwf) as Hfoot.
  unfold match_at. rewrite skipn_app.
  replace (k - length r)%nat with 0%nat by lia. rewrite skipn_O.
  assert (Hcase : k = (1 + (length r - 2))%nat \/ k = (length r - 2)%nat
                  \/ k = (length r - 3)%nat) by lia.
  destruct Hcase as [->|[->| ->]].
  - rewrite <- skipn_skipn, Hfoot. reflexivity.
  - rewrite Hfoot. reflexivity.
  - assert (Hl : length (skipn (length r - 3) r) = 3%nat)
      by (rewrite length_skipn; lia).
    assert (Hs : skipn 1 (skipn (length r - 3) r) = footer).
    { rewrite skipn_skipn.
      replace (1 + (length r - 3))%nat with (length r - 2)%nat by lia.
      exact Hfoot. }
    destruct (skipn (length r - 3) r) as [|b rest]; [discriminate|].
    simpl in Hs. subst rest.
    unfold header, footer. cbn [length firstn app bytes_eqb].
    destruct (Byte.eqb b x00); reflexivity.
Qed.

Lemma no_header_past_record (pre r tail post : list byte) (k : nat) :
  well_formed_record r = true ->
  header_free tail = true ->
  (1 <= k)%nat -> (k + 4 <= length r + length tail)%nat ->
  memcmp_is0 (pre ++ r ++ tail ++ post)
             (Z.of_nat (length pre) + Z.of_nat k) header
  = Some false.
Proof.
  intros Hwf Hfree H1 Hk.
  destruct (well_formed_record_inv r Hwf) as (Hlen & _ & _ & Hnh & _).
  replace (pre ++ r ++ tail ++ post) with (pre ++ (r ++ tail) ++ post)
    by (now rewrite <- app_assoc).
  rewrite memcmp_inside by (simpl; rewrite length_app; lia).
  f_equal.
  destruct (Nat.le_gt_cases (k + 4) (length r)) as [Hin|Hout].
  - rewrite match_at_app_inside by (simpl; lia). apply Hnh. lia.
  - destruct (Nat.le_gt_cases (length r) k) as [Hafter|Hbefore].
    + rewrite match_at_app_after by lia. now apply header_free_inv.
    + apply header_straddle; [exact Hwf|lia].
Qed.

Section RecordUnder.
Context {U : Type}.
Variables pre r post : list byte.
Variable cutoff : option Z.
Variable callback : option (dc_dive_callback_t U).
Variable prev : Z.
Hypothesis Hwf : well_formed_record r = true.
Hypothesis Hprev : Z.of_nat (length pre) + Z.of_nat (length r) <= prev.
Hypothesis Hmax : prev + 8 < 2 ^ 32.

Local Abbreviation data := (pre ++ r ++ post).
Local Abbreviation c := (Z.of_nat (length pre)).
Local Abbreviation L := (Z.of_nat (length r)).

(** The search stops at the footer of the record also when it may go
    on above it. *)
Lemma find_footer_under (n : nat) :
  forall (j fuel : nat),
    (10 <= j)%nat -> (j + n = length r - 2)%nat -> (n < fuel)%nat ->
    find_footer fuel data prev (c + Z.of_nat j) = Some (Some (c + L - 2)).
Proof.
  destruct (well_formed_record_inv r Hwf) as (Hlen & _ & Hf & _ & Hnf).
  induction n as [|n IH]; intros j fuel Hj Hn Hfuel;
    (destruct fuel as [|fuel]; [lia|]); simpl.
  - rewrite uint_small by lia.
    replace (c + Z.of_nat j + 2 <=? prev) with true
      by (symmetry; apply Z.leb_le; lia).
    rewrite (memcmp_inside pre r post footer j) by (simpl; lia).
    replace j with (length r - 2)%nat by lia. rewrite Hf.
    do 2 f_equal. lia.
  - rewrite uint_small by lia.
    replace (c + Z.of_nat j + 2 <=? prev) with true
      by (symmetry; apply Z.leb_le; lia).
    rewrite (memcmp_inside pre r post footer j) by (simpl; lia).
    rewrite Hnf by lia.
    rewrite uint_small by lia.
    replace (c + Z.of_nat j + 1) with (c + Z.of_nat (S j)) by lia.
    apply IH; lia.
Qed.

(** The iteration that meets the header of the record, with the
    boundary [prev] at the end of the record or above it. *)
Lemma record_step_under (u : U) (tr : list dive_view) :
  let s := {| previous := prev; current := c + 1;
              userdata := u; calls := tr |} in
  extract_step data cutoff callback s =
  if cut_by cutoff r
  then Some (inr (finish DC_STATUS_SUCCESS s))
  else
    match callback with
    | Some cb =>
        if fst (cb data (record_view pre r) u) =? 0
        then Some (inr {| res_status := DC_STATUS_SUCCESS;
                          res_calls := tr ++ [record_view pre r];
                          res_userdata := snd (cb data (record_view pre r) u) |})
        else Some (inl (below_record pre (snd (cb data (record_view pre r) u))
                                     (tr ++ [record_view pre r])))
    | None => Some (inl (below_record pre u tr))
    end.
Proof.
  destruct (well_formed_record_inv r Hwf) as (Hlen & Hh & _ & _ & _).
  intros s. unfold s, extract_step, cut_by.
  cbn [current previous userdata calls].
  replace (0 <? c + 1) with true by (symmetry; apply Z.ltb_lt; lia).
  replace (c + 1 - 1) with c by lia.
  generalize (memcmp_inside pre r post header 0).
  replace (c + Z.of_nat 0) with c by lia.
  intros ->; [|simpl; lia]. rewrite Hh.
  rewrite uint_small by lia.
  change 10 with (Z.of_nat 10).
  rewrite (find_footer_under (length r - 12)) by lia.
  change (Z.of_nat 10) with 10.
  rewrite timestamp_inside by lia.
  destruct (match cutoff with
            | Some t => record_timestamp r <=? t
            | None => false
            end); [reflexivity|].
  replace (c + L - 2 + 2) with (c + L) by lia.
  rewrite (uint_small (c + L)) by lia.
  replace (c + L - c) with L by lia.
  rewrite (uint_small L) by lia.
  change {| dv_data := c; dv_size := L; dv_fingerprint := c + 6; dv_fsize := 4 |}
    with (record_view pre r).
  destruct callback as [cb|]; [|reflexivity].
  destruct (cb data (record_view pre r) u) as [rc u']. simpl.
  destruct (rc =? 0); reflexivity.
Qed.
End RecordUnder.

(** ** A run of records under a callback that may stop elsewhere *)

Section RecordsWhile.
Context {U : Type}.
Variable cutoff : option Z.
Variable cb : dc_dive_callback_t U.

Lemma scan_records_while (rs : list (list byte)) :
  forall (pre post data : list byte) (u : U) (tr : list dive_view),
    data = pre ++ concat rs ++ post ->
    Forall (fun r => well_formed_record r = true) rs ->
    Forall (fun r => cut_by cutoff r = false) rs ->
    Z.of_nat (length (pre ++ concat rs)) + 8 < 2 ^ 32 ->
    (forall v u', In v (record_views (Z.of_nat (length pre)) rs) ->
                  fst (cb data v u') <> 0) ->
    steps data cutoff (Some cb)
      (below_record (pre ++ concat rs) u tr)
      (below_record pre
         (run_callback cb data
            (rev (record_views (Z.of_nat (length pre)) rs)) u)
         (tr ++ rev (record_views (Z.of_nat (length pre)) rs))).
Proof.
  induction rs as [|r rs IH] using rev_ind;
    intros pre post data u tr Hdata Hwf Hcut Hsize Hcont.
  - simpl. rewrite !app_nil_r. apply steps_refl.
  - apply Forall_app in Hwf as [Hwf Hr]. apply Forall_app in Hcut as [Hcut Hc].
    inversion Hr as [|? ? Hr' _]; subst x l.
    inversion Hc as [|? ? Hc' _]; subst x l.
    destruct (well_formed_record_inv r Hr') as (Hlen & _).
    assert (Hdata' : data = (pre ++ concat rs) ++ r ++ post).
    { rewrite Hdata, concat_app. simpl.
      now rewrite app_nil_r, <- !app_assoc. }
    assert (Hsz : Z.of_nat (length (pre ++ concat rs)) + Z.of_nat (length r) + 8
                  < 2 ^ 32).
    { revert Hsize. rewrite concat_app. simpl. rewrite !length_app. simpl. lia. }
    set (view := record_view (pre ++ concat rs) r).
    assert (Hlast : record_views (Z.of_nat (length pre)) (rs ++ [r])
                    = record_views (Z.of_nat (length pre)) rs ++ [view]).
    { rewrite record_views_app. unfold view, record_view.
      rewrite !length_app. do 2 f_equal. f_equal; lia. }
    assert (Htop : below_record (pre ++ concat (rs ++ [r])) u tr
                   = {| previous := Z.of_nat (length (pre ++ concat rs))
                                    + Z.of_nat (length r);
                        current := Z.of_nat (length (pre ++ concat rs))
                                   + Z.of_nat (length r) - 4;
                        userdata := u; calls := tr |}).
    { unfold below_record. rewrite concat_app. simpl.
      rewrite app_nil_r, app_assoc, (length_app (pre ++ concat rs)).
      rewrite Nat2Z.inj_add.
      replace (4 <=? Z.of_nat (length (pre ++ concat rs)) + Z.of_nat (length r))
        with true by (symmetry; apply Z.leb_le; lia).
      reflexivity. }
    assert (Hne : fst (cb data view u) <> 0).
    { apply Hcont. rewrite Hlast. apply in_or_app. right. now left. }
    rewrite Htop, Hlast, rev_app_distr. simpl rev. simpl app at 3.
    eapply steps_trans.
    { rewrite Hdata'. apply reach_record_header; assumption. }
    eapply steps_next.
    + rewrite Hdata'.
      rewrite (record_step _ _ _ cutoff (Some cb) Hr' Hsz u tr).
      fold (cut_by cutoff r). rewrite Hc'. fold view. rewrite <- Hdata'.
      apply Z.eqb_neq in Hne. rewrite Hne. reflexivity.
    + simpl run_callback.
      rewrite (app_assoc tr [view]).
      apply (IH pre (r ++ post) data (snd (cb data view u)) (tr ++ [view]));
        auto.
      * rewrite Hdata, concat_app. simpl.
        now rewrite app_nil_r, <- !app_assoc.
      * revert Hsz. rewrite !length_app. lia.
      * intros v u' Hin. apply Hcont. rewrite Hlast.
        apply in_or_app. now left.
Qed.
End RecordsWhile.

(** X4.  When the callback returns 0 for a dive, the extraction returns
    success at once: the calls are those for the newer dives, newest
    first, and then the one that stopped it; nothing of what lies below
    that dive in the buffer is looked at. *)
Theorem callback_stop_ends_extraction {serial_t U : Type}
    (abstract : option (@device serial_t)) (pre rj : list byte)
    (newer : list (list byte)) (cb : dc_dive_callback_t U) (u : U) :
  family_handle abstract ->
  well_formed_record rj = true ->
  Forall (fun r => well_formed_record r = true) newer ->
  Forall (fun r => cut_by (cutoff_of abstract) r = false) (rj :: newer) ->
  let data := pre ++ rj ++ concat newer in
  let views := rev (record_views (Z.of_nat (length (pre ++ rj))) newer) in
  let uj := run_callback cb data views u in
  scannable data ->
  (forall v u', In v views -> fst (cb data v u') <> 0) ->
  fst (cb data (record_view pre rj) uj) = 0 ->
  reefnet_sensuspro_extract_dives abstract data (Z.of_nat (length data))
                                  (Some cb) u
  = Some {| res_status := DC_STATUS_SUCCESS;
            res_calls := views ++ [record_view pre rj];
            res_userdata := snd (cb data (record_view pre rj) uj) |}.
Proof.
  intros Hfam Hrj Hwf Hcut data views uj Hsize Hcont Hstop.
  rewrite extract_dives_family by exact Hfam.
  inversion Hcut as [|? ? Hcj Hcn]; subst x l.
  assert (Hdata : data = (pre ++ rj) ++ concat newer ++ [])
    by (unfold data; now rewrite app_nil_r, <- app_assoc).
  assert (Hdata' : data = pre ++ rj ++ concat newer) by reflexivity.
  clearbody data.
  unfold scannable in Hsize.
  apply returns_scan; [lia|].
  assert (Hinit : scan_init (Z.of_nat (length data)) u
                  = below_record ((pre ++ rj) ++ concat newer) u []).
  { unfold scan_init, below_record.
    replace ((pre ++ rj) ++ concat newer) with data
      by (rewrite Hdata; now rewrite app_nil_r).
    reflexivity. }
  rewrite Hinit.
  eapply steps_returns.
  { apply (scan_records_while (cutoff_of abstract) cb newer (pre ++ rj) []
             data u [] Hdata Hwf Hcn).
    - rewrite Hdata in Hsize. rewrite app_nil_r in Hsize. exact Hsize.
    - intros v u' Hin. apply Hcont. unfold views. now rewrite <- in_rev. }
  simpl app. fold views. fold uj.
  destruct (well_formed_record_inv rj Hrj) as (Hlen & _).
  assert (Hsz : Z.of_nat (length pre) + Z.of_nat (length rj) + 8 < 2 ^ 32).
  { rewrite Hdata' in Hsize. rewrite !length_app in Hsize. lia. }
  assert (Htop : below_record (pre ++ rj) uj views
                 = {| previous := Z.of_nat (length pre) + Z.of_nat (length rj);
                      current := Z.of_nat (length pre) + Z.of_nat (length rj) - 4;
                      userdata := uj; calls := views |}).
  { unfold below_record. rewrite length_app, Nat2Z.inj_add.
    replace (4 <=? Z.of_nat (length pre) + Z.of_nat (length rj))
      with true by (symmetry; apply Z.leb_le; lia).
    reflexivity. }
  rewrite Htop.
  eapply steps_returns.
  { rewrite Hdata'. apply reach_record_header; assumption. }
  apply returns_now. rewrite Hdata'.
  rewrite (record_step pre rj (concat newer) (cutoff_of abstract) (Some cb)
             Hrj Hsz uj views).
  fold (cut_by (cutoff_of abstract) rj). rewrite Hcj.
  rewrite <- Hdata'. rewrite Hstop. reflexivity.
Qed.

Lemma callback_stop_ends_extraction_witness :
  reefnet_sensuspro_extract_dives (serial_t := unit) None
    (torn_dive ++ dive_50 ++ concat [dive_100]) 40 (Some (stop_at 13)) []
  = Some {| res_status := DC_STATUS_SUCCESS;
            res_calls := [view_at 27 13; view_at 13 14];
            res_userdata := [view_at 27 13; view_at 13 14] |}.
Proof.
  apply (callback_stop_ends_extraction (serial_t := unit) None
           torn_dive dive_50 [dive_100] (stop_at 13) []).
  - left. reflexivity.
  - reflexivity.
  - repeat constructor.
  - repeat constructor.
  - unfold scannable. simpl. lia.
  - intros v u' Hin. simpl in Hin. destruct Hin as [<-|[]].
    simpl. discriminate.
  - reflexivity.
Defined.

(** ** From one download to the next *)

Lemma extract_step_calls_prefix {U : Type} (data : list byte)
    (cutoff : option Z) (callback : option (dc_dive_callback_t U))
    (s : scan_state U) (out : scan_state U + extract_result U) :
  extract_step data cutoff callback s = Some out ->
  exists more,
    match out with
    | inl s' => calls s'
    | inr r => res_calls r
    end = calls s ++ more.
Proof.
  unfold extract_step.
  destruct (0 <? current s);
    [|intros Heq; injection Heq as <-; exists []; simpl; now rewrite app_nil_r].
  destruct (memcmp_is0 data (current s - 1) header) as [[|]|];
    [|intros Heq; injection Heq as <-; exists []; simpl; now rewrite app_nil_r
     |discriminate].
  destruct (find_footer _ _ _ _) as [[offset|]|];
    [|intros Heq; injection Heq as <-; exists []; simpl; now rewrite app_nil_r
     |discriminate].
  destruct (array_uint32_le _ _) as [ts|]; [|discriminate].
  destruct (match cutoff with Some t => ts <=? t | None => false end);
    [intros Heq; injection Heq as <-; exists []; simpl; now rewrite app_nil_r|].
  destruct callback as [cb|].
  - destruct (cb _ _ _) as [rc u']. destruct (rc =? 0);
      intros Heq; injection Heq as <-; eexists; reflexivity.
  - intros Heq. injection Heq as <-. exists []. simpl. now rewrite app_nil_r.
Qed.

Lemma extract_loop_calls_prefix {U : Type} (data : list byte)
    (cutoff : option Z) (callback : option (dc_dive_callback_t U))
    (fuel : nat) :
  forall (s : scan_state U) (r : extract_result U),
    extract_loop data cutoff callback fuel s = Some r ->
    exists more, res_calls r = calls s ++ more.
Proof.
  induction fuel as [|fuel IH]; intros s r; simpl; [discriminate|].
  destruct (extract_step data cutoff callback s) as [[s'|r']|] eqn:Hstep;
    [| |discriminate].
  - intros Hr. destruct (IH _ _ Hr) as [m2 H2].
    destruct (extract_step_calls_prefix _ _ _ _ _ Hstep) as [m1 H1].
    exists (m1 ++ m2). rewrite H2, H1. now rewrite app_assoc.
  - intros Heq. injection Heq as <-.
    exact (extract_step_calls_prefix _ _ _ _ _ Hstep).
Qed.

Lemma steps_loop {U : Type} (data : list byte) (cutoff : option Z)
    (callback : option (dc_dive_callback_t U)) (s s' : scan_state U) :
  steps data cutoff callback s s' ->
  forall (fuel : nat) (r : extract_result U),
    extract_loop data cutoff callback fuel s = Some r ->
    exists fuel', extract_loop data cutoff callback fuel' s' = Some r.
Proof.
  induction 1 as [|s s1 s2 Hs _ IH]; intros fuel r Hr; [eauto|].
  destruct fuel as [|fuel]; [discriminate|].
  simpl in Hr. rewrite Hs in Hr. eauto.
Qed.

Lemma fingerprint_value (r : list byte) :
  (10 <= length r)%nat ->
  array_uint32_le (firstn 4 (skipn 6 r)) 0 = Some (record_timestamp r).
Proof.
  intros Hlen. unfold record_timestamp.
  unfold array_uint32_le at 2. change 6 with (Z.of_nat 6).
  rewrite load_whole by lia.
  assert (Hl : length (firstn 4 (skipn 6 r)) = 4%nat)
    by (rewrite length_firstn, length_skipn; lia).
  destruct (firstn 4 (skipn 6 r)) as [|b0 [|b1 [|b2 [|b3 [|b4 l]]]]];
    simpl in Hl; try discriminate. reflexivity.
Qed.

(** The first call of an extraction on a buffer that ends with a
    well-formed record is the call for that record. *)
Lemma first_call_is_newest {U : Type} (pre newest : list byte)
    (cutoff : option Z) (cb : dc_dive_callback_t U) (u : U)
    (r : extract_result U) (v : dive_view) :
  well_formed_record newest = true ->
  Z.of_nat (length pre) + Z.of_nat (length newest) + 8 < 2 ^ 32 ->
  extract_scan (pre ++ newest) cutoff (Some cb)
               (Z.of_nat (length (pre ++ newest))) u = Some r ->
  hd_error (res_calls r) = Some v ->
  v = record_view pre newest.
Proof.
  intros Hnew Hsz Hrun Hhd.
  destruct (well_formed_record_inv newest Hnew) as (Hlen & _).
  unfold extract_scan in Hrun.
  assert (Hinit : scan_init (Z.of_nat (length (pre ++ newest))) u
                  = {| previous := Z.of_nat (length pre)
                                   + Z.of_nat (length newest);
                       current := Z.of_nat (length pre)
                                  + Z.of_nat (length newest) - 4;
                       userdata := u; calls := [] |}).
  { unfold scan_init. rewrite length_app, Nat2Z.inj_add.
    replace (4 <=? Z.of_nat (length pre) + Z.of_nat (length newest))
      with true by (symmetry; apply Z.leb_le; lia).
    reflexivity. }
  rewrite Hinit in Hrun.
  pose proof (reach_record_header pre newest [] cutoff (Some cb) Hnew u [])
    as Hreach.
  rewrite app_nil_r in Hreach.
  destruct (steps_loop _ _ _ _ _ Hreach _ _ Hrun) as [f1 Hf1].
  destruct f1 as [|f1]; [discriminate|].
  cbn [extract_loop] in Hf1.
  pose proof (record_step pre newest [] cutoff (Some cb) Hnew Hsz u [])
    as Hstep.
  cbv zeta in Hstep. rewrite app_nil_r in Hstep. rewrite Hstep in Hf1.
  destruct (match cutoff with
            | Some t => record_timestamp newest <=? t
            | None => false
            end).
  - injection Hf1 as <-. discriminate.
  - destruct (fst (cb (pre ++ newest) (record_view pre newest) u) =? 0).
    + injection Hf1 as <-. simpl in Hhd. congruence.
    + destruct (extract_loop_calls_prefix _ _ _ _ _ _ Hf1) as [more Hmore].
      rewrite Hmore in Hhd. simpl in Hhd. congruence.
Qed.

(** X5.  The fingerprint the callback gets with the first dive of a
    download, the newest, resumes the next download where this one
    began: once it is given to [set_fingerprint], the extraction on the
    memory as it is after some more dives delivers these dives, newest
    first, and stops with success at the dive the fingerprint came
    from.  Nothing is asked of the bytes below that dive or of what the
    first download made of them. *)
Theorem newest_fingerprint_resumes_download {serial_t U V : Type}
    (d : @reefnet_sensuspro_device_t serial_t) (pre newest : list byte)
    (added : list (list byte))
    (cb1 : dc_dive_callback_t V) (u1 : V) (r1 : extract_result V)
    (v : dive_view) (fp : list byte)
    (cb : dc_dive_callback_t U) (u : U) :
  backend (rsp_base d) = reefnet_sensuspro_device_backend ->
  well_formed_record newest = true ->
  Forall (fun r => well_formed_record r = true) added ->
  Forall (fun r => record_timestamp newest < record_timestamp r) added ->
  always_continues cb ->
  scannable (pre ++ newest ++ concat added) ->
  reefnet_sensuspro_extract_dives (Some (Reefnet_sensuspro d))
    (pre ++ newest) (Z.of_nat (length (pre ++ newest))) (Some cb1) u1
  = Some r1 ->
  hd_error (res_calls r1) = Some v ->
  load (pre ++ newest) (dv_fingerprint v) (Z.to_nat (dv_fsize v)) = Some fp ->
  exists d',
    reefnet_sensuspro_device_set_fingerprint (Some (Reefnet_sensuspro d))
                                             fp (dv_fsize v)
    = Some (DC_STATUS_SUCCESS, Some (Reefnet_sensuspro d'))
    /\ reefnet_sensuspro_extract_dives (Some (Reefnet_sensuspro d'))
         (pre ++ newest ++ concat added)
         (Z.of_nat (length (pre ++ newest ++ concat added))) (Some cb) u
       = Some {| res_status := DC_STATUS_SUCCESS;
                 res_calls :=
                   rev (record_views (Z.of_nat (length (pre ++ newest)))
                                     added);
                 res_userdata :=
                   run_callback cb (pre ++ newest ++ concat added)
                     (rev (record_views (Z.of_nat (length (pre ++ newest)))
                                        added)) u |}.
Proof.
  intros Hb Hnew Hadded Hlater Hcont Hsize Hrun Hhd Hfp.
  destruct (well_formed_record_inv newest Hnew) as (Hlen & _).
  assert (Hsz : Z.of_nat (length pre) + Z.of_nat (length newest) + 8 < 2 ^ 32).
  { unfold scannable in Hsize. rewrite !length_app in Hsize. lia. }
  rewrite extract_dives_reefnet in Hrun by exact Hb.
  pose proof (first_call_is_newest pre newest _ cb1 u1 r1 v Hnew Hsz Hrun Hhd)
    as Hv.
  subst v. unfold record_view in Hfp |- *. cbn [dv_fingerprint dv_fsize] in *.
  change (Z.to_nat 4) with 4%nat in Hfp.
  assert (Hfp' : fp = firstn 4 (skipn 6 newest)).
  { pose proof (load_inside pre newest [] 6 4 ltac:(lia)) as Hload.
    rewrite app_nil_r in Hload. change (Z.of_nat 6) with 6 in Hload.
    congruence. }
  pose proof (fingerprint_value newest ltac:(lia)) as Hval.
  rewrite <- Hfp' in Hval.
  exists (rsp_set_timestamp d (record_timestamp newest)). split.
  - unfold reefnet_sensuspro_device_set_fingerprint,
      device_is_reefnet_sensuspro. simpl. now rewrite Hb, Hval.
  - rewrite extract_dives_reefnet by exact Hb. simpl rsp_timestamp.
    assert (Hcut : Forall (fun r => cut_by (Some (record_timestamp newest)) r
                                    = false) added).
    { eapply Forall_impl; [|exact Hlater].
      intros r Hr. simpl. now apply Z.leb_gt. }
    pose proof (extract_scan_cut (Some (record_timestamp newest)) cb Hcont
                  [pre] added newest (record_timestamp newest) u
                  eq_refl (Z.le_refl _) Hnew Hadded Hcut) as Hscan.
    cbv zeta in Hscan. cbn [concat app] in Hscan.
    rewrite !app_nil_r in Hscan. apply Hscan. exact Hsize.
Qed.

Lemma newest_fingerprint_resumes_download_witness :
  exists d',
    reefnet_sensuspro_device_set_fingerprint
      (Some (Reefnet_sensuspro sample_reefnet)) [x32; x00; x00; x00] 4
    = Some (DC_STATUS_SUCCESS, Some (Reefnet_sensuspro d'))
    /\ reefnet_sensuspro_extract_dives (Some (Reefnet_sensuspro d'))
         (torn_dive ++ dive_50 ++ concat [dive_100]) 40 (Some recorder) []
       = Some {| res_status := DC_STATUS_SUCCESS;
                 res_calls := [view_at 27 13];
                 res_userdata := [view_at 27 13] |}.
Proof.
  apply (newest_fingerprint_resumes_download (serial_t := unit)
           sample_reefnet torn_dive dive_50 [dive_100]
           recorder []
           {| res_status := DC_STATUS_DATAFORMAT;
              res_calls := [view_at 13 14];
              res_userdata := [view_at 13 14] |}
           (view_at 13 14) [x32; x00; x00; x00] recorder []).
  - reflexivity.
  - reflexivity.
  - repeat constructor.
  - repeat constructor.
  - intros data v u. simpl. discriminate.
  - unfold scannable. simpl. lia.
  - vm_compute. reflexivity.
  - reflexivity.
  - reflexivity.
Defined.

(** ** Dives between older bytes and erased memory *)

(** X6.  Bytes that hold no header, below the oldest dive and above the
    newest (the erased end of the memory), take nothing from the
    download: every dive between them is delivered, newest first, at
    its offset in the buffer and with its own length, and the
    extraction returns success. *)
Theorem dives_between_padding {serial_t U : Type}
    (abstract : option (@device serial_t)) (pre tail : list byte)
    (rs : list (list byte)) (cb : dc_dive_callback_t U) (u : U) :
  family_handle abstract ->
  rs <> [] ->
  Forall (fun r => well_formed_record r = true) rs ->
  Forall (fun r => cut_by (cutoff_of abstract) r = false) rs ->
  header_free pre = true -> header_free tail = true ->
  always_continues cb ->
  let data := pre ++ concat rs ++ tail in
  let views := rev (record_views (Z.of_nat (length pre)) rs) in
  scannable data ->
  reefnet_sensuspro_extract_dives abstract data (Z.of_nat (length data))
                                  (Some cb) u
  = Some {| res_status := DC_STATUS_SUCCESS; res_calls := views;
            res_userdata := run_callback cb data views u |}.
Proof.
  intros Hfam Hne Hwf Hcut Hpre Htail Hcont.
  destruct (exists_last Hne) as (rs' & r & ->).
  intros data views Hsize.
  rewrite extract_dives_family by exact Hfam.
  apply Forall_app in Hwf as [Hwf Hr]. apply Forall_app in Hcut as [Hcut Hc].
  inversion Hr as [|? ? Hr' _]; subst x l.
  inversion Hc as [|? ? Hc' _]; subst x l.
  destruct (well_formed_record_inv r Hr') as (Hlen & _).
  assert (Hd1 : data = (pre ++ concat rs') ++ r ++ tail ++ []).
  { unfold data. rewrite concat_app. simpl.
    now rewrite !app_nil_r, <- !app_assoc. }
  assert (Hd2 : data = (pre ++ concat rs') ++ r ++ tail)
    by (rewrite Hd1; now rewrite app_nil_r).
  assert (Hd3 : data = pre ++ concat rs' ++ r ++ tail)
    by (rewrite Hd2; now rewrite <- app_assoc).
  set (view := record_view (pre ++ concat rs') r).
  assert (Hviews : views
                   = view :: rev (record_views (Z.of_nat (length pre)) rs')).
  { unfold views. rewrite record_views_app, rev_app_distr. simpl.
    unfold view, record_view. rewrite !length_app. do 2 f_equal; lia. }
  rewrite Hviews. clear Hviews. clearbody data. clear views.
  unfold scannable in Hsize.
  assert (Hlen_data : Z.of_nat (length data)
                      = Z.of_nat (length (pre ++ concat rs'))
                        + Z.of_nat (length r) + Z.of_nat (length tail)).
  { rewrite Hd2, !length_app. lia. }
  apply returns_scan; [lia|].
  unfold scan_init. rewrite Hlen_data.
  replace (4 <=? Z.of_nat (length (pre ++ concat rs'))
                 + Z.of_nat (length r) + Z.of_nat (length tail))
    with true by (symmetry; apply Z.leb_le; lia).
  eapply steps_returns.
  { replace (Z.of_nat (length (pre ++ concat rs'))
             + Z.of_nat (length r) + Z.of_nat (length tail) - 4)
      with ((Z.of_nat (length (pre ++ concat rs')) + 1)
            + Z.of_nat (length r + length tail - 5)) by lia.
    apply skip_to; [lia|].
    intros q Hq Hq'. rewrite Hd1.
    replace q with (Z.of_nat (length (pre ++ concat rs'))
                    + Z.of_nat (Z.to_nat
                                  (q - Z.of_nat (length (pre ++ concat rs')))))
      by lia.
    apply no_header_past_record; auto; lia. }
  eapply steps_returns.
  { eapply steps_next; [|apply steps_refl].
    rewrite Hd2.
    rewrite (record_step_under (pre ++ concat rs') r tail
               (cutoff_of abstract) (Some cb)
               (Z.of_nat (length (pre ++ concat rs'))
                + Z.of_nat (length r) + Z.of_nat (length tail))
               Hr' ltac:(lia) ltac:(lia) u []).
    rewrite Hc'. fold view. rewrite <- Hd2.
    pose proof (Hcont data view u) as Hgo.
    apply Z.eqb_neq in Hgo. rewrite Hgo. reflexivity. }
  eapply steps_returns.
  { rewrite Hd3.
    apply (scan_records (cutoff_of abstract) cb Hcont rs' pre (r ++ tail)
             (snd (cb (pre ++ concat rs' ++ r ++ tail) view u))
             ([] ++ [view]) Hwf Hcut).
    lia. }
  eapply steps_returns.
  { unfold below_record.
    set (cur := if 4 <=? Z.of_nat (length pre)
                then Z.of_nat (length pre) - 4 else 0).
    assert (Hcur : 0 <= cur
                   /\ (cur = 0 \/ cur + 4 = Z.of_nat (length pre))).
    { unfold cur. destruct (4 <=? Z.of_nat (length pre)) eqn:H4;
        [apply Z.leb_le in H4|]; lia. }
    replace cur with (0 + Z.of_nat (Z.to_nat cur)) by lia.
    apply skip_to; [lia|].
    intros q Hq Hq'. rewrite Hd3.
    apply header_free_memcmp; [exact Hpre|lia|lia]. }
  apply returns_now. rewrite <- Hd3. reflexivity.
Qed.

Lemma dives_between_padding_witness :
  reefnet_sensuspro_extract_dives (serial_t := unit) None
    ([x12; x00; x00; x00; x34] ++ concat [dive_50; dive_100]
     ++ repeat xff 9) 41 (Some recorder) []
  = Some {| res_status := DC_STATUS_SUCCESS;
            res_calls := [view_at 19 13; view_at 5 14];
            res_userdata := [view_at 19 13; view_at 5 14] |}.
Proof.
  apply (dives_between_padding (serial_t := unit) None
           [x12; x00; x00; x00; x34] (repeat xff 9) [dive_50; dive_100]
           recorder []).
  - left. reflexivity.
  - discriminate.
  - repeat constructor.
  - repeat constructor.
  - reflexivity.
  - reflexivity.
  - intros data v u. simpl. discriminate.
  - unfold scannable. simpl. lia.
Defined.

(** ** Reads inside a buffer *)

Lemma byte_at_defined (data : list byte) (off : Z) :
  0 <= off -> off + 1 <= Z.of_nat (length data) ->
  exists v, byte_at data off = Some v.
Proof.
  intros H0 Hn. unfold byte_at.
  destruct (load_defined data off 1 H0 ltac:(lia)) as [-> Hlen].
  destruct (firstn 1 (skipn (Z.to_nat off) data)) as [|b [|b1 l]];
    simpl in Hlen; try discriminate.
  eauto.
Qed.

Lemma array_uint16_be_defined (data : list byte) (off : Z) :
  0 <= off -> off + 2 <= Z.of_nat (length data) ->
  exists v, array_uint16_be data off = Some v.
Proof.
  intros H0 Hn. unfold array_uint16_be.
  destruct (load_defined data off 2 H0 ltac:(lia)) as [-> Hlen].
  destruct (firstn 2 (skipn (Z.to_nat off) data)) as [|b0 [|b1 [|b2 l]]];
    simpl in Hlen; try discriminate.
  eauto.
Qed.

Lemma array_uint16_le_defined (data : list byte) (off : Z) :
  0 <= off -> off + 2 <= Z.of_nat (length data) ->
  exists v, array_uint16_le data off = Some v.
Proof.
  intros H0 Hn. unfold array_uint16_le.
  destruct (load_defined data off 2 H0 ltac:(lia)) as [-> Hlen].
  destruct (firstn 2 (skipn (Z.to_nat off) data)) as [|b0 [|b1 [|b2 l]]];
    simpl in Hlen; try discriminate.
  eauto.
Qed.

Lemma memcmp2_defined (a : list byte) (offa : Z) (b : list byte) (offb n : Z) :
  0 <= offa -> 0 <= offb -> 0 <= n ->
  offa + n <= Z.of_nat (length a) -> offb + n <= Z.of_nat (length b) ->
  exists same, memcmp2_is0 a offa b offb n = Some same.
Proof.
  intros Ha Hb Hn Hla Hlb. unfold memcmp2_is0.
  destruct (load_defined a offa (Z.to_nat n) Ha ltac:(lia)) as [-> _].
  destruct (load_defined b offb (Z.to_nat n) Hb ltac:(lia)) as [-> _].
  eauto.
Qed.

(** A read of at most [size] bytes into a buffer that has room for them
    keeps the length of the buffer and the bytes after the first
    [off + size]. *)
Lemma length_store (buf : list byte) (off size : Z) (rx : list byte) :
  0 <= off -> 0 <= size -> off + size <= Z.of_nat (length buf) ->
  length (store buf off size rx) = length buf.
Proof.
  intros H0 Hs Hle. unfold store.
  rewrite !length_app, length_firstn, length_skipn, length_firstn. lia.
Qed.

Lemma skipn_store (buf : list byte) (size : Z) (rx : list byte) :
  0 <= size -> size <= Z.of_nat (length buf) ->
  skipn (Z.to_nat size) (store buf 0 size rx) = skipn (Z.to_nat size) buf.
Proof.
  intros Hs Hle. unfold store. simpl.
  set (bs := firstn (Z.to_nat size) rx).
  assert (Hbs : (length bs <= Z.to_nat size)%nat)
    by (unfold bs; rewrite length_firstn; lia).
  rewrite skipn_app, (skipn_all2 bs) by exact Hbs. simpl.
  rewrite skipn_skipn. f_equal. lia.
Qed.

Lemma EXITCODE_cases (rc : Z) :
  EXITCODE rc = DC_STATUS_IO \/ EXITCODE rc = DC_STATUS_TIMEOUT.
Proof. unfold EXITCODE. destruct (rc =? -1); auto. Qed.

Lemma EXITCODE_fails (rc : Z) : EXITCODE rc <> DC_STATUS_SUCCESS.
Proof. unfold EXITCODE. destruct (rc =? -1); discriminate. Qed.

(** ** The packet exchange *)

Lemma checksum_xor_uint8_snoc (sum : list byte) (b : byte) (init : Z) :
  checksum_xor_uint8 (sum ++ [b]) init
  = Z.lxor (checksum_xor_uint8 sum init) (byte_val b).
Proof. unfold checksum_xor_uint8. now rewrite fold_left_app. Qed.

Lemma load_snoc (data sum : list byte) (n : nat) (b : byte) :
  load data 0 n = Some sum ->
  load data (Z.of_nat n) 1 = Some [b] ->
  load data 0 (S n) = Some (sum ++ [b]).
Proof.
  unfold load.
  destruct ((0 <=? 0) && (0 + Z.of_nat n <=? Z.of_nat (length data)));
    [|discriminate].
  destruct ((0 <=? Z.of_nat n)
            && (Z.of_nat n + Z.of_nat 1 <=? Z.of_nat (length data))) eqn:Hin;
    [|discriminate].
  apply andb_true_iff in Hin as [_ Hin]. apply Z.leb_le in Hin.
  replace ((0 <=? 0) && (0 + Z.of_nat (S n) <=? Z.of_nat (length data)))
    with true by (symmetry; apply andb_true_iff; split; apply Z.leb_le; lia).
  rewrite Nat2Z.id. change (Z.to_nat 0) with 0%nat. rewrite !skipn_O.
  intros Hsum Hb. f_equal.
  assert (Hs : sum = firstn n data) by congruence.
  assert (Hb' : [b] = firstn 1 (skipn n data)) by congruence.
  rewrite Hs, Hb'.
  rewrite <- (firstn_skipn n data) at 1.
  rewrite firstn_app, length_firstn.
  replace (S n - Nat.min n (length data))%nat with 1%nat by lia.
  f_equal. rewrite firstn_firstn. f_equal. lia.
Qed.

Section PacketExchange.
Context {serial_t : Type} `{Serial serial_t}.

(** X7.  A packet exchange that returns success certifies the frame in
    the answer buffer: its first byte is the first byte of the command,
    the big-endian length at offset 1 is the size of the answer less 4,
    the parameter bytes from offset 3 on are those of the command, and
    the XOR of all the bytes of the frame, checksum included, is 0. *)
Theorem packet_success_certifies_frame
    (abstract abstract' : option (@device serial_t))
    (command : list byte) (csize : Z) (answer answer' : list byte)
    (asize size : Z) :
  suunto_vyper2_device_packet abstract command csize answer asize size
  = Some (DC_STATUS_SUCCESS, abstract', answer') ->
  (exists b, byte_at answer' 0 = Some b /\ byte_at command 0 = Some b)
  /\ (exists len, array_uint16_be answer' 1 = Some len /\ len + 4 = asize)
  /\ (exists params,
        load command 3 (Z.to_nat (uint (uint (asize - size) - 4)))
        = Some params
        /\ load answer' 3 (Z.to_nat (uint (uint (asize - size) - 4)))
           = Some params)
  /\ (exists frame,
        load answer' 0 (Z.to_nat asize) = Some frame
        /\ checksum_xor_uint8 frame 0 = 0).
Proof.
  unfold suunto_vyper2_device_packet.
  destruct (device_is_cancelled abstract); [discriminate|].
  destruct (as_suunto_vyper2 abstract) as [dev|]; [|discriminate].
  unfold bind, vy2_line, vy2_write, vy2_read, modify, ret, defined.
  cbn [vy2_port vy2_set_port].
  destruct (serial_write _ command csize) as [p2 n].
  destruct (negb (uint n =? csize)).
  { intros Heq. exfalso. apply (EXITCODE_fails n). congruence. }
  cbn [vy2_port vy2_set_port].
  destruct (serial_read _ asize) as [[p4 rx] m]. cbn [fst snd].
  destruct (negb (uint m =? asize)).
  { intros Heq. exfalso. apply (EXITCODE_fails m). congruence. }
  set (frame := store answer 0 asize rx).
  destruct (byte_at frame 0) as [a0|] eqn:Ha0; [|discriminate].
  destruct (byte_at command 0) as [c0|] eqn:Hc0; [|discriminate].
  destruct (a0 =? c0) eqn:Hecho; [|discriminate]. cbn [negb].
  destruct (array_uint16_be frame 1) as [len|] eqn:Hlen; [|discriminate].
  destruct (uint (len + 4) =? asize) eqn:Hsize; [|discriminate]. cbn [negb].
  destruct (memcmp2_is0 command 3 frame 3 _) as [[|]|] eqn:Hsame;
    try discriminate. cbn [negb].
  destruct (byte_at frame (uint (asize - 1))) as [crc|] eqn:Hcrc;
    [|discriminate].
  destruct (load frame 0 (Z.to_nat (uint (asize - 1)))) as [sum|] eqn:Hsum;
    [|discriminate].
  destruct (crc =? checksum_xor_uint8 sum 0 mod 2 ^ 8) eqn:Hxor;
    [|discriminate]. cbn [negb].
  intros Heq. assert (Hans : answer' = frame) by congruence. subst answer'.
  apply Z.eqb_eq in Hecho, Hsize, Hxor. subst c0.
  pose proof (array_uint16_be_range _ _ _ Hlen) as Hrange.
  rewrite uint_small in Hsize by lia.
  rewrite (uint_small (asize - 1)) in Hcrc, Hsum by lia.
  pose proof (checksum_xor_uint8_byte sum 0 ltac:(lia)) as Hbyte.
  rewrite Z.mod_small in Hxor by lia.
  split; [eauto|]. split; [eauto|]. split.
  - unfold memcmp2_is0 in Hsame.
    destruct (load command 3 _) as [x|]; [|discriminate].
    destruct (load frame 3 _) as [y|]; [|discriminate].
    assert (Hxy : bytes_eqb x y = true) by congruence.
    apply bytes_eqb_eq in Hxy. subst y. eauto.
  - unfold byte_at in Hcrc.
    destruct (load frame (asize - 1) 1) as [[|b [|b' l]]|] eqn:Hlast;
      try discriminate.
    assert (Hb : byte_val b = crc) by congruence.
    exists (sum ++ [b]). split.
    + replace (Z.to_nat asize) with (S (Z.to_nat (asize - 1))) by lia.
      apply load_snoc; [exact Hsum|].
      rewrite Z2Nat.id by lia. exact Hlast.
    + rewrite checksum_xor_uint8_snoc, Hb, <- Hxor. apply Z.lxor_nilpotent.
Qed.
End PacketExchange.

Lemma packet_success_certifies_frame_witness :
  (exists b, byte_at sample_reply 0 = Some b
             /\ byte_at sample_command 0 = Some b)
  /\ (exists len, array_uint16_be sample_reply 1 = Some len /\ len + 4 = 7)
  /\ (exists params,
        load sample_command 3 3 = Some params
        /\ load sample_reply 3 3 = Some params)
  /\ (exists frame,
        load sample_reply 0 7 = Some frame
        /\ checksum_xor_uint8 frame 0 = 0).
Proof.
  apply (packet_success_certifies_frame
           (Some (Suunto_vyper2
                    (vyper2_on (quiet_wire None 7 sample_reply) false)))
           (Some (Suunto_vyper2
                    (vyper2_on
                       {| wire_log := [Call_sleep 600; Call_set_rts 1;
                                       Call_write sample_command 7;
                                       Call_set_rts 0; Call_read 7];
                          wire_write := None; wire_read := 7;
                          wire_reply := sample_reply |} false)))
           sample_command 7 (repeat x00 7) sample_reply 7 0).
  reflexivity.
Defined.

Section PacketBuffers.
Context {serial_t : Type} `{Serial serial_t}.

(** Every read of the two buffers that the checks of a packet exchange
    make is inside them, so that the exchange returns. *)
Lemma packet_returns (dev : @suunto_vyper2_device_t serial_t)
    (command : list byte) (csize : Z) (answer : list byte) (asize size : Z) :
  cancel (vy2_base dev) = false ->
  0 <= size -> size + 4 <= asize -> asize < 2 ^ 32 ->
  asize <= Z.of_nat (length answer) ->
  asize - size - 1 <= Z.of_nat (length command) ->
  exists st dev' answer',
    suunto_vyper2_device_packet (Some (Suunto_vyper2 dev))
                                command csize answer asize size
    = Some (st, Some (Suunto_vyper2 dev'), answer')
    /\ vy2_base dev' = vy2_base dev
    /\ length answer' = length answer
    /\ skipn (Z.to_nat asize) answer' = skipn (Z.to_nat asize) answer
    /\ (st = DC_STATUS_SUCCESS \/ st = DC_STATUS_IO
        \/ st = DC_STATUS_TIMEOUT \/ st = DC_STATUS_PROTOCOL).
Proof.
  intros Hc Hsize Hfit Hmax Hanswer Hcommand.
  unfold suunto_vyper2_device_packet, device_is_cancelled.
  simpl base_of. rewrite Hc. simpl as_suunto_vyper2.
  unfold bind, vy2_line, vy2_write, vy2_read, modify, ret, defined.
  cbn [vy2_port vy2_set_port].
  destruct (serial_write _ command csize) as [p2 n].
  destruct (negb (uint n =? csize)).
  { do 3 eexists. split; [reflexivity|]. repeat split.
    destruct (EXITCODE_cases n) as [-> | ->]; auto. }
  cbn [vy2_port vy2_set_port].
  destruct (serial_read _ asize) as [[p4 rx] m]. cbn [fst snd].
  pose proof (length_store answer 0 asize rx ltac:(lia) ltac:(lia) ltac:(lia))
    as Hlen.
  pose proof (skipn_store answer asize rx ltac:(lia) Hanswer) as Hrest.
  set (frame := store answer 0 asize rx) in *.
  destruct (negb (uint m =? asize)).
  { do 3 eexists. split; [reflexivity|]. repeat split; auto.
    destruct (EXITCODE_cases m) as [-> | ->]; auto. }
  destruct (byte_at_defined frame 0) as [a0 ->]; [lia..|].
  destruct (byte_at_defined command 0) as [c0 ->]; [lia..|].
  destruct (negb (a0 =? c0)).
  { do 3 eexists. split; [reflexivity|]. repeat split; auto. }
  destruct (array_uint16_be_defined frame 1) as [len ->]; [lia..|].
  destruct (negb (uint (len + 4) =? asize)).
  { do 3 eexists. split; [reflexivity|]. repeat split; auto. }
  rewrite (uint_small (asize - size)) by lia.
  rewrite (uint_small (asize - size - 4)) by lia.
  destruct (memcmp2_defined command 3 frame 3 (asize - size - 4))
    as [same ->]; [lia..|].
  destruct (negb same).
  { do 3 eexists. split; [reflexivity|]. repeat split; auto. }
  rewrite (uint_small (asize - 1)) by lia.
  destruct (byte_at_defined frame (asize - 1)) as [crc ->]; [lia..|].
  destruct (load_defined frame 0 (Z.to_nat (asize - 1))) as [-> _]; [lia..|].
  destruct (negb (crc =? _));
    do 3 eexists; (split; [reflexivity|]); repeat split; auto.
Qed.
End PacketBuffers.

Ltac packet_leaf :=
  let Heq := fresh "Heq" in
  intros Heq; injection Heq as <- <- <-;
  eexists; split; [reflexivity|];
  cbn [vy2_port vy2_set_port traced_call traced_port trace];
  rewrite <- !app_assoc; repeat split; reflexivity.

Section PacketCalls.
Context {T : Type} `{Serial T}.

(** What a packet exchange asks of the port, by what the write of the
    command returned. *)
Lemma packet_port_calls (dev : @suunto_vyper2_device_t (traced T))
    (command : list byte) (csize : Z) (answer : list byte) (asize size : Z)
    (st : dc_status_t) (abstract' : option (@device (traced T)))
    (answer' : list byte) :
  cancel (vy2_base dev) = false ->
  suunto_vyper2_device_packet (Some (Suunto_vyper2 dev))
                              command csize answer asize size
  = Some (st, abstract', answer') ->
  let sent :=
    serial_write
      (serial_set_rts (serial_sleep (traced_port (vy2_port dev)) 600) 1)
      command csize in
  let got := serial_read (serial_set_rts (fst sent) 0) asize in
  exists dev',
    abstract' = Some (Suunto_vyper2 dev')
    /\ (if uint (snd sent) =? csize
        then trace (vy2_port dev')
             = trace (vy2_port dev)
               ++ [Call_sleep 600; Call_set_rts 1; Call_write command csize;
                   Call_set_rts 0; Call_read asize]
             /\ traced_port (vy2_port dev') = fst (fst got)
             /\ answer' = store answer 0 asize (snd (fst got))
        else trace (vy2_port dev')
             = trace (vy2_port dev)
               ++ [Call_sleep 600; Call_set_rts 1; Call_write command csize]
             /\ traced_port (vy2_port dev') = fst sent
             /\ answer' = answer
             /\ st = EXITCODE (snd sent)).
Proof.
  intros Hc. cbv zeta.
  unfold suunto_vyper2_device_packet, device_is_cancelled.
  simpl base_of. rewrite Hc. simpl as_suunto_vyper2.
  unfold bind, vy2_line, vy2_write, vy2_read, modify, ret, defined.
  cbn [vy2_port vy2_set_port serial_write serial_read serial_set_rts
       serial_sleep traced_serial traced_call traced_port trace].
  destruct (serial_write _ command csize) as [p2 n].
  cbn [fst snd vy2_port vy2_set_port traced_call traced_port trace].
  destruct (uint n =? csize); cbn [negb]; [|packet_leaf].
  cbn [vy2_port vy2_set_port serial_write serial_read serial_set_rts
       serial_sleep traced_serial traced_call traced_port trace].
  destruct (serial_read _ asize) as [[p4 rx] m].
  cbn [fst snd vy2_port vy2_set_port traced_call traced_port trace].
  set (frame := store answer 0 asize rx).
  destruct (negb (uint m =? asize)); [packet_leaf|].
  destruct (byte_at frame 0) as [a0|]; [|discriminate].
  destruct (byte_at command 0) as [c0|]; [|discriminate].
  destruct (negb (a0 =? c0)); [packet_leaf|].
  destruct (array_uint16_be frame 1) as [len|]; [|discriminate].
  destruct (negb (uint (len + 4) =? asize)); [packet_leaf|].
  destruct (memcmp2_is0 command 3 frame 3 _) as [same|]; [|discriminate].
  destruct (negb same); [packet_leaf|].
  destruct (byte_at frame (uint (asize - 1))) as [crc|]; [|discriminate].
  destruct (load frame 0 _) as [sum|]; [|discriminate].
  destruct (negb (crc =? _)); packet_leaf.
Qed.

(** X8.  A packet exchange stays inside its two buffers.  With a
    command of at least [csize] bytes and an answer buffer of at least
    [asize] bytes, on a handle that is not cancelled, the exchange
    returns: no check of the reply (header byte, length field, echoed
    parameters, checksum) reads outside the command or the answer.  Of
    the calls it makes on the port, the write is given the command and
    asks for [csize] of its bytes, and the read asks for [asize] bytes
    of the answer, no more than there are.  The status is success, an
    I/O error, a timeout or a protocol error; the answer buffer keeps
    its length and its bytes from [asize] on; the base of the handle
    is as it was. *)
Theorem packet_stays_inside_buffers
    (dev : @suunto_vyper2_device_t (traced T))
    (command : list byte) (csize : Z) (answer : list byte) (asize size : Z) :
  cancel (vy2_base dev) = false ->
  0 <= csize <= Z.of_nat (length command) ->
  0 <= size -> size + 4 <= asize -> asize < 2 ^ 32 ->
  asize <= Z.of_nat (length answer) ->
  asize - size - 1 <= Z.of_nat (length command) ->
  exists st dev' answer' calls,
    suunto_vyper2_device_packet (Some (Suunto_vyper2 dev))
                                command csize answer asize size
    = Some (st, Some (Suunto_vyper2 dev'), answer')
    /\ vy2_base dev' = vy2_base dev
    /\ length answer' = length answer
    /\ skipn (Z.to_nat asize) answer' = skipn (Z.to_nat asize) answer
    /\ (st = DC_STATUS_SUCCESS \/ st = DC_STATUS_IO
        \/ st = DC_STATUS_TIMEOUT \/ st = DC_STATUS_PROTOCOL)
    /\ trace (vy2_port dev') = trace (vy2_port dev) ++ calls
    /\ Forall (call_inside command answer) calls.
Proof.
  intros Hc Hcsize Hsize Hfit Hmax Hanswer Hcommand.
  destruct (packet_returns dev command csize answer asize size
              Hc Hsize Hfit Hmax Hanswer Hcommand)
    as (st & dev' & answer' & Hrun & Hbase & Hlen & Hrest & Hst).
  destruct (packet_port_calls dev command csize answer asize size
              st _ answer' Hc Hrun) as (dev1 & Hdev & Hcalls).
  injection Hdev as <-.
  exists st, dev', answer'.
  destruct (uint (snd _) =? csize).
  - destruct Hcalls as (Htrace & _).
    eexists. repeat (split; [eassumption|]).
    repeat constructor; simpl; lia.
  - destruct Hcalls as (Htrace & _).
    eexists. repeat (split; [eassumption|]).
    repeat constructor; simpl; lia.
Qed.

(** X9.  The calls a packet exchange makes on the port, on a handle
    that is not cancelled, by what the write of the command returns.
    Always: the settle delay of 600 ms, RTS set, one write of [csize]
    bytes of the command.  When the write returns another count than
    [csize], nothing follows: the port stays as the write left it, RTS
    still set, the answer buffer is untouched and the status is that
    of the count (an I/O error for -1, a timeout for any other).  When the write returns [csize]: RTS cleared and
    one read of [asize] bytes, whose bytes are in the answer buffer
    whatever the checks of the reply say.  Nothing is sent or read a
    second time. *)
Theorem packet_calls (dev : @suunto_vyper2_device_t (traced T))
    (command : list byte) (csize : Z) (answer : list byte) (asize size : Z)
    (st : dc_status_t) (abstract' : option (@device (traced T)))
    (answer' : list byte) :
  cancel (vy2_base dev) = false ->
  suunto_vyper2_device_packet (Some (Suunto_vyper2 dev))
                              command csize answer asize size
  = Some (st, abstract', answer') ->
  let sent :=
    serial_write
      (serial_set_rts (serial_sleep (traced_port (vy2_port dev)) 600) 1)
      command csize in
  let got := serial_read (serial_set_rts (fst sent) 0) asize in
  exists dev',
    abstract' = Some (Suunto_vyper2 dev')
    /\ (uint (snd sent) <> csize ->
        trace (vy2_port dev')
        = trace (vy2_port dev)
          ++ [Call_sleep 600; Call_set_rts 1; Call_write command csize]
        /\ traced_port (vy2_port dev') = fst sent
        /\ answer' = answer
        /\ st = EXITCODE (snd sent))
    /\ (uint (snd sent) = csize ->
        trace (vy2_port dev')
        = trace (vy2_port dev)
          ++ [Call_sleep 600; Call_set_rts 1; Call_write command csize;
              Call_set_rts 0; Call_read asize]
        /\ traced_port (vy2_port dev') = fst (fst got)
        /\ answer' = store answer 0 asize (snd (fst got))).
Proof.
  intros Hc Hrun sent got.
  destruct (packet_port_calls dev command csize answer asize size
              st abstract' answer' Hc Hrun) as (dev' & Hdev & Hcalls).
  fold sent in Hcalls. fold got in Hcalls.
  exists dev'. split; [exact Hdev|].
  destruct (uint (snd sent) =? csize) eqn:Hn;
    [apply Z.eqb_eq in Hn|apply Z.eqb_neq in Hn]; split; intros Hn';
    first [exact Hcalls|contradiction].
Qed.
End PacketCalls.

Lemma packet_stays_inside_buffers_witness :
  exists st dev' answer' calls,
    suunto_vyper2_device_packet
      (Some (Suunto_vyper2
               {| vy2_base := {| backend := suunto_vyper2_device_backend;
                                 cancel := false; events := [] |};
                  vy2_port := untraced (quiet_wire None 7 sample_reply) |}))
      sample_command 7 (repeat x00 9) 7 0
    = Some (st, Some (Suunto_vyper2 dev'), answer')
    /\ vy2_base dev'
       = {| backend := suunto_vyper2_device_backend;
            cancel := false; events := [] |}
    /\ length answer' = 9%nat
    /\ skipn 7 answer' = [x00; x00]
    /\ (st = DC_STATUS_SUCCESS \/ st = DC_STATUS_IO
        \/ st = DC_STATUS_TIMEOUT \/ st = DC_STATUS_PROTOCOL)
    /\ trace (vy2_port dev') = [] ++ calls
    /\ Forall (call_inside sample_command (repeat x00 9)) calls.
Proof.
  apply (packet_stays_inside_buffers
           {| vy2_base := {| backend := suunto_vyper2_device_backend;
                             cancel := false; events := [] |};
              vy2_port := untraced (quiet_wire None 7 sample_reply) |}
           sample_command 7 (repeat x00 9) 7 0).
  - reflexivity.
  - simpl. lia.
  - lia.
  - lia.
  - lia.
  - simpl. lia.
  - simpl. lia.
Defined.

Lemma packet_calls_witness :
  let sent :=
    serial_write
      (serial_set_rts
         (serial_sleep (quiet_wire (Some 3) 7 sample_reply) 600) 1)
      sample_command 7 in
  let got := serial_read (serial_set_rts (fst sent) 0) 7 in
  snd sent = 3
  /\ exists dev',
       Some (Suunto_vyper2
               {| vy2_base := {| backend := suunto_vyper2_device_backend;
                                 cancel := false; events := [] |};
                  vy2_port :=
                    {| traced_port := fst sent;
                       trace := [Call_sleep 600; Call_set_rts 1;
                                 Call_write sample_command 7] |} |})
       = Some (Suunto_vyper2 dev')
       /\ (uint (snd sent) <> 7 ->
           trace (vy2_port dev')
           = [] ++ [Call_sleep 600; Call_set_rts 1;
                    Call_write sample_command 7]
           /\ traced_port (vy2_port dev') = fst sent
           /\ repeat x00 7 = repeat x00 7
           /\ DC_STATUS_TIMEOUT = EXITCODE (snd sent))
       /\ (uint (snd sent) = 7 ->
           trace (vy2_port dev')
           = [] ++ [Call_sleep 600; Call_set_rts 1;
                    Call_write sample_command 7;
                    Call_set_rts 0; Call_read 7]
           /\ traced_port (vy2_port dev') = fst (fst got)
           /\ repeat x00 7 = store (repeat x00 7) 0 7 (snd (fst got))).
Proof.
  split; [reflexivity|].
  assert (Hc : cancel {| backend := suunto_vyper2_device_backend;
                         cancel := false; events := [] |} = false)
    by reflexivity.
  assert (Hrun :
    suunto_vyper2_device_packet
      (Some (Suunto_vyper2
               {| vy2_base := {| backend := suunto_vyper2_device_backend;
                                 cancel := false; events := [] |};
                  vy2_port :=
                    untraced (quiet_wire (Some 3) 7 sample_reply) |}))
      sample_command 7 (repeat x00 7) 7 0
    = Some (DC_STATUS_TIMEOUT,
            Some (Suunto_vyper2
                    {| vy2_base := {| backend := suunto_vyper2_device_backend;
                                      cancel := false; events := [] |};
                       vy2_port :=
                         {| traced_port :=
                              fst (serial_write
                                     (serial_set_rts
                                        (serial_sleep
                                           (quiet_wire (Some 3) 7 sample_reply)
                                           600) 1)
                                     sample_command 7);
                            trace := [Call_sleep 600; Call_set_rts 1;
                                      Call_write sample_command 7] |} |}),
            repeat x00 7))
    by reflexivity.
  exact (packet_calls
           {| vy2_base := {| backend := suunto_vyper2_device_backend;
                             cancel := false; events := [] |};
              vy2_port := untraced (quiet_wire (Some 3) 7 sample_reply) |}
           sample_command 7 (repeat x00 7) 7 0 _ _ _ Hc Hrun).
Defined.

(** ** The Sensus Pro link *)

Lemma handshake_frame_length (hsize : Z) (rx : list byte) :
  0 <= hsize ->
  Z.of_nat (length (handshake_frame hsize rx)) = hsize + 2.
Proof.
  intros H0. unfold handshake_frame.
  rewrite length_store; rewrite ?repeat_length; lia.
Qed.

Lemma rsp_kept_refl {serial_t : Type}
    (d : @reefnet_sensuspro_device_t serial_t) : rsp_kept d d.
Proof.
  unfold rsp_kept. repeat split. exists []. now rewrite app_nil_r.
Qed.

Lemma rsp_kept_trans {serial_t : Type}
    (a b c : @reefnet_sensuspro_device_t serial_t) :
  rsp_kept a b -> rsp_kept b c -> rsp_kept a c.
Proof.
  intros (Hb1 & Hc1 & Ht1 & e1 & He1) (Hb2 & Hc2 & Ht2 & e2 & He2).
  unfold rsp_kept. repeat split; try congruence.
  exists (e1 ++ e2). rewrite He2, He1. now rewrite app_assoc.
Qed.

Lemma rsp_kept_port {serial_t : Type}
    (d : @reefnet_sensuspro_device_t serial_t) (p : serial_t) :
  rsp_kept d (rsp_set_port d p).
Proof.
  unfold rsp_kept. simpl. repeat split. exists []. now rewrite app_nil_r.
Qed.

Lemma rsp_kept_emit {serial_t : Type}
    (d : @reefnet_sensuspro_device_t serial_t) (ev : dc_event) :
  rsp_kept d (rsp_set_base d (device_event_emit ev (rsp_base d))).
Proof.
  unfold rsp_kept. simpl. repeat split. now exists [ev].
Qed.

Lemma rsp_kept_woken {serial_t : Type}
    (d : @reefnet_sensuspro_device_t serial_t) (p : serial_t)
    (payload : list byte) (systime devtime model firmware serial : Z) :
  rsp_kept d (rsp_woken d p payload systime devtime model firmware serial).
Proof.
  unfold rsp_kept. simpl. repeat split.
  exists [DC_EVENT_CLOCK systime devtime;
          DC_EVENT_DEVINFO model firmware serial].
  now rewrite <- app_assoc.
Qed.

Section ReefnetLink.
Context {serial_t : Type} `{Serial serial_t}.
Variable HS : Z.
Variable crc16 : list byte -> Z.
Variable now : Z.
Hypothesis HHS : 8 <= HS.

(** The handshake returns, whatever the port delivers. *)
Lemma handshake_outcome (d : @reefnet_sensuspro_device_t serial_t)
    (p2 : serial_t) (rx : list byte) (rc : Z) :
  serial_read (serial_set_break (rsp_port d) 1) (HS + 2) = (p2, rx, rc) ->
  exists crcv devtime model firmware serial,
    array_uint16_le (handshake_frame HS rx) HS = Some crcv
    /\ array_uint32_le (handshake_frame HS rx) 6 = Some devtime
    /\ byte_at (handshake_frame HS rx) 0 = Some model
    /\ byte_at (handshake_frame HS rx) 1 = Some firmware
    /\ array_uint16_le (handshake_frame HS rx) 4 = Some serial
    /\ reefnet_sensuspro_handshake HS crc16 now d
       = Some
           (if negb (rc =? HS + 2)
            then (EXITCODE rc, rsp_set_port d p2)
            else if negb (crcv
                          =? crc16 (firstn (Z.to_nat HS)
                                           (handshake_frame HS rx))
                             mod 2 ^ 16)
            then (DC_STATUS_PROTOCOL,
                  rsp_set_port d (serial_set_break p2 0))
            else (DC_STATUS_SUCCESS,
                  rsp_woken d (serial_sleep (serial_set_break p2 0) 10)
                    (firstn (Z.to_nat HS) (handshake_frame HS rx))
                    now devtime model firmware serial)).
Proof.
  intros Hread.
  pose proof (handshake_frame_length HS rx ltac:(lia)) as Hlen.
  destruct (array_uint16_le_defined (handshake_frame HS rx) HS)
    as [crcv Hcrc]; [lia..|].
  destruct (array_uint32_le_defined (handshake_frame HS rx) 6)
    as [devtime Hdev]; [lia..|].
  destruct (byte_at_defined (handshake_frame HS rx) 0)
    as [model Hmodel]; [lia..|].
  destruct (byte_at_defined (handshake_frame HS rx) 1)
    as [firmware Hfirm]; [lia..|].
  destruct (array_uint16_le_defined (handshake_frame HS rx) 4)
    as [serial Hserial]; [lia..|].
  exists crcv, devtime, model, firmware, serial.
  repeat (split; [assumption|]).
  unfold reefnet_sensuspro_handshake, bind, rsp_line, rsp_read, rsp_emit,
    modify, ret, defined.
  cbn [rsp_port rsp_set_port]. rewrite Hread. cbn [fst snd].
  fold (handshake_frame HS rx).
  destruct (negb (rc =? HS + 2)); [reflexivity|].
  rewrite Hcrc.
  destruct (negb (crcv =? _)); [reflexivity|].
  rewrite Hdev, Hmodel, Hfirm, Hserial. reflexivity.
Qed.

Lemma handshake_returns (d : @reefnet_sensuspro_device_t serial_t) :
  exists st d1, reefnet_sensuspro_handshake HS crc16 now d = Some (st, d1).
Proof.
  destruct (serial_read (serial_set_break (rsp_port d) 1) (HS + 2))
    as [[p2 rx] rc] eqn:Hread.
  destruct (handshake_outcome d p2 rx rc Hread)
    as (crcv & devtime & model & firmware & serial & _ & _ & _ & _ & _ & ->).
  destruct (negb (rc =? HS + 2)); [eauto|].
  destruct (negb (crcv =? _)); eauto.
Qed.

Lemma handshake_kept (d d1 : @reefnet_sensuspro_device_t serial_t)
    (st : dc_status_t) :
  reefnet_sensuspro_handshake HS crc16 now d = Some (st, d1) ->
  rsp_kept d d1
  /\ (st = DC_STATUS_SUCCESS \/ st = DC_STATUS_IO
      \/ st = DC_STATUS_TIMEOUT \/ st = DC_STATUS_PROTOCOL).
Proof.
  destruct (serial_read (serial_set_break (rsp_port d) 1) (HS + 2))
    as [[p2 rx] rc] eqn:Hread.
  destruct (handshake_outcome d p2 rx rc Hread)
    as (crcv & devtime & model & firmware & serial & _ & _ & _ & _ & _ & ->).
  destruct (negb (rc =? HS + 2)).
  { intros Heq. injection Heq as <- <-. split; [apply rsp_kept_port|].
    destruct (EXITCODE_cases rc) as [-> | ->]; auto. }
  destruct (negb (crcv =? _)); intros Heq; injection Heq as <- <-.
  - split; [apply rsp_kept_port|auto].
  - split; [apply rsp_kept_woken|auto].
Qed.

(** The command byte is written when the handshake went through, and
    only then. *)
Lemma send_outcome (command : byte)
    (d d1 : @reefnet_sensuspro_device_t serial_t) (st : dc_status_t) :
  reefnet_sensuspro_handshake HS crc16 now d = Some (st, d1) ->
  reefnet_sensuspro_send HS crc16 now command d
  = Some
      (if status_is_success st
       then (if negb (snd (serial_write (rsp_port d1) [command] 1) =? 1)
             then EXITCODE (snd (serial_write (rsp_port d1) [command] 1))
             else DC_STATUS_SUCCESS,
             rsp_set_port d1 (fst (serial_write (rsp_port d1) [command] 1)))
       else (st, d1)).
Proof.
  intros Hh. unfold reefnet_sensuspro_send, bind. rewrite Hh.
  destruct (status_is_success st); [|reflexivity]. cbn [negb].
  unfold rsp_write, ret.
  destruct (serial_write (rsp_port d1) [command] 1) as [p n]. cbn [fst snd].
  destruct (negb (n =? 1)); reflexivity.
Qed.

Lemma send_kept (command : byte)
    (d d2 : @reefnet_sensuspro_device_t serial_t) (st : dc_status_t) :
  reefnet_sensuspro_send HS crc16 now command d = Some (st, d2) ->
  rsp_kept d d2
  /\ (st = DC_STATUS_SUCCESS \/ st = DC_STATUS_IO
      \/ st = DC_STATUS_TIMEOUT \/ st = DC_STATUS_PROTOCOL).
Proof.
  destruct (handshake_returns d) as (st1 & d1 & Hh).
  rewrite (send_outcome command d d1 st1 Hh).
  destruct (handshake_kept d d1 st1 Hh) as [Hk Hst].
  destruct (status_is_success st1).
  - intros Heq. injection Heq as <- <-. split.
    + eapply rsp_kept_trans; [exact Hk|apply rsp_kept_port].
    + destruct (negb _); [|auto].
      destruct (EXITCODE_cases (snd (serial_write (rsp_port d1) [command] 1)))
        as [-> | ->]; auto.
  - intros Heq. injection Heq as <- <-. split; assumption.
Qed.

Lemma send_returns (command : byte)
    (d : @reefnet_sensuspro_device_t serial_t) :
  exists st d2, reefnet_sensuspro_send HS crc16 now command d = Some (st, d2).
Proof.
  destruct (handshake_returns d) as (st1 & d1 & Hh).
  rewrite (send_outcome command d d1 st1 Hh).
  destruct (status_is_success st1); eauto.
Qed.
End ReefnetLink.

(** ** The memory dump *)

Lemma dump_progress_done (total : Z) : dump_progress total total = [].
Proof.
  unfold dump_progress.
  replace (total - total + 255) with 255 by lia. reflexivity.
Qed.

Lemma dump_progress_step (from total : Z) :
  from < total ->
  let len := if 256 <? total - from then 256 else total - from in
  dump_progress from total
  = DC_EVENT_PROGRESS (from + len) total :: dump_progress (from + len) total.
Proof.
  intros Hlt len. unfold dump_progress.
  destruct (256 <? total - from) eqn:Hbig; subst len.
  - apply Z.ltb_lt in Hbig.
    replace (Z.to_nat ((total - from + 255) / 256))
      with (S (Z.to_nat ((total - (from + 256) + 255) / 256))).
    2:{ replace (total - from + 255)
          with ((total - (from + 256) + 255) + 1 * 256) by lia.
        rewrite Z.div_add by lia.
        assert (0 <= (total - (from + 256) + 255) / 256)
          by (apply Z.div_pos; lia).
        lia. }
    cbn [seq map]. f_equal.
    + f_equal. lia.
    + rewrite <- seq_shift, map_map. apply map_ext. intros k.
      f_equal. f_equal. lia.
  - apply Z.ltb_ge in Hbig.
    replace (Z.to_nat ((total - from + 255) / 256)) with 1%nat.
    2:{ assert ((total - from + 255) / 256 = 1); [|lia].
        symmetry. apply (Z.div_unique _ _ _ (total - from - 1)); lia. }
    replace (from + (total - from)) with total by lia.
    replace (total - total + 255) with 255 by lia.
    cbn [seq map]. f_equal. f_equal. lia.
Qed.

Section ReefnetDump.
Context {serial_t : Type} `{Serial serial_t}.
Variable MEM : Z.
Hypothesis HMAX : MEM + 2 < 2 ^ 32.

(** The read loop of the dump returns: with the answer, filled to its
    whole size, after a progress report for every chunk, or with the
    failure of a read. *)
Lemma dump_read_outcome (fuel : nat) :
  forall (answer : list byte) (nbytes : Z)
         (d : @reefnet_sensuspro_device_t serial_t),
    0 <= nbytes <= MEM + 2 ->
    (Z.to_nat (MEM + 2 - nbytes) < fuel)%nat ->
    Z.of_nat (length answer) = MEM + 2 ->
    exists out d',
      dump_read MEM fuel answer nbytes nbytes d = Some (out, d')
      /\ rsp_kept d d'
      /\ match out with
         | inr answer' =>
             Z.of_nat (length answer') = MEM + 2
             /\ events (rsp_base d')
                = events (rsp_base d) ++ dump_progress nbytes (MEM + 2)
             /\ dump_received (MEM + 2) fuel (rsp_port d) answer nbytes
                = Some answer'
         | inl st => st = DC_STATUS_IO \/ st = DC_STATUS_TIMEOUT
         end.
Proof.
  induction fuel as [|fuel IH]; intros answer nbytes d Hn Hfuel Hlen; [lia|].
  cbn [dump_read dump_received].
  destruct (nbytes <? MEM + 2) eqn:Hmore.
  - apply Z.ltb_lt in Hmore.
    rewrite (uint_small (MEM + 2 - nbytes)) by lia.
    pose proof (dump_progress_step nbytes (MEM + 2) Hmore) as Hstep.
    cbv zeta in Hstep.
    set (len := if 256 <? MEM + 2 - nbytes then 256 else MEM + 2 - nbytes)
      in *.
    assert (Hlen' : 0 < len /\ nbytes + len <= MEM + 2).
    { unfold len. destruct (256 <? MEM + 2 - nbytes) eqn:Hbig;
        [apply Z.ltb_lt in Hbig|]; lia. }
    unfold bind, rsp_read.
    destruct (serial_read (rsp_port d) len) as [[p rx] n]. cbn [fst snd].
    destruct (uint n =? len); cbn [negb].
    2:{ exists (inl (EXITCODE n)), (rsp_set_port d p).
      split; [reflexivity|]. split; [apply rsp_kept_port|].
      apply EXITCODE_cases. }
    { unfold rsp_emit, modify.
      rewrite (uint_small (nbytes + len)) by lia.
      destruct (IH (store answer nbytes len rx) (nbytes + len)
                   (rsp_set_base (rsp_set_port d p)
                      (device_event_emit
                         (DC_EVENT_PROGRESS (nbytes + len) (MEM + 2))
                         (rsp_base (rsp_set_port d p)))))
        as (out & d' & Hrun & Hkept & Hout).
      * lia.
      * lia.
      * rewrite length_store; lia.
      * exists out, d'. split; [exact Hrun|]. split.
        { eapply rsp_kept_trans; [|exact Hkept].
          eapply rsp_kept_trans; [apply rsp_kept_port|apply rsp_kept_emit]. }
        destruct out as [st|answer']; [exact Hout|].
        destruct Hout as (Hl & Hev & Hrx). split; [exact Hl|].
        split; [|exact Hrx].
        rewrite Hev, Hstep. cbn [rsp_base rsp_set_base rsp_set_port events
                                   device_event_emit].
        now rewrite <- app_assoc. }
  - apply Z.ltb_ge in Hmore. assert (nbytes = MEM + 2) by lia. subst nbytes.
    exists (inr answer), d. split; [reflexivity|].
    split; [apply rsp_kept_refl|]. split; [exact Hlen|].
    split; [|reflexivity].
    rewrite dump_progress_done. now rewrite app_nil_r.
Qed.
End ReefnetDump.

Lemma status_is_success_inv (st : dc_status_t) :
  status_is_success st = true -> st = DC_STATUS_SUCCESS.
Proof. destruct st; simpl; congruence. Qed.

Lemma status_is_failure_inv (st : dc_status_t) :
  status_is_success st = false -> st <> DC_STATUS_SUCCESS.
Proof. destruct st; simpl; congruence. Qed.

Section ReefnetCommand.
Context {serial_t : Type} `{Serial serial_t}.
Variable HS : Z.
Variable crc16 : list byte -> Z.
Variable now : Z.
Hypothesis HHS : 8 <= HS.

(** What a command that was sent tells of the exchange: the frame of
    the handshake was read whole, its CRC was right, and the command
    byte was written after the settle delay. *)
Lemma send_success (command : byte)
    (d d2 : @reefnet_sensuspro_device_t serial_t) :
  reefnet_sensuspro_send HS crc16 now command d
  = Some (DC_STATUS_SUCCESS, d2) ->
  exists p2 rx p3 devtime model firmware serial,
    serial_read (serial_set_break (rsp_port d) 1) (HS + 2)
    = (p2, rx, HS + 2)
    /\ array_uint16_le (handshake_frame HS rx) HS
       = Some (crc16 (firstn (Z.to_nat HS) (handshake_frame HS rx))
               mod 2 ^ 16)
    /\ array_uint32_le (handshake_frame HS rx) 6 = Some devtime
    /\ byte_at (handshake_frame HS rx) 0 = Some model
    /\ byte_at (handshake_frame HS rx) 1 = Some firmware
    /\ array_uint16_le (handshake_frame HS rx) 4 = Some serial
    /\ serial_write (serial_sleep (serial_set_break p2 0) 10) [command] 1
       = (p3, 1)
    /\ d2 = rsp_woken d p3 (firstn (Z.to_nat HS) (handshake_frame HS rx))
              now devtime model firmware serial.
Proof.
  destruct (serial_read (serial_set_break (rsp_port d) 1) (HS + 2))
    as [[p2 rx] rc] eqn:Hread.
  destruct (handshake_outcome HS crc16 now HHS d p2 rx rc Hread)
    as (crcv & devtime & model & firmware & serial
        & Hcrc & Hdev & Hmodel & Hfirm & Hserial & Hh).
  destruct (rc =? HS + 2) eqn:Hrc; cbn [negb] in Hh.
  2:{ rewrite (send_outcome HS crc16 now command d _ _ Hh).
      destruct (EXITCODE_cases rc) as [-> | ->]; discriminate. }
  destruct (crcv =? _) eqn:Hok; cbn [negb] in Hh.
  2:{ rewrite (send_outcome HS crc16 now command d _ _ Hh). discriminate. }
  rewrite (send_outcome HS crc16 now command d _ _ Hh).
  cbn [status_is_success rsp_woken rsp_port].
  destruct (serial_write _ [command] 1) as [p3 n] eqn:Hwrite. cbn [fst snd].
  destruct (n =? 1) eqn:Hn; cbn [negb].
  2:{ intros Heq. exfalso. apply (EXITCODE_fails n). congruence. }
  intros Heq. apply Z.eqb_eq in Hrc, Hok, Hn. subst rc n crcv.
  exists p2, rx, p3, devtime, model, firmware, serial.
  repeat (split; [first [reflexivity|assumption]|]).
  injection Heq as <-. reflexivity.
Qed.
End ReefnetCommand.

Section ReefnetDumpAll.
Context {serial_t : Type} `{Serial serial_t}.
Variables HS MEM : Z.
Variable crc16 : list byte -> Z.
Variable now : Z.
Variable can_allocate : Z -> bool.
Hypothesis HHS : 8 <= HS.
Hypothesis HMEM : 0 <= MEM.
Hypothesis HMAX : MEM + 2 < 2 ^ 32.

(** Every way a dump can end. *)
Lemma dump_outcome (d : @reefnet_sensuspro_device_t serial_t)
    (buffer : option dc_buffer_t) :
  backend (rsp_base d) = reefnet_sensuspro_device_backend ->
  exists st d' buffer',
    reefnet_sensuspro_device_dump HS MEM crc16 now can_allocate
      (Some (Reefnet_sensuspro d)) buffer
    = Some (st, Some (Reefnet_sensuspro d'), buffer')
    /\ rsp_kept d d'
    /\ ((st = DC_STATUS_NOMEMORY /\ d' = d
         /\ ((buffer = None /\ buffer' = None)
             \/ (can_allocate MEM = false /\ buffer' = Some [])))
        \/ ((st = DC_STATUS_IO \/ st = DC_STATUS_TIMEOUT
             \/ st = DC_STATUS_PROTOCOL)
            /\ buffer <> None /\ can_allocate MEM = true
            /\ buffer' = Some [])
        \/ (st = DC_STATUS_SUCCESS
            /\ buffer <> None /\ can_allocate MEM = true
            /\ exists answer devtime model firmware serial,
                 Z.of_nat (length answer) = MEM + 2
                 /\ buffer' = Some (firstn (Z.to_nat MEM) answer)
                 /\ array_uint16_le answer MEM
                    = Some (crc16 (firstn (Z.to_nat MEM) answer) mod 2 ^ 16)
                 /\ events (rsp_base d')
                    = events (rsp_base d)
                      ++ [DC_EVENT_PROGRESS 0 (MEM + 2);
                          DC_EVENT_CLOCK now devtime;
                          DC_EVENT_DEVINFO model firmware serial]
                      ++ dump_progress 0 (MEM + 2)
                 /\ exists p2 rx p3,
                      serial_read (serial_set_break (rsp_port d) 1) (HS + 2)
                      = (p2, rx, HS + 2)
                      /\ serial_write
                           (serial_sleep (serial_set_break p2 0) 10) [xb4] 1
                         = (p3, 1)
                      /\ array_uint16_le (handshake_frame HS rx) HS
                         = Some (crc16 (firstn (Z.to_nat HS)
                                               (handshake_frame HS rx))
                                 mod 2 ^ 16)
                      /\ array_uint32_le (handshake_frame HS rx) 6
                         = Some devtime
                      /\ byte_at (handshake_frame HS rx) 0 = Some model
                      /\ byte_at (handshake_frame HS rx) 1 = Some firmware
                      /\ array_uint16_le (handshake_frame HS rx) 4
                         = Some serial
                      /\ dump_received (MEM + 2) (S (Z.to_nat (MEM + 2))) p3
                           (repeat x00 (Z.to_nat (MEM + 2))) 0
                         = Some answer)).
Proof.
  intros Hb.
  unfold reefnet_sensuspro_device_dump, device_is_reefnet_sensuspro.
  simpl base_of. rewrite Hb. simpl backend_eqb. cbn [negb].
  simpl as_reefnet_sensuspro.
  destruct buffer as [b|]; cbn [dc_buffer_clear].
  2:{ simpl. exists DC_STATUS_NOMEMORY, d, None.
      split; [reflexivity|]. split; [apply rsp_kept_refl|]. left. auto. }
  change (1 =? 0) with false. cbn [orb]. unfold dc_buffer_reserve.
  destruct (can_allocate MEM) eqn:Hroom.
  2:{ simpl. exists DC_STATUS_NOMEMORY, d, (Some []).
      split; [reflexivity|]. split; [apply rsp_kept_refl|]. left. auto. }
  change (1 =? 0) with false. cbv iota.
  unfold bind at 1. unfold rsp_emit at 1. unfold modify at 1.
  set (d0 := rsp_set_base d
               (device_event_emit (DC_EVENT_PROGRESS 0 (MEM + 2))
                                  (rsp_base d))).
  assert (Hk0 : rsp_kept d d0) by apply rsp_kept_emit.
  unfold bind at 1.
  destruct (send_returns HS crc16 now HHS xb4 d0) as (st1 & d2 & Hsend).
  rewrite Hsend.
  destruct (send_kept HS crc16 now HHS xb4 d0 d2 st1 Hsend) as [Hk2 Hst1].
  destruct (status_is_success st1) eqn:Hs1; cbn [negb].
  2:{ apply status_is_failure_inv in Hs1.
      exists st1, d2, (Some []). split; [reflexivity|].
      split; [eapply rsp_kept_trans; eassumption|].
      right. left. repeat split; try discriminate; auto.
      destruct Hst1 as [->|[->|[->| ->]]]; auto. congruence. }
  apply status_is_success_inv in Hs1. subst st1.
  destruct (send_success HS crc16 now HHS xb4 d0 d2 Hsend)
    as (p2 & rx & p3 & devtime & model & firmware & serial
        & Hread & Hfcrc & Hdev & Hmodel & Hfirm & Hserial & Hwrite & Hd2).
  unfold bind at 1.
  destruct (dump_read_outcome MEM HMAX (S (Z.to_nat (MEM + 2)))
              (repeat x00 (Z.to_nat (MEM + 2))) 0 d2)
    as (out & d3 & Hrun & Hk3 & Hout);
    [lia|lia|rewrite repeat_length; lia|].
  rewrite Hrun.
  assert (Hk : rsp_kept d d3).
  { eapply rsp_kept_trans; [exact Hk0|].
    eapply rsp_kept_trans; eassumption. }
  destruct out as [st|answer].
  { exists st, d3, (Some []). split; [reflexivity|]. split; [exact Hk|].
    right. left. repeat split; try discriminate; auto.
    destruct Hout as [-> | ->]; auto. }
  destruct Hout as (Hlen & Hev & Hrx).
  unfold bind, defined, ret.
  destruct (array_uint16_le_defined answer MEM) as [crcv Hcrc]; [lia..|].
  rewrite Hcrc.
  destruct (crcv =? _) eqn:Hok; cbn [negb].
  2:{ exists DC_STATUS_PROTOCOL, d3, (Some []). split; [reflexivity|].
      split; [exact Hk|].
      right. left. repeat split; try discriminate; auto. }
  apply Z.eqb_eq in Hok. subst crcv.
  exists DC_STATUS_SUCCESS, d3, (Some (firstn (Z.to_nat MEM) answer)).
  split; [reflexivity|]. split; [exact Hk|].
  right. right. repeat split; try discriminate; auto.
  exists answer, devtime, model, firmware, serial.
  repeat (split; [first [reflexivity|assumption]|]).
  split.
  { rewrite Hev, Hd2. unfold d0.
    cbn [rsp_woken rsp_base rsp_set_base events device_event_emit].
    now rewrite <- !app_assoc. }
  exists p2, rx, p3.
  repeat (split; [assumption|]).
  rewrite Hd2 in Hrx. exact Hrx.
Qed.
End ReefnetDumpAll.

Section ReefnetDumpProperties.
Context {serial_t : Type} `{Serial serial_t}.
Variables HS MEM : Z.
Variable crc16 : list byte -> Z.
Variable now : Z.
Variable can_allocate : Z -> bool.
Hypothesis HHS : 8 <= HS.
Hypothesis HMEM : 0 <= MEM.
Hypothesis HMAX : MEM + 2 < 2 ^ 32.

(** X10.  A dump returns, whatever the port delivers, and never with a
    part of the memory: the buffer holds the whole image when the
    status is success and is empty (or still [NULL]) when it is not.
    A failure is an allocation that was refused, an I/O error, a
    timeout or a protocol error; the cancellation flag of the handle
    is not looked at.  The handle keeps its backend table, its
    cancellation flag and its fingerprint cutoff; its events are added
    to, never taken away. *)
Theorem dump_never_returns_partial_image
    (d : @reefnet_sensuspro_device_t serial_t)
    (buffer : option dc_buffer_t) :
  backend (rsp_base d) = reefnet_sensuspro_device_backend ->
  exists st d' buffer',
    reefnet_sensuspro_device_dump HS MEM crc16 now can_allocate
      (Some (Reefnet_sensuspro d)) buffer
    = Some (st, Some (Reefnet_sensuspro d'), buffer')
    /\ rsp_kept d d'
    /\ ((st = DC_STATUS_SUCCESS
         /\ exists image, buffer' = Some image
                          /\ Z.of_nat (length image) = MEM)
        \/ ((st = DC_STATUS_NOMEMORY \/ st = DC_STATUS_IO
             \/ st = DC_STATUS_TIMEOUT \/ st = DC_STATUS_PROTOCOL)
            /\ (buffer' = Some [] \/ (buffer = None /\ buffer' = None)))).
Proof.
  intros Hb.
  destruct (dump_outcome HS MEM crc16 now can_allocate HHS HMEM HMAX
              d buffer Hb)
    as (st & d' & buffer' & Hrun & Hkept & Hcases).
  exists st, d', buffer'. split; [exact Hrun|]. split; [exact Hkept|].
  destruct Hcases as [(-> & _ & Hbuf)|[(Hst & _ & _ & ->)|Hok]].
  - right. split; [auto|].
    destruct Hbuf as [[-> ->]|[_ ->]]; auto.
  - right. split; [tauto|auto].
  - destruct Hok as (-> & _ & _ & answer & devtime & model & firmware
                     & serial & Hlen & -> & _).
    left. split; [reflexivity|]. eexists. split; [reflexivity|].
    rewrite length_firstn. lia.
Qed.

(** X11.  What a dump that returns success has done, by what the port
    delivered.  The frame of the handshake came whole, with the right
    CRC, and the write of the command byte B4 returned 1.  The answer
    is what the port then delivered to the reads of 256 bytes, and of
    what was left for the last one, each stored after those before it
    ([dump_received]); it has [MEM + 2] bytes, of which the last two
    are the CRC of the first [MEM], and the buffer, erased first, holds
    these [MEM] bytes.  The events given to the sink are the progress
    0, the clock with the time of the host and the device time at
    offset 6 of the frame, the device information with the bytes 0 and
    1 and the serial number at offset 4 of the frame, and then one
    progress event for every read, which reports 256 bytes more than
    the one before and the whole size at the last. *)
Theorem dump_success_report (d d' : @reefnet_sensuspro_device_t serial_t)
    (buffer : option dc_buffer_t) (image : list byte) :
  backend (rsp_base d) = reefnet_sensuspro_device_backend ->
  reefnet_sensuspro_device_dump HS MEM crc16 now can_allocate
    (Some (Reefnet_sensuspro d)) buffer
  = Some (DC_STATUS_SUCCESS, Some (Reefnet_sensuspro d'), Some image) ->
  let woken := serial_read (serial_set_break (rsp_port d) 1) (HS + 2) in
  let frame := handshake_frame HS (snd (fst woken)) in
  let sent :=
    serial_write (serial_sleep (serial_set_break (fst (fst woken)) 0) 10)
                 [xb4] 1 in
  exists answer devtime model firmware serial,
    snd woken = HS + 2
    /\ array_uint16_le frame HS
       = Some (crc16 (firstn (Z.to_nat HS) frame) mod 2 ^ 16)
    /\ snd sent = 1
    /\ dump_received (MEM + 2) (S (Z.to_nat (MEM + 2))) (fst sent)
         (repeat x00 (Z.to_nat (MEM + 2))) 0
       = Some answer
    /\ Z.of_nat (length answer) = MEM + 2
    /\ array_uint16_le answer MEM = Some (crc16 image mod 2 ^ 16)
    /\ image = firstn (Z.to_nat MEM) answer
    /\ array_uint32_le frame 6 = Some devtime
    /\ byte_at frame 0 = Some model
    /\ byte_at frame 1 = Some firmware
    /\ array_uint16_le frame 4 = Some serial
    /\ events (rsp_base d')
       = events (rsp_base d)
         ++ [DC_EVENT_PROGRESS 0 (MEM + 2);
             DC_EVENT_CLOCK now devtime;
             DC_EVENT_DEVINFO model firmware serial]
         ++ dump_progress 0 (MEM + 2).
Proof.
  intros Hb Hrun. cbv zeta.
  destruct (dump_outcome HS MEM crc16 now can_allocate HHS HMEM HMAX
              d buffer Hb)
    as (st & d1 & buffer1 & Hrun1 & _ & Hcases).
  rewrite Hrun in Hrun1. injection Hrun1 as <- <- <-.
  destruct Hcases as [(Hst & _)|[(Hst & _)|Hok]].
  - discriminate.
  - destruct Hst as [Hst|[Hst|Hst]]; discriminate.
  - destruct Hok as (_ & _ & _ & answer & devtime & model & firmware
                     & serial & Hlen & Himage & Hcrc & Hev
                     & p2 & rx & p3 & Hread & Hwrite & Hfcrc & Hdev
                     & Hmodel & Hfirm & Hserial & Hrx).
    injection Himage as ->.
    rewrite Hread. cbn [fst snd]. rewrite Hwrite. cbn [fst snd].
    exists answer, devtime, model, firmware, serial.
    repeat (split; [first [reflexivity|assumption]|]).
    exact Hev.
Qed.

(** X12.  [foreach] is the extraction on the image that the dump gives:
    when the dump into a new buffer succeeds, the result of [foreach]
    is that of [reefnet_sensuspro_extract_dives] on the image, with its
    whole length as size and under the fingerprint cutoff that the
    handle had before the dump. *)
Theorem foreach_extracts_dumped_image {U : Type}
    (d d' : @reefnet_sensuspro_device_t serial_t) (image : list byte)
    (callback : option (dc_dive_callback_t U)) (u : U) :
  backend (rsp_base d) = reefnet_sensuspro_device_backend ->
  reefnet_sensuspro_device_dump HS MEM crc16 now can_allocate
    (Some (Reefnet_sensuspro d)) (Some [])
  = Some (DC_STATUS_SUCCESS, Some (Reefnet_sensuspro d'), Some image) ->
  reefnet_sensuspro_device_foreach HS MEM crc16 now can_allocate
    (Some (Reefnet_sensuspro d)) callback u
  = match reefnet_sensuspro_extract_dives (Some (Reefnet_sensuspro d))
            image (Z.of_nat (length image)) callback u with
    | Some r => Some (res_status r, Some (Reefnet_sensuspro d'),
                      res_calls r, res_userdata r)
    | None => None
    end.
Proof.
  intros Hb Hrun.
  destruct (dump_outcome HS MEM crc16 now can_allocate HHS HMEM HMAX
              d (Some []) Hb)
    as (st & d1 & buffer1 & Hrun1 & Hkept & Hcases).
  rewrite Hrun in Hrun1. injection Hrun1 as <- <- <-.
  destruct Hcases as [(Hst & _)|[(Hst & _)|Hok]];
    [discriminate|destruct Hst as [Hst|[Hst|Hst]]; discriminate|].
  destruct Hok as (_ & _ & Hroom & answer & _ & _ & _ & _
                   & Hlen & Himage & _).
  injection Himage as ->.
  destruct Hkept as (Hb' & _ & Hcut & _).
  unfold reefnet_sensuspro_device_foreach, device_is_reefnet_sensuspro,
    dc_buffer_new.
  simpl base_of. rewrite Hb. simpl backend_eqb. cbn [negb].
  rewrite Hroom. cbv beta iota. unfold dc_buffer_t in *.
  rewrite Hrun. cbn [status_is_success negb].
  rewrite uint_small by (rewrite length_firstn; lia).
  rewrite !extract_dives_reefnet by congruence.
  now rewrite Hcut.
Qed.
End ReefnetDumpProperties.

Lemma dump_never_returns_partial_image_witness :
  exists st d' buffer',
    reefnet_sensuspro_device_dump 10 300 toy_crc 1000 (fun _ => true)
      (Some (Reefnet_sensuspro
               (reefnet_on {| tape_replies := [(sample_handshake, 12);
                                               (repeat xff 256, 256);
                                               (repeat xff 40, -1)] |} 7)))
      (Some [x01; x02])
    = Some (st, Some (Reefnet_sensuspro d'), buffer')
    /\ rsp_kept
         (reefnet_on {| tape_replies := [(sample_handshake, 12);
                                         (repeat xff 256, 256);
                                         (repeat xff 40, -1)] |} 7) d'
    /\ ((st = DC_STATUS_SUCCESS
         /\ exists image, buffer' = Some image
                          /\ Z.of_nat (length image) = 300)
        \/ ((st = DC_STATUS_NOMEMORY \/ st = DC_STATUS_IO
             \/ st = DC_STATUS_TIMEOUT \/ st = DC_STATUS_PROTOCOL)
            /\ (buffer' = Some []
                \/ (Some [x01; x02] = None /\ buffer' = None)))).
Proof.
  apply (dump_never_returns_partial_image 10 300 toy_crc 1000 (fun _ => true)).
  - lia.
  - lia.
  - lia.
  - reflexivity.
Defined.

Lemma dump_success_report_witness :
  exists d' image,
    reefnet_sensuspro_device_dump 10 300 toy_crc 1000 (fun _ => true)
      (Some (Reefnet_sensuspro (reefnet_on sample_tape 7)))
      (Some [x01; x02])
    = Some (DC_STATUS_SUCCESS, Some (Reefnet_sensuspro d'), Some image)
    /\ image = firstn 300 sample_memory
    /\ events (rsp_base d')
       = [DC_EVENT_PROGRESS 0 302; DC_EVENT_CLOCK 1000 16;
          DC_EVENT_DEVINFO 2 1 12345;
          DC_EVENT_PROGRESS 256 302; DC_EVENT_PROGRESS 302 302]
    /\ dump_received 302 303
         {| tape_replies := [(firstn 256 sample_memory, 256);
                             (skipn 256 sample_memory, 46)] |}
         (repeat x00 302) 0
       = Some sample_memory
    /\ let woken :=
         serial_read (serial_set_break (rsp_port (reefnet_on sample_tape 7)) 1)
                     (10 + 2) in
       let frame := handshake_frame 10 (snd (fst woken)) in
       let sent :=
         serial_write
           (serial_sleep (serial_set_break (fst (fst woken)) 0) 10)
           [xb4] 1 in
       exists answer devtime model firmware serial,
         snd woken = 10 + 2
         /\ array_uint16_le frame 10
            = Some (toy_crc (firstn (Z.to_nat 10) frame) mod 2 ^ 16)
         /\ snd sent = 1
         /\ dump_received (300 + 2) (S (Z.to_nat (300 + 2))) (fst sent)
              (repeat x00 (Z.to_nat (300 + 2))) 0
            = Some answer
         /\ Z.of_nat (length answer) = 300 + 2
         /\ array_uint16_le answer 300 = Some (toy_crc image mod 2 ^ 16)
         /\ image = firstn (Z.to_nat 300) answer
         /\ array_uint32_le frame 6 = Some devtime
         /\ byte_at frame 0 = Some model
         /\ byte_at frame 1 = Some firmware
         /\ array_uint16_le frame 4 = Some serial
         /\ events (rsp_base d')
            = events (rsp_base (reefnet_on sample_tape 7))
              ++ [DC_EVENT_PROGRESS 0 (300 + 2);
                  DC_EVENT_CLOCK 1000 devtime;
                  DC_EVENT_DEVINFO model firmware serial]
              ++ dump_progress 0 (300 + 2).
Proof.
  eexists. eexists.
  split; [vm_compute; reflexivity|].
  split; [vm_compute; reflexivity|].
  split; [vm_compute; reflexivity|].
  split; [vm_compute; reflexivity|].
  apply (dump_success_report 10 300 toy_crc 1000 (fun _ => true)
           ltac:(lia) ltac:(lia) ltac:(lia)
           (reefnet_on sample_tape 7) _ (Some [x01; x02])).
  - reflexivity.
  - vm_compute. reflexivity.
Defined.

Lemma foreach_extracts_dumped_image_witness :
  reefnet_sensuspro_device_foreach 10 300 toy_crc 1000 (fun _ => true)
    (Some (Reefnet_sensuspro (reefnet_on sample_tape 7)))
    (Some recorder) []
  = match reefnet_sensuspro_extract_dives
            (Some (Reefnet_sensuspro (reefnet_on sample_tape 7)))
            (firstn 300 sample_memory) 300 (Some recorder) [] with
    | Some r =>
        Some (res_status r,
              Some (Reefnet_sensuspro
                      {| rsp_base :=
                           {| backend := reefnet_sensuspro_device_backend;
                              cancel := false;
                              events :=
                                [DC_EVENT_PROGRESS 0 302;
                                 DC_EVENT_CLOCK 1000 16;
                                 DC_EVENT_DEVINFO 2 1 12345;
                                 DC_EVENT_PROGRESS 256 302;
                                 DC_EVENT_PROGRESS 302 302] |};
                         rsp_port := {| tape_replies := [] |};
                         rsp_handshake := firstn 10 sample_handshake;
                         rsp_timestamp := 7; rsp_devtime := 16;
                         rsp_systime := 1000 |}),
              res_calls r, res_userdata r)
    | None => None
    end.
Proof.
  apply (foreach_extracts_dumped_image 10 300 toy_crc 1000 (fun _ => true)
           ltac:(lia) ltac:(lia) ltac:(lia)
           (reefnet_on sample_tape 7)).
  - reflexivity.
  - vm_compute. reflexivity.
Defined.

(** ** Commands on the Sensus Pro link *)

Section ReefnetCommandProperties.
Context {serial_t : Type} `{Serial serial_t}.
Variable HS : Z.
Variable crc16 : list byte -> Z.
Variable now : Z.
Hypothesis HHS : 8 <= HS.

(** X13.  After a command that went through, the handle holds the
    handshake of that exchange: the payload of the frame the port
    delivered, whose CRC was right, with the clock of the host and the
    device time of the frame as clock sample; [get_handshake] copies
    this payload to a buffer with room for it and refuses a smaller
    one. *)
Theorem get_handshake_after_command
    (d d' : @reefnet_sensuspro_device_t serial_t) (interval : byte)
    (data : list byte) (size : Z) :
  backend (rsp_base d) = reefnet_sensuspro_device_backend ->
  reefnet_sensuspro_device_write_interval HS crc16 now
    (Some (Reefnet_sensuspro d)) interval
  = Some (DC_STATUS_SUCCESS, Some (Reefnet_sensuspro d')) ->
  let frame :=
    handshake_frame HS
      (snd (fst (serial_read (serial_set_break (rsp_port d) 1) (HS + 2)))) in
  let payload := firstn (Z.to_nat HS) frame in
  array_uint16_le frame HS = Some (crc16 payload mod 2 ^ 16)
  /\ array_uint32_le frame 6 = Some (rsp_devtime d')
  /\ rsp_systime d' = now
  /\ reefnet_sensuspro_device_get_handshake HS (Some (Reefnet_sensuspro d'))
       data size
     = Some (if size <? HS then (DC_STATUS_INVALIDARGS,
                                 Some (Reefnet_sensuspro d'), data)
             else (DC_STATUS_SUCCESS, Some (Reefnet_sensuspro d'),
                   store data 0 HS payload)).
Proof.
  intros Hb. unfold reefnet_sensuspro_device_write_interval,
    device_is_reefnet_sensuspro.
  simpl base_of. rewrite Hb. simpl backend_eqb. cbn [negb].
  simpl as_reefnet_sensuspro.
  destruct ((byte_val interval <? 1) || (127 <? byte_val interval));
    [discriminate|].
  unfold bind at 1.
  destruct (send_returns HS crc16 now HHS xb5 d) as (st1 & d2 & Hsend).
  rewrite Hsend.
  destruct (status_is_success st1) eqn:Hs1; cbn [negb].
  2:{ apply status_is_failure_inv in Hs1. unfold ret. congruence. }
  apply status_is_success_inv in Hs1. subst st1.
  destruct (send_success HS crc16 now HHS xb5 d d2 Hsend)
    as (p2 & rx & p3 & devtime & model & firmware & serial
        & Hread & Hcrc & Hdev & _ & _ & _ & _ & Hd2).
  unfold bind, rsp_line, modify, rsp_write, ret.
  destruct (serial_write _ [interval] 1) as [p5 n].
  destruct (negb (n =? 1)).
  { intros Heq. exfalso. apply (EXITCODE_fails n). congruence. }
  intros Heq. assert (Hd' : d' = rsp_set_port
                                   (rsp_set_port d2
                                      (serial_sleep (rsp_port d2) 10)) p5)
    by congruence.
  rewrite Hread. cbn [fst snd].
  set (payload := firstn (Z.to_nat HS) (handshake_frame HS rx)).
  assert (Hhs : rsp_handshake d' = payload) by (rewrite Hd', Hd2; reflexivity).
  assert (Hdt : rsp_devtime d' = devtime) by (rewrite Hd', Hd2; reflexivity).
  assert (Hst : rsp_systime d' = now) by (rewrite Hd', Hd2; reflexivity).
  assert (Hb' : backend (rsp_base d') = reefnet_sensuspro_device_backend)
    by (rewrite Hd', Hd2; exact Hb).
  split; [exact Hcrc|]. split; [now rewrite Hdt|]. split; [exact Hst|].
  unfold reefnet_sensuspro_device_get_handshake, device_is_reefnet_sensuspro.
  simpl base_of. rewrite Hb'. simpl backend_eqb. cbn [negb].
  simpl as_reefnet_sensuspro. cbv beta iota. rewrite Hhs.
  destruct (size <? HS); reflexivity.
Qed.
End ReefnetCommandProperties.

Lemma get_handshake_after_command_witness :
  array_uint16_le sample_handshake 10
  = Some (toy_crc (firstn 10 sample_handshake) mod 2 ^ 16)
  /\ array_uint32_le sample_handshake 6 = Some 16
  /\ rsp_systime sample_woken = 1000
  /\ reefnet_sensuspro_device_get_handshake 10
       (Some (Reefnet_sensuspro sample_woken)) (repeat xff 12) 12
     = Some (DC_STATUS_SUCCESS, Some (Reefnet_sensuspro sample_woken),
             firstn 10 sample_handshake ++ [xff; xff]).
Proof.
  assert (Hbackend :
    backend (rsp_base (reefnet_on
                         {| tape_replies := [(sample_handshake, 12)] |} 7))
    = reefnet_sensuspro_device_backend) by reflexivity.
  assert (Hrun :
    reefnet_sensuspro_device_write_interval 10 toy_crc 1000
      (Some (Reefnet_sensuspro
               (reefnet_on {| tape_replies := [(sample_handshake, 12)] |} 7)))
      x3c
    = Some (DC_STATUS_SUCCESS, Some (Reefnet_sensuspro sample_woken)))
    by reflexivity.
  exact (get_handshake_after_command 10 toy_crc 1000 ltac:(lia)
           (reefnet_on {| tape_replies := [(sample_handshake, 12)] |} 7)
           sample_woken x3c (repeat xff 12) 12 Hbackend Hrun).
Defined.

Section ReefnetCalls.
Context {T : Type} `{Serial T}.
Variable HS : Z.
Variable crc16 : list byte -> Z.
Variable now : Z.
Hypothesis HHS : 8 <= HS.

(** X14.  The calls [write_interval] makes on the port, for an
    interval from 1 to 127, by what the port returns: break set and
    the read of the handshake frame, always.  When the read does not
    return the size of the frame, nothing follows (the break stays
    set) and the status is that of the count.  Otherwise the break is
    cleared; when the CRC of the frame is wrong, nothing follows and
    the status is a protocol error.  Otherwise a delay of 10 ms and the
    write of the command byte B5; when this write does not return 1,
    nothing follows and the status is that of its count.  Otherwise,
    and only then, a delay of 10 ms and the write of the interval, and
    the status is success when this write returns 1 and that of its
    count when not.  An interval out of range is refused before
    anything is done. *)
Theorem write_interval_call_sequence
    (d : @reefnet_sensuspro_device_t (traced T)) (interval : byte) :
  backend (rsp_base d) = reefnet_sensuspro_device_backend ->
  let woken :=
    serial_read (serial_set_break (traced_port (rsp_port d)) 1) (HS + 2) in
  let frame := handshake_frame HS (snd (fst woken)) in
  let crc := crc16 (firstn (Z.to_nat HS) frame) mod 2 ^ 16 in
  let sent :=
    serial_write (serial_sleep (serial_set_break (fst (fst woken)) 0) 10)
                 [xb5] 1 in
  let set := serial_write (serial_sleep (fst sent) 10) [interval] 1 in
  (byte_val interval < 1 \/ 127 < byte_val interval ->
   reefnet_sensuspro_device_write_interval HS crc16 now
     (Some (Reefnet_sensuspro d)) interval
   = Some (DC_STATUS_INVALIDARGS, Some (Reefnet_sensuspro d)))
  /\ (1 <= byte_val interval <= 127 ->
      exists st d',
        reefnet_sensuspro_device_write_interval HS crc16 now
          (Some (Reefnet_sensuspro d)) interval
        = Some (st, Some (Reefnet_sensuspro d'))
        /\ rsp_kept d d'
        /\ (snd woken <> HS + 2 ->
            st = EXITCODE (snd woken)
            /\ trace (rsp_port d')
               = trace (rsp_port d)
                 ++ [Call_set_break 1; Call_read (HS + 2)]
            /\ traced_port (rsp_port d') = fst (fst woken))
        /\ (snd woken = HS + 2 ->
            array_uint16_le frame HS <> Some crc ->
            st = DC_STATUS_PROTOCOL
            /\ trace (rsp_port d')
               = trace (rsp_port d)
                 ++ [Call_set_break 1; Call_read (HS + 2); Call_set_break 0]
            /\ traced_port (rsp_port d')
               = serial_set_break (fst (fst woken)) 0)
        /\ (snd woken = HS + 2 ->
            array_uint16_le frame HS = Some crc ->
            snd sent <> 1 ->
            st = EXITCODE (snd sent)
            /\ trace (rsp_port d')
               = trace (rsp_port d)
                 ++ [Call_set_break 1; Call_read (HS + 2); Call_set_break 0;
                     Call_sleep 10; Call_write [xb5] 1]
            /\ traced_port (rsp_port d') = fst sent)
        /\ (snd woken = HS + 2 ->
            array_uint16_le frame HS = Some crc ->
            snd sent = 1 ->
            st = (if snd set =? 1 then DC_STATUS_SUCCESS
                  else EXITCODE (snd set))
            /\ trace (rsp_port d')
               = trace (rsp_port d) ++ write_interval_calls HS interval
            /\ traced_port (rsp_port d') = fst set)).
Proof.
  intros Hb. cbv zeta.
  unfold reefnet_sensuspro_device_write_interval,
    device_is_reefnet_sensuspro.
  simpl base_of. rewrite Hb. simpl backend_eqb. cbn [negb].
  simpl as_reefnet_sensuspro.
  split.
  { intros Hout.
    replace ((byte_val interval <? 1) || (127 <? byte_val interval))
      with true; [reflexivity|].
    symmetry. apply orb_true_iff.
    destruct Hout; [left; apply Z.ltb_lt|right; apply Z.ltb_lt]; lia. }
  intros Hin.
  replace ((byte_val interval <? 1) || (127 <? byte_val interval))
    with false
    by (symmetry; apply orb_false_iff; split; apply Z.ltb_ge; lia).
  unfold bind at 1.
  destruct (serial_read (serial_set_break (traced_port (rsp_port d)) 1)
                        (HS + 2)) as [[q rx] rc] eqn:Hu.
  cbn [fst snd].
  assert (Hread :
    serial_read (serial_set_break (rsp_port d) 1) (HS + 2)
    = (traced_call
         (traced_call (rsp_port d)
            (serial_set_break (traced_port (rsp_port d)) 1)
            (Call_set_break 1))
         q (Call_read (HS + 2)), rx, rc)).
  { cbn [serial_read serial_set_break traced_serial traced_call traced_port].
    rewrite Hu. reflexivity. }
  destruct (handshake_outcome HS crc16 now HHS d _ rx rc Hread)
    as (crcv & devtime & model & firmware & serial
        & Hcrcv & _ & _ & _ & _ & Hh).
  rewrite Hcrcv.
  destruct (rc =? HS + 2) eqn:Hrc; cbn [negb] in Hh;
    [apply Z.eqb_eq in Hrc|apply Z.eqb_neq in Hrc].
  2:{ rewrite (send_outcome HS crc16 now xb5 d _ _ Hh).
      assert (Hfail : status_is_success (EXITCODE rc) = false)
        by (destruct (EXITCODE_cases rc) as [-> | ->]; reflexivity).
      cbv beta iota. repeat (rewrite Hfail; cbv beta iota).
      cbn [negb]. unfold ret.
      eexists. eexists. split; [reflexivity|].
      split; [apply rsp_kept_port|].
      split; [|repeat split; intros; contradiction].
      intros _. split; [reflexivity|].
      cbn [rsp_port rsp_set_port traced_call traced_port trace].
      rewrite <- app_assoc. split; reflexivity. }
  destruct (crcv =? _) eqn:Hok; cbn [negb] in Hh;
    [apply Z.eqb_eq in Hok|apply Z.eqb_neq in Hok].
  2:{ rewrite (send_outcome HS crc16 now xb5 d _ _ Hh).
      cbn [status_is_success negb]. unfold ret.
      eexists. eexists. split; [reflexivity|].
      split; [apply rsp_kept_port|].
      split; [intros; contradiction|].
      split; [|split; intros; congruence].
      intros _ _. split; [reflexivity|].
      cbn [rsp_port rsp_set_port traced_call traced_port trace
           serial_set_break traced_serial].
      rewrite <- !app_assoc. split; reflexivity. }
  rewrite (send_outcome HS crc16 now xb5 d _ _ Hh).
  cbn [status_is_success rsp_woken rsp_port].
  cbn [serial_write serial_sleep serial_set_break traced_serial traced_call
       traced_port trace].
  destruct (serial_write (serial_sleep (serial_set_break q 0) 10) [xb5] 1)
    as [q2 n] eqn:Hw1.
  cbn [fst snd].
  destruct (n =? 1) eqn:Hn; cbn [negb];
    [apply Z.eqb_eq in Hn|apply Z.eqb_neq in Hn].
  2:{ assert (Hfail : status_is_success (EXITCODE n) = false)
        by (destruct (EXITCODE_cases n) as [-> | ->]; reflexivity).
      cbv beta iota. repeat (rewrite Hfail; cbv beta iota).
      cbn [negb]. unfold ret.
      eexists. eexists. split; [reflexivity|].
      split.
      { eapply rsp_kept_trans; [apply rsp_kept_woken|apply rsp_kept_port]. }
      split; [intros; contradiction|].
      split; [intros; congruence|].
      split; [|intros; contradiction].
      intros _ _ _. split; [reflexivity|].
      cbn [rsp_port rsp_set_port rsp_woken traced_call traced_port trace].
      rewrite <- !app_assoc. split; reflexivity. }
  cbn [status_is_success negb].
  unfold bind, rsp_line, modify, rsp_write, ret.
  cbn [rsp_port rsp_set_port rsp_woken serial_write serial_sleep
       traced_serial traced_call traced_port trace].
  destruct (serial_write (serial_sleep q2 10) [interval] 1)
    as [q3 m] eqn:Hw2.
  cbn [fst snd].
  destruct (m =? 1); cbn [negb];
    (eexists; eexists; split; [reflexivity|]; split;
     [eapply rsp_kept_trans; [apply rsp_kept_woken|];
      eapply rsp_kept_trans; [apply rsp_kept_port|];
      eapply rsp_kept_trans; [apply rsp_kept_port|apply rsp_kept_port]|];
     split; [intros; contradiction|];
     split; [intros; congruence|];
     split; [intros; contradiction|];
     intros _ _ _; split; [reflexivity|];
     cbn [rsp_port rsp_set_port rsp_woken traced_call traced_port trace
          write_interval_calls handshake_calls app];
     rewrite <- !app_assoc; split; reflexivity).
Qed.
End ReefnetCalls.

Lemma write_interval_call_sequence_witness :
  exists d',
    reefnet_sensuspro_device_write_interval 10 toy_crc 1000
      (Some (Reefnet_sensuspro
               (reefnet_on
                  (untraced
                     {| tape_replies :=
                          [(firstn 10 sample_handshake ++ [x0b; x00], 12)] |})
                  7)))
      x3c
    = Some (DC_STATUS_PROTOCOL, Some (Reefnet_sensuspro d'))
    /\ trace (rsp_port d')
       = [Call_set_break 1; Call_read 12; Call_set_break 0].
Proof.
  destruct (write_interval_call_sequence 10 toy_crc 1000 ltac:(lia)
              (reefnet_on
                 (untraced
                    {| tape_replies :=
                         [(firstn 10 sample_handshake ++ [x0b; x00], 12)] |})
                 7)
              x3c eq_refl) as [_ Hin].
  destruct (Hin ltac:(vm_compute; split; discriminate))
    as (st & d' & Hrun & _ & _ & Hcrc & _).
  exists d'.
  destruct (Hcrc ltac:(reflexivity) ltac:(vm_compute; discriminate))
    as (-> & Htrace & _).
  split; [exact Hrun|exact Htrace].
Defined.

(** ** The fingerprint cutoff *)

(** X15.  [set_fingerprint] is [set_timestamp] on the fingerprint read
    as a little-endian number: with four bytes it sets the cutoff to
    their value, with none it sets it to 0, and any other size is
    refused with the handle left as it is. *)
Theorem set_fingerprint_is_set_timestamp {serial_t : Type}
    (d : @reefnet_sensuspro_device_t serial_t) (data : list byte) (size : Z) :
  backend (rsp_base d) = reefnet_sensuspro_device_backend ->
  let abstract := Some (Reefnet_sensuspro d) in
  (size = 0 ->
   reefnet_sensuspro_device_set_fingerprint abstract data size
   = reefnet_sensuspro_device_set_timestamp abstract 0)
  /\ (size = 4 ->
      forall t, array_uint32_le data 0 = Some t ->
                reefnet_sensuspro_device_set_fingerprint abstract data size
                = reefnet_sensuspro_device_set_timestamp abstract t)
  /\ (size <> 0 -> size <> 4 ->
      reefnet_sensuspro_device_set_fingerprint abstract data size
      = Some (DC_STATUS_INVALIDARGS, abstract)).
Proof.
  intros Hb abstract.
  unfold reefnet_sensuspro_device_set_fingerprint,
    reefnet_sensuspro_device_set_timestamp, device_is_reefnet_sensuspro,
    abstract.
  simpl base_of. rewrite Hb. simpl backend_eqb. cbn [negb].
  simpl as_reefnet_sensuspro.
  split; [|split].
  - intros ->. reflexivity.
  - intros -> t Ht. simpl. now rewrite Ht.
  - intros H0 H4. apply Z.eqb_neq in H0, H4. now rewrite H0, H4.
Qed.

Lemma set_fingerprint_is_set_timestamp_witness :
  reefnet_sensuspro_device_set_fingerprint
    (Some (Reefnet_sensuspro sample_reefnet)) stamp_100 4
  = reefnet_sensuspro_device_set_timestamp
      (Some (Reefnet_sensuspro sample_reefnet)) 100.
Proof.
  destruct (set_fingerprint_is_set_timestamp sample_reefnet stamp_100 4
              eq_refl) as (_ & Hfour & _).
  apply Hfour; reflexivity.
Defined.

Section HigherCutoff.
Context {U : Type}.
Variable data : list byte.
Variable callback : option (dc_dive_callback_t U).
Variables t1 t2 : Z.
Hypothesis Hle : t1 <= t2.

(** Until the higher cutoff stops it, the scan under the higher cutoff
    goes the way of the scan under the lower one. *)
Lemma extract_loop_higher_cutoff (fuel : nat) :
  forall (s : scan_state U) (r1 r2 : extract_result U),
    extract_loop data (Some t1) callback fuel s = Some r1 ->
    extract_loop data (Some t2) callback fuel s = Some r2 ->
    exists more, res_calls r1 = res_calls r2 ++ more.
Proof.
  induction fuel as [|fuel IH]; intros s r1 r2; [discriminate|].
  cbn [extract_loop]. unfold extract_step.
  destruct (0 <? current s).
  2:{ intros H1 H2. exists []. rewrite app_nil_r. congruence. }
  destruct (memcmp_is0 data (current s - 1) header) as [[|]|];
    [|apply IH|discriminate].
  destruct (find_footer _ _ _ _) as [[offset|]|]; [| |discriminate].
  2:{ intros H1 H2. exists []. rewrite app_nil_r. congruence. }
  destruct (array_uint32_le data (current s - 1 + 6)) as [ts|];
    [|discriminate].
  destruct (ts <=? t2) eqn:H2cut.
  - destruct (ts <=? t1) eqn:H1cut.
    + intros H1 H2. exists []. rewrite app_nil_r. congruence.
    + intros H1 H2. injection H2 as <-. cbn [finish res_calls].
      destruct callback as [cb|].
      * destruct (cb data _ (userdata s)) as [rc u'].
        destruct (rc =? 0).
        { injection H1 as <-. cbn [finish res_calls calls]. eauto. }
        destruct (extract_loop_calls_prefix _ _ _ _ _ _ H1) as [more Hm].
        cbn [calls] in Hm. rewrite Hm, <- app_assoc. eauto.
      * destruct (extract_loop_calls_prefix _ _ _ _ _ _ H1) as [more Hm].
        cbn [calls] in Hm. eauto.
  - replace (ts <=? t1) with false
      by (symmetry; apply Z.leb_gt; apply Z.leb_gt in H2cut; lia).
    destruct callback as [cb|]; [|apply IH].
    destruct (cb data _ (userdata s)) as [rc u'].
    destruct (rc =? 0); [|apply IH].
    intros H1 H2. exists []. rewrite app_nil_r. congruence.
Qed.
End HigherCutoff.

(** X16.  Raising the cutoff with [set_timestamp] never adds a dive to
    a download: on every buffer, the calls of the extraction under the
    higher cutoff are the first calls of the extraction under the lower
    one. *)
Theorem higher_cutoff_delivers_prefix {serial_t U : Type}
    (d : @reefnet_sensuspro_device_t serial_t) (t1 t2 : Z)
    (a1 a2 : option (@device serial_t))
    (data : list byte) (size : Z)
    (callback : option (dc_dive_callback_t U)) (u : U)
    (r1 r2 : extract_result U) :
  backend (rsp_base d) = reefnet_sensuspro_device_backend ->
  t1 <= t2 ->
  reefnet_sensuspro_device_set_timestamp (Some (Reefnet_sensuspro d)) t1
  = Some (DC_STATUS_SUCCESS, a1) ->
  reefnet_sensuspro_device_set_timestamp (Some (Reefnet_sensuspro d)) t2
  = Some (DC_STATUS_SUCCESS, a2) ->
  reefnet_sensuspro_extract_dives a1 data size callback u = Some r1 ->
  reefnet_sensuspro_extract_dives a2 data size callback u = Some r2 ->
  exists more, res_calls r1 = res_calls r2 ++ more.
Proof.
  intros Hb Hle.
  unfold reefnet_sensuspro_device_set_timestamp, device_is_reefnet_sensuspro.
  simpl base_of. rewrite Hb. simpl.
  intros Ha1 Ha2. injection Ha1 as <-. injection Ha2 as <-.
  rewrite !extract_dives_reefnet by exact Hb.
  simpl rsp_timestamp. unfold extract_scan.
  apply extract_loop_higher_cutoff. exact Hle.
Qed.

Lemma higher_cutoff_delivers_prefix_witness :
  exists more,
    [view_at 27 13; view_at 13 14] = [view_at 27 13] ++ more.
Proof.
  apply (higher_cutoff_delivers_prefix (serial_t := unit)
           sample_reefnet 40 50
           (Some (Reefnet_sensuspro (rsp_set_timestamp sample_reefnet 40)))
           (Some (Reefnet_sensuspro (rsp_set_timestamp sample_reefnet 50)))
           (torn_dive ++ dive_50 ++ dive_100) 40 (Some recorder) []
           {| res_status := DC_STATUS_DATAFORMAT;
              res_calls := [view_at 27 13; view_at 13 14];
              res_userdata := [view_at 27 13; view_at 13 14] |}
           {| res_status := DC_STATUS_SUCCESS;
              res_calls := [view_at 27 13];
              res_userdata := [view_at 27 13] |}).
  - reflexivity.
  - lia.
  - reflexivity.
  - reflexivity.
  - vm_compute. reflexivity.
  - vm_compute. reflexivity.
Defined.

(** ** Closing a handle after use *)

Ltac base_leaf :=
  let Heq := fresh "Heq" in
  intros Heq; injection Heq as <- <- <-; eexists; split; reflexivity.

Lemma packet_keeps_base {serial_t : Type} `{Serial serial_t}
    (dev : @suunto_vyper2_device_t serial_t)
    (command : list byte) (csize : Z) (answer : list byte) (asize size : Z)
    (st : dc_status_t) (abstract' : option (@device serial_t))
    (answer' : list byte) :
  suunto_vyper2_device_packet (Some (Suunto_vyper2 dev))
                              command csize answer asize size
  = Some (st, abstract', answer') ->
  exists dev', abstract' = Some (Suunto_vyper2 dev')
               /\ vy2_base dev' = vy2_base dev.
Proof.
  unfold suunto_vyper2_device_packet.
  destruct (device_is_cancelled _).
  { intros Heq. injection Heq as <- <- <-. eauto. }
  simpl as_suunto_vyper2.
  unfold bind, vy2_line, vy2_write, vy2_read, modify, ret, defined.
  cbn [vy2_port vy2_set_port].
  destruct (serial_write _ command csize) as [p2 n].
  destruct (negb (uint n =? csize)); [base_leaf|].
  cbn [vy2_port vy2_set_port].
  destruct (serial_read _ asize) as [[p4 rx] m]. cbn [fst snd].
  destruct (negb (uint m =? asize)); [base_leaf|].
  destruct (byte_at _ 0) as [a0|]; [|discriminate].
  destruct (byte_at command 0) as [c0|]; [|discriminate].
  destruct (negb (a0 =? c0)); [base_leaf|].
  destruct (array_uint16_be _ 1) as [len|]; [|discriminate].
  destruct (negb (uint (len + 4) =? asize)); [base_leaf|].
  destruct (memcmp2_is0 _ _ _ _ _) as [same|]; [|discriminate].
  destruct (negb same); [base_leaf|].
  destruct (byte_at _ (uint (asize - 1))) as [crc|]; [|discriminate].
  destruct (load _ 0 _) as [sum|]; [|discriminate].
  destruct (negb (crc =? _)); base_leaf.
Qed.

(** X17.  No operation takes from a handle what [close] asks of it: a
    Sensus Pro handle is closed after a dump, whatever the dump ended
    with, and a Vyper2 handle after a packet exchange, failed or not.
    [close] gives the handle up whether the port could be closed or
    not; its status is an I/O error when [serial_close] returned -1 and
    success when it did not. *)
Theorem handle_closes_after_use {serial_t : Type} `{Serial serial_t}
    (HS MEM : Z) (crc16 : list byte -> Z) (now : Z)
    (can_allocate : Z -> bool)
    (r : @reefnet_sensuspro_device_t serial_t) (buffer : option dc_buffer_t)
    (v : @suunto_vyper2_device_t serial_t)
    (command : list byte) (csize : Z) (answer : list byte) (asize size : Z)
    (st : dc_status_t) (abstract' : option (@device serial_t))
    (answer' : list byte) :
  8 <= HS -> 0 <= MEM -> MEM + 2 < 2 ^ 32 ->
  backend (rsp_base r) = reefnet_sensuspro_device_backend ->
  backend (vy2_base v) = suunto_vyper2_device_backend ->
  suunto_vyper2_device_packet (Some (Suunto_vyper2 v))
                              command csize answer asize size
  = Some (st, abstract', answer') ->
  (exists st1 r' buffer' st2,
     reefnet_sensuspro_device_dump HS MEM crc16 now can_allocate
       (Some (Reefnet_sensuspro r)) buffer
     = Some (st1, Some (Reefnet_sensuspro r'), buffer')
     /\ reefnet_sensuspro_device_close (Some (Reefnet_sensuspro r'))
        = Some (st2, None)
     /\ st2 = (if serial_close (rsp_port r') =? -1
               then DC_STATUS_IO else DC_STATUS_SUCCESS))
  /\ (exists v' st2,
        abstract' = Some (Suunto_vyper2 v')
        /\ suunto_vyper2_device_close abstract' = Some (st2, None)
        /\ st2 = (if serial_close (vy2_port v') =? -1
                  then DC_STATUS_IO else DC_STATUS_SUCCESS)).
Proof.
  intros HHS HMEM HMAX Hr Hv Hrun. split.
  - destruct (dump_outcome HS MEM crc16 now can_allocate HHS HMEM HMAX
                r buffer Hr)
      as (st1 & r' & buffer' & Hdump & (Hb & _) & _).
    exists st1, r', buffer',
      (if serial_close (rsp_port r') =? -1
       then DC_STATUS_IO else DC_STATUS_SUCCESS).
    split; [exact Hdump|]. split; [|reflexivity].
    unfold reefnet_sensuspro_device_close, device_is_reefnet_sensuspro.
    simpl base_of. rewrite Hb, Hr. simpl.
    destruct (serial_close (rsp_port r') =? -1); reflexivity.
  - destruct (packet_keeps_base v command csize answer asize size
                st abstract' answer' Hrun) as (v' & -> & Hb).
    exists v', (if serial_close (vy2_port v') =? -1
                then DC_STATUS_IO else DC_STATUS_SUCCESS).
    split; [reflexivity|]. split; [|reflexivity].
    unfold suunto_vyper2_device_close, device_is_suunto_vyper2.
    simpl base_of. rewrite Hb, Hv. simpl.
    destruct (serial_close (vy2_port v') =? -1); reflexivity.
Qed.

Lemma handle_closes_after_use_witness :
  (exists st1 r' buffer' st2,
     reefnet_sensuspro_device_dump 10 300 toy_crc 1000 (fun _ => true)
       (Some (Reefnet_sensuspro
                (reefnet_on (quiet_wire None 5 sample_reply) 7)))
       (Some [])
     = Some (st1, Some (Reefnet_sensuspro r'), buffer')
     /\ reefnet_sensuspro_device_close (Some (Reefnet_sensuspro r'))
        = Some (st2, None)
     /\ st2 = (if serial_close (rsp_port r') =? -1
               then DC_STATUS_IO else DC_STATUS_SUCCESS))
  /\ (exists v' st2,
        Some (Suunto_vyper2
                (vyper2_on
                   {| wire_log := [Call_sleep 600; Call_set_rts 1;
                                   Call_write sample_command 7;
                                   Call_set_rts 0; Call_read 7];
                      wire_write := None; wire_read := 5;
                      wire_reply := sample_reply |} false))
        = Some (Suunto_vyper2 v')
        /\ suunto_vyper2_device_close
             (Some (Suunto_vyper2
                      (vyper2_on
                         {| wire_log := [Call_sleep 600; Call_set_rts 1;
                                         Call_write sample_command 7;
                                         Call_set_rts 0; Call_read 7];
                            wire_write := None; wire_read := 5;
                            wire_reply := sample_reply |} false)))
           = Some (st2, None)
        /\ st2 = (if serial_close (vy2_port v') =? -1
                  then DC_STATUS_IO else DC_STATUS_SUCCESS)).
Proof.
  apply (handle_closes_after_use 10 300 toy_crc 1000 (fun _ => true)
           (reefnet_on (quiet_wire None 5 sample_reply) 7) (Some [])
           (vyper2_on (quiet_wire None 5 sample_reply) false)
           sample_command 7 (repeat x00 7) 7 0
           DC_STATUS_TIMEOUT _ (store (repeat x00 7) 0 7 sample_reply)).
  - lia.
  - lia.
  - lia.
  - reflexivity.
  - reflexivity.
  - reflexivity.
Defined.

(** ** A handle that was just opened *)

(** X18.  [open] gives a handle or leaves [*out] as it was: with
    another status than success, what [out] points to is unchanged;
    with success it is a handle of the family with the cancellation
    flag clear, no events and the cutoff 0, under which the extraction
    does on every buffer what it does with no handle at all, so that
    the first download holds back no dive. *)
Theorem opened_handle_holds_back_no_dive {serial_t : Type}
    `{Serial serial_t} `{SerialSetup serial_t}
    (HS PARITY FLOW QUEUE : Z) (malloc_device : bool)
    (out out' : option (option (@device serial_t))) (name : list byte)
    (st : dc_status_t) :
  reefnet_sensuspro_device_open HS PARITY FLOW QUEUE malloc_device out name
  = (st, out') ->
  (st <> DC_STATUS_SUCCESS -> out' = out)
  /\ (st = DC_STATUS_SUCCESS ->
      exists d,
        out' = Some (Some (Reefnet_sensuspro d))
        /\ rsp_base d = device_init reefnet_sensuspro_device_backend
        /\ no_cutoff (Some (Reefnet_sensuspro d))
        /\ forall (U : Type) (data : list byte) (size : Z)
                  (callback : option (dc_dive_callback_t U)) (u : U),
             0 <= size -> size + 12 < 2 ^ 32 ->
             reefnet_sensuspro_extract_dives (Some (Reefnet_sensuspro d))
               data size callback u
             = reefnet_sensuspro_extract_dives (serial_t := serial_t) None
                 data size callback u).
Proof.
  unfold reefnet_sensuspro_device_open.
  destruct out as [cur|];
    [|intros [= <- <-]; split; [reflexivity|discriminate]].
  destruct malloc_device; cbn [negb];
    [|intros [= <- <-]; split; [reflexivity|discriminate]].
  destruct (serial_open name) as [port|];
    [|intros [= <- <-]; split; [reflexivity|discriminate]].
  destruct (serial_configure _ _ _ _ _ _) as [port1 rc].
  destruct (rc =? -1);
    [intros [= <- <-]; split; [reflexivity|discriminate]|].
  destruct (serial_set_timeout _ _) as [port2 rc2].
  destruct (rc2 =? -1);
    [intros [= <- <-]; split; [reflexivity|discriminate]|].
  intros [= <- <-]. split; [congruence|]. intros _.
  eexists. split; [reflexivity|]. split; [reflexivity|]. split.
  - right. eexists. split; [reflexivity|]. split; reflexivity.
  - intros U data size callback u Hsize Hmax.
    rewrite extract_dives_reefnet by reflexivity. simpl rsp_timestamp.
    apply (zero_cutoff_scan data callback size Hmax). lia.
Qed.

Lemma opened_handle_holds_back_no_dive_witness :
  reefnet_sensuspro_device_open 10 0 0 2 true (Some None) [x41]
  = (DC_STATUS_SUCCESS,
     Some (Some (Reefnet_sensuspro (reefnet_on sample_tape 0))))
  /\ reefnet_sensuspro_extract_dives
       (Some (Reefnet_sensuspro (reefnet_on sample_tape 0)))
       (concat [dive_50; dive_100]) 27 (Some recorder) []
     = reefnet_sensuspro_extract_dives (serial_t := tape) None
         (concat [dive_50; dive_100]) 27 (Some recorder) [].
Proof.
  assert (Hrun :
    reefnet_sensuspro_device_open 10 0 0 2 true (Some None) [x41]
    = (DC_STATUS_SUCCESS,
       Some (Some (Reefnet_sensuspro (reefnet_on sample_tape 0)))))
    by reflexivity.
  split; [exact Hrun|].
  destruct (opened_handle_holds_back_no_dive 10 0 0 2 true
              (Some None)
              (Some (Some (Reefnet_sensuspro (reefnet_on sample_tape 0))))
              [x41] DC_STATUS_SUCCESS Hrun)
    as [_ Hok].
  destruct (Hok eq_refl) as (d & Hout & _ & _ & Hsame).
  injection Hout as <-. apply Hsame; lia.
Defined.

(** ** Extraction without a callback *)

Lemma extract_loop_null_callback {U V : Type} (data : list byte)
    (cutoff : option Z) (cb : dc_dive_callback_t U) (fuel : nat) :
  always_continues cb ->
  forall (s : scan_state U) (s0 : scan_state V) (r : extract_result U),
    previous s0 = previous s -> current s0 = current s ->
    extract_loop data cutoff (Some cb) fuel s = Some r ->
    extract_loop data cutoff None fuel s0
    = Some {| res_status := res_status r; res_calls := calls s0;
              res_userdata := userdata s0 |}.
Proof.
  intros Hcont.
  induction fuel as [|fuel IH]; intros s s0 r Hp Hc; [discriminate|].
  cbn [extract_loop]. unfold extract_step. rewrite Hp, Hc.
  destruct (0 <? current s); [|intros [= <-]; reflexivity].
  destruct (memcmp_is0 data (current s - 1) header) as [[|]|];
    [|intros Hr;
      refine (IH _ {| previous := previous s; current := current s - 1;
                      userdata := userdata s0; calls := calls s0 |}
                 r _ _ Hr); reflexivity
     |discriminate].
  destruct (find_footer _ _ _ _) as [[offset|]|];
    [|intros [= <-]; reflexivity|discriminate].
  destruct (array_uint32_le data (current s - 1 + 6)) as [ts|];
    [|discriminate].
  destruct (match cutoff with Some t => ts <=? t | None => false end);
    [intros [= <-]; reflexivity|].
  pose proof (Hcont data
                {| dv_data := current s - 1;
                   dv_size := uint (uint (offset + 2) - (current s - 1));
                   dv_fingerprint := current s - 1 + 6;
                   dv_fsize := 4 |} (userdata s)) as Hgo.
  destruct (cb data _ (userdata s)) as [rc u']. cbn [fst] in Hgo.
  apply Z.eqb_neq in Hgo. rewrite Hgo. intros Hr.
  refine (IH _ {| previous := current s - 1;
                  current := if 4 <=? current s - 1
                             then current s - 1 - 4 else 0;
                  userdata := userdata s0; calls := calls s0 |}
             r _ _ Hr); reflexivity.
Qed.

(** X19.  The callback is optional: with no callback the extraction
    makes no call, leaves the user data alone and returns the status it
    returns with a callback that always continues. *)
Theorem null_callback_same_status {serial_t U V : Type}
    (abstract : option (@device serial_t)) (data : list byte) (size : Z)
    (cb : dc_dive_callback_t U) (u : U) (v : V) (r : extract_result U) :
  always_continues cb ->
  reefnet_sensuspro_extract_dives abstract data size (Some cb) u = Some r ->
  reefnet_sensuspro_extract_dives abstract data size None v
  = Some {| res_status := res_status r; res_calls := [];
            res_userdata := v |}.
Proof.
  intros Hcont. unfold reefnet_sensuspro_extract_dives.
  destruct abstract as [dev|].
  - destruct (negb (device_is_reefnet_sensuspro (Some dev)));
      [intros [= <-]; reflexivity|].
    destruct (as_reefnet_sensuspro (Some dev)) as [d|]; [|discriminate].
    unfold extract_scan. intros Hr.
    now apply (extract_loop_null_callback data _ cb _ Hcont
                 (scan_init size u) (scan_init size v) r).
  - unfold extract_scan. intros Hr.
    now apply (extract_loop_null_callback data _ cb _ Hcont
                 (scan_init size u) (scan_init size v) r).
Qed.

Lemma null_callback_same_status_witness :
  reefnet_sensuspro_extract_dives (serial_t := unit) None
    (torn_dive ++ dive_50 ++ dive_100) 40 None tt
  = Some {| res_status := DC_STATUS_DATAFORMAT; res_calls := [];
            res_userdata := tt |}.
Proof.
  apply (null_callback_same_status (serial_t := unit) None
           (torn_dive ++ dive_50 ++ dive_100) 40 recorder [] tt
           {| res_status := DC_STATUS_DATAFORMAT;
              res_calls := [view_at 27 13; view_at 13 14];
              res_userdata := [view_at 27 13; view_at 13 14] |}).
  - intros data v u. simpl. discriminate.
  - vm_compute. reflexivity.
Defined.

(** ** What a data-format error tells *)

Lemma find_footer_none_inv (data : list byte) (prev : Z) (fuel : nat) :
  forall (offset : Z),
    0 <= offset -> offset + 2 < 2 ^ 32 -> prev + 2 < 2 ^ 32 ->
    find_footer fuel data prev offset = Some None ->
    forall q, offset <= q -> q + 2 <= prev ->
              memcmp_is0 data q footer = Some false.
Proof.
  induction fuel as [|fuel IH]; intros offset H0 Hoff Hprev; simpl;
    [discriminate|].
  rewrite uint_small by lia.
  destruct (offset + 2 <=? prev) eqn:Hle.
  - apply Z.leb_le in Hle.
    destruct (memcmp_is0 data offset footer) as [[|]|] eqn:Hcmp;
      try discriminate.
    rewrite uint_small by lia. intros Hf q Hq Hq'.
    destruct (Z.eq_dec q offset) as [->|Hne]; [exact Hcmp|].
    apply (IH (offset + 1)); try assumption; lia.
  - apply Z.leb_gt in Hle. intros _ q Hq Hq'. lia.
Qed.

Section TornDive.
Context {U : Type}.
Variable data : list byte.
Variable cutoff : option Z.
Variable callback : option (dc_dive_callback_t U).
Variable size : Z.
Hypothesis Hsize : size + 12 < 2 ^ 32.

(** The header the scan stands on when it gives up, and the boundary
    below which it looked for the footer. *)
Lemma extract_loop_torn_dive (fuel : nat) :
  forall (s : scan_state U) (r : extract_result U),
    cursors_inside size s ->
    current s <= previous s ->
    (previous s = size \/ memcmp_is0 data (previous s) header = Some true) ->
    extract_loop data cutoff callback fuel s = Some r ->
    res_status r = DC_STATUS_DATAFORMAT ->
    exists p bound,
      0 <= p /\ p + 4 <= bound /\ bound <= size
      /\ memcmp_is0 data p header = Some true
      /\ (forall q, p + 10 <= q -> q + 2 <= bound ->
                    memcmp_is0 data q footer = Some false)
      /\ (bound = size \/ memcmp_is0 data bound header = Some true).
Proof.
  induction fuel as [|fuel IH]; intros s r Hin Hord Hprev; [discriminate|].
  cbn [extract_loop].
  destruct (extract_step data cutoff callback s) as [[s'|r']|] eqn:Hstep;
    [| |discriminate].
  - apply IH.
    + eapply cursors_inside_step; eauto.
    + destruct Hin as (H0 & _).
      now destruct (extract_step_bounds _ _ _ _ _ Hstep (conj H0 Hord)).
    + destruct (extract_step_continues _ _ _ _ _ Hstep)
        as (Hpos & [(_ & -> & _)|(Hhead & -> & _)]); [exact Hprev|].
      right. exact Hhead.
  - intros Heq Hst. injection Heq as ->.
    destruct Hin as (H0 & Hp & Hroom).
    revert Hstep. unfold extract_step.
    destruct (0 <? current s) eqn:Hpos;
      [|intros Heq; injection Heq as <-; discriminate Hst].
    apply Z.ltb_lt in Hpos.
    destruct (memcmp_is0 data (current s - 1) header) as [[|]|] eqn:Hhead;
      try discriminate.
    rewrite uint_small by lia.
    destruct (find_footer _ _ _ _) as [[offset|]|] eqn:Hfind;
      [| |discriminate].
    + destruct (array_uint32_le _ _) as [ts|]; [|discriminate].
      destruct (match cutoff with Some t => ts <=? t | None => false end);
        [intros Heq; injection Heq as <-; discriminate Hst|].
      destruct callback as [cb|]; [|discriminate].
      destruct (cb _ _ _) as [rc u']. destruct (rc =? 0); [|discriminate].
      intros Heq. injection Heq as <-. discriminate Hst.
    + intros _. exists (current s - 1), (previous s).
      repeat split; try lia; try assumption.
      intros q Hq Hq'.
      apply (find_footer_none_inv data (previous s)
               (S (Z.to_nat (previous s))) (current s - 1 + 10));
        try assumption; lia.
Qed.
End TornDive.

(** X20.  A data-format error is the report of a torn dive: when the
    extraction returns it, the buffer holds a header with no footer
    from its offset 10 up to the boundary of the search, and this
    boundary is the end of the buffer or the header of the dive that
    was found before. *)
Theorem data_format_error_names_a_torn_dive {serial_t U : Type}
    (abstract : option (@device serial_t)) (data : list byte) (size : Z)
    (callback : option (dc_dive_callback_t U)) (u : U)
    (r : extract_result U) :
  family_handle abstract ->
  0 <= size -> size + 12 < 2 ^ 32 ->
  reefnet_sensuspro_extract_dives abstract data size callback u = Some r ->
  res_status r = DC_STATUS_DATAFORMAT ->
  exists p bound,
    0 <= p /\ p + 4 <= bound /\ bound <= size
    /\ memcmp_is0 data p header = Some true
    /\ (forall q, p + 10 <= q -> q + 2 <= bound ->
                  memcmp_is0 data q footer = Some false)
    /\ (bound = size \/ memcmp_is0 data bound header = Some true).
Proof.
  intros Hfam Hsize Hmax. rewrite extract_dives_family by exact Hfam.
  unfold extract_scan.
  apply (extract_loop_torn_dive data (cutoff_of abstract) callback size Hmax).
  - unfold cursors_inside. simpl.
    destruct (4 <=? size) eqn:H4; [apply Z.leb_le in H4|]; lia.
  - simpl. destruct (4 <=? size) eqn:H4; [apply Z.leb_le in H4|]; lia.
  - left. reflexivity.
Qed.

Lemma data_format_error_names_a_torn_dive_witness :
  exists p bound,
    0 <= p /\ p + 4 <= bound /\ bound <= 40
    /\ memcmp_is0 (torn_dive ++ dive_50 ++ dive_100) p header = Some true
    /\ (forall q, p + 10 <= q -> q + 2 <= bound ->
                  memcmp_is0 (torn_dive ++ dive_50 ++ dive_100) q footer
                  = Some false)
    /\ (bound = 40
        \/ memcmp_is0 (torn_dive ++ dive_50 ++ dive_100) bound header
           = Some true).
Proof.
  apply (data_format_error_names_a_torn_dive (serial_t := unit) None
           (torn_dive ++ dive_50 ++ dive_100) 40 (Some recorder) []
           {| res_status := DC_STATUS_DATAFORMAT;
              res_calls := [view_at 27 13; view_at 13 14];
              res_userdata := [view_at 27 13; view_at 13 14] |}).
  - left. reflexivity.
  - lia.
  - lia.
  - vm_compute. reflexivity.
  - reflexivity.
Defined.

(** * Dive records anywhere in a buffer

    The newest-first order of the specification, for records with
    other bytes before, between and after them. *)

Lemma spaced_app (a b : list (list byte * list byte)) :
  spaced (a ++ b) = spaced a ++ spaced b.
Proof. unfold spaced. now rewrite map_app, concat_app. Qed.

Lemma spaced_last (r g : list byte) : spaced [(r, g)] = r ++ g.
Proof. unfold spaced. simpl. now rewrite app_nil_r. Qed.

Lemma spaced_views_app (off : Z) (items : list (list byte * list byte))
    (r g : list byte) :
  spaced_views off (items ++ [(r, g)])
  = spaced_views off items
    ++ [view_at (off + Z.of_nat (length (spaced items)))
                (Z.of_nat (length r))].
Proof.
  revert off. induction items as [|[r0 g0] items IH]; intros off.
  - simpl. now replace (off + 0) with off by lia.
  - cbn [app spaced_views fst snd]. rewrite IH. do 3 f_equal.
    unfold spaced. cbn [map concat fst snd]. rewrite !length_app.
    rewrite !Nat2Z.inj_add. f_equal. lia.
Qed.

Lemma spaced_views_length (off : Z) (items : list (list byte * list byte)) :
  length (spaced_views off items) = length items.
Proof.
  revert off. induction items as [|rg items IH]; intros off; simpl; auto.
Qed.

Lemma spaced_views_sound (items : list (list byte * list byte)) :
  forall (pre post : list byte),
    Forall filled_record items ->
    Forall2 (views_record (pre ++ spaced items ++ post)) (map fst items)
            (spaced_views (Z.of_nat (length pre)) items).
Proof.
  induction items as [|[r g] items IH]; intros pre post Hwf; [constructor|].
  inversion Hwf as [|? ? [Hr _] Hrs]; subst. cbn [fst snd] in Hr.
  destruct (well_formed_record_inv r Hr) as (Hlen & _).
  assert (Hdata : pre ++ spaced ((r, g) :: items) ++ post
                  = pre ++ r ++ (g ++ spaced items ++ post)).
  { unfold spaced. cbn [map concat fst snd]. now rewrite <- !app_assoc. }
  cbn [map spaced_views fst snd]. constructor.
  - rewrite Hdata. unfold views_record, view_at. cbn [dv_data dv_size
      dv_fingerprint dv_fsize].
    repeat split.
    + pose proof (load_inside pre r (g ++ spaced items ++ post) 0 (length r))
        as Hl.
      rewrite Z.add_0_r in Hl. rewrite Hl by lia.
      simpl. now rewrite firstn_all.
    + apply timestamp_inside. lia.
  - specialize (IH (pre ++ r ++ g) post Hrs).
    rewrite !length_app, !Nat2Z.inj_add in IH.
    rewrite Hdata. rewrite <- !app_assoc in IH.
    rewrite Z.add_assoc in IH. exact IH.
Qed.

Section SpacedScan.
Context {U : Type}.
Variable cutoff : option Z.
Variable cb : dc_dive_callback_t U.
Hypothesis Hcont : always_continues cb.

(** The scan delivers the records of the items, newest first, each
    with its own length, and goes on below them. *)
Lemma scan_spaced (items : list (list byte * list byte)) :
  forall (pre post data : list byte) (u : U) (tr : list dive_view),
    data = pre ++ spaced items ++ post ->
    Forall filled_record items ->
    Forall (fun rg => cut_by cutoff (fst rg) = false) items ->
    Z.of_nat (length (pre ++ spaced items)) + 8 < 2 ^ 32 ->
    steps data cutoff (Some cb)
      (below_record (pre ++ spaced items) u tr)
      (below_record pre
         (run_callback cb data
            (rev (spaced_views (Z.of_nat (length pre)) items)) u)
         (tr ++ rev (spaced_views (Z.of_nat (length pre)) items))).
Proof.
  induction items as [|[r g] items IH] using rev_ind;
    intros pre post data u tr Hdata Hwf Hcut Hsize.
  - simpl. rewrite !app_nil_r. apply steps_refl.
  - apply Forall_app in Hwf as [Hwf Hr]. apply Forall_app in Hcut as [Hcut Hc].
    inversion Hr as [|? ? [Hr' Hg] _]; subst x l.
    inversion Hc as [|? ? Hc' _]; subst x l.
    cbn [fst snd] in Hr', Hg, Hc'.
    destruct (well_formed_record_inv r Hr') as (Hlen & _).
    assert (Hd1 : data = (pre ++ spaced items) ++ r ++ g ++ post).
    { rewrite Hdata, spaced_app, spaced_last. now rewrite <- !app_assoc. }
    assert (Htotal : Z.of_nat (length (pre ++ spaced (items ++ [(r, g)])))
                     = Z.of_nat (length (pre ++ spaced items))
                       + Z.of_nat (length r) + Z.of_nat (length g)).
    { rewrite spaced_app, spaced_last, !length_app. lia. }
    set (view := record_view (pre ++ spaced items) r).
    assert (Hlast : spaced_views (Z.of_nat (length pre)) (items ++ [(r, g)])
                    = spaced_views (Z.of_nat (length pre)) items ++ [view]).
    { rewrite spaced_views_app. unfold view, record_view, view_at.
      rewrite !length_app. do 2 f_equal. f_equal; lia. }
    assert (Hgo : fst (cb data view u) <> 0) by apply Hcont.
    rewrite Hlast, rev_app_distr. simpl rev. rewrite (app_assoc tr [view]).
    unfold below_record at 1. rewrite Htotal in *.
    replace (4 <=? Z.of_nat (length (pre ++ spaced items))
                   + Z.of_nat (length r) + Z.of_nat (length g))
      with true by (symmetry; apply Z.leb_le; lia).
    eapply steps_trans.
    { replace (Z.of_nat (length (pre ++ spaced items))
               + Z.of_nat (length r) + Z.of_nat (length g) - 4)
        with ((Z.of_nat (length (pre ++ spaced items)) + 1)
              + Z.of_nat (length r + length g - 5)) by lia.
      apply skip_to; [lia|].
      intros q Hq Hq'. rewrite Hd1.
      replace q with (Z.of_nat (length (pre ++ spaced items))
                      + Z.of_nat (Z.to_nat
                                    (q - Z.of_nat
                                           (length (pre ++ spaced items)))))
        by lia.
      apply no_header_past_record; auto; lia. }
    eapply steps_next.
    + rewrite Hd1.
      rewrite (record_step_under (pre ++ spaced items) r (g ++ post)
                 cutoff (Some cb)
                 (Z.of_nat (length (pre ++ spaced items))
                  + Z.of_nat (length r) + Z.of_nat (length g))
                 Hr' ltac:(lia) ltac:(lia) u tr).
      rewrite Hc'. fold view. rewrite <- Hd1.
      apply Z.eqb_neq in Hgo. rewrite Hgo. reflexivity.
    + simpl run_callback.
      apply (IH pre (r ++ g ++ post) data (snd (cb data view u))
                (tr ++ [view])); auto.
      * rewrite Hd1. now rewrite <- !app_assoc.
      * lia.
Qed.
End SpacedScan.

(** C1.  A buffer that contains N well-formed dive records
    ([well_formed_record]) in increasing offset order, oldest first,
    with strictly increasing timestamps: some bytes before the first
    record and after each record, up to the next one or to the end of
    the buffer, which hold no header.  Extracted with no fingerprint
    cutoff and a callback that always continues, the callback is
    invoked N times, newest (highest offset) first, each time with the
    byte range [start, footer_end) of the record, which ends with its
    footer and not with the bytes that follow it, and with the four
    bytes of its timestamp at [start + 6] ([views_record]); the
    function returns success. *)
Theorem extract_dives_newest_first {serial_t U : Type}
    (abstract : option (@device serial_t)) (pre : list byte)
    (items : list (list byte * list byte))
    (cb : dc_dive_callback_t U) (u : U) :
  no_cutoff abstract ->
  header_free pre = true ->
  Forall filled_record items ->
  strictly_increasing (map (fun rg => record_timestamp (fst rg)) items) ->
  always_continues cb ->
  scannable (pre ++ spaced items) ->
  reefnet_sensuspro_extract_dives abstract (pre ++ spaced items)
    (Z.of_nat (length (pre ++ spaced items))) (Some cb) u
  = Some {| res_status := DC_STATUS_SUCCESS;
            res_calls := rev (spaced_views (Z.of_nat (length pre)) items);
            res_userdata :=
              run_callback cb (pre ++ spaced items)
                (rev (spaced_views (Z.of_nat (length pre)) items)) u |}
  /\ length (rev (spaced_views (Z.of_nat (length pre)) items)) = length items
  /\ Forall2 (views_record (pre ++ spaced items)) (map fst items)
             (spaced_views (Z.of_nat (length pre)) items).
Proof.
  intros Hno Hpre Hwf _ Hcont Hsize. split; [|split].
  - assert (Hfam : family_handle abstract).
    { destruct Hno as [->|(d & -> & Hb & _)]; [now left|].
      right. eauto. }
    assert (Hcut : Forall (fun rg => cut_by (cutoff_of abstract) (fst rg)
                                     = false) items).
    { eapply Forall_impl; [|exact Hwf]. intros rg [Hr _].
      destruct Hno as [->|(d & -> & _ & Ht)]; [reflexivity|].
      unfold cutoff_of. simpl. rewrite Ht.
      apply Z.leb_gt. now apply well_formed_timestamp_pos. }
    rewrite extract_dives_family by exact Hfam.
    unfold scannable in Hsize.
    apply returns_scan; [lia|].
    assert (Hinit : scan_init (Z.of_nat (length (pre ++ spaced items))) u
                    = below_record (pre ++ spaced items) u [])
      by reflexivity.
    rewrite Hinit.
    eapply steps_returns.
    { apply (scan_spaced (cutoff_of abstract) cb Hcont items pre []
               (pre ++ spaced items) u []); auto.
      now rewrite app_nil_r. }
    eapply steps_returns.
    { unfold below_record.
      set (cur := if 4 <=? Z.of_nat (length pre)
                  then Z.of_nat (length pre) - 4 else 0).
      assert (Hcur : 0 <= cur
                     /\ (cur = 0 \/ cur + 4 = Z.of_nat (length pre))).
      { unfold cur. destruct (4 <=? Z.of_nat (length pre)) eqn:H4;
          [apply Z.leb_le in H4|]; lia. }
      replace cur with (0 + Z.of_nat (Z.to_nat cur)) by lia.
      apply skip_to; [lia|].
      intros q Hq Hq'. apply header_free_memcmp; [exact Hpre|lia|lia]. }
    apply returns_now. reflexivity.
  - now rewrite length_rev, spaced_views_length.
  - pose proof (spaced_views_sound items pre [] Hwf) as Hs.
    now rewrite app_nil_r in Hs.
Qed.

Lemma extract_dives_newest_first_witness :
  reefnet_sensuspro_extract_dives (serial_t := unit) None
    (sample_lead ++ spaced sample_items) 42 (Some recorder) []
  = Some {| res_status := DC_STATUS_SUCCESS;
            res_calls := [view_at 20 13; view_at 5 14];
            res_userdata := [view_at 20 13; view_at 5 14] |}
  /\ length (rev (spaced_views 5 sample_items)) = 2%nat
  /\ Forall2 (views_record (sample_lead ++ spaced sample_items))
             [dive_50; dive_100] (spaced_views 5 sample_items).
Proof.
  apply (extract_dives_newest_first (serial_t := unit) None
           sample_lead sample_items recorder []).
  - left. reflexivity.
  - reflexivity.
  - repeat constructor.
  - simpl. vm_compute. repeat split.
  - intros data v u. simpl. discriminate.
  - unfold scannable. simpl. lia.
Defined.
